(** * Guardrails and bounded conversation context of the MistralAI
      audio-analysis assistant

    A shallow embedding of [src/utils/guardrails.py] (class [ContentFilter]),
    [src/core/llm_client.py] (class [MistralClient]) and
    [src/services/chat_service.py] (class [ChatService]), with the
    properties of the specification stated and proved over it.

    Conventions of the embedding.
    - A Python [str] is a [string]; a character is a code point in
      U+0000..U+00FF (the [ascii] type read as Latin-1).  [len] is
      [String.length].
    - Python dictionaries whose keys are tested ([in], [.get]) are
      [gmap string pyval]; dictionaries built with a fixed set of keys and
      only read by subscript are records.
    - The [re] module is embedded as a small backtracking matcher over the
      constructs the patterns of the source use.
    - Exceptions are values of [exn]; a function that may raise returns
      [result]. *)

From Stdlib Require Import ZArith NArith QArith Ascii String List Bool Lia.
From Stdlib Require Import PrimFloat SpecFloat FloatOps Uint63.
From stdpp Require Import base option list gmap strings pretty.
Import ListNotations.
Local Open Scope string_scope.
Local Open Scope list_scope.
Local Open Scope nat_scope.

(** ** Characters *)

Module Char.

Definition code (c : ascii) : N := N_of_ascii c.

Definition between (lo hi : N) (c : ascii) : bool :=
  ((lo <=? code c) && (code c <=? hi))%N.

(** [str.isspace] on one character, which is also what [str.split()],
    [str.strip()] and the pattern [\s] use: U+0009..U+000D,
    U+001C..U+0020, U+0085 and U+00A0. *)
Definition is_space (c : ascii) : bool :=
  between 9 13 c || between 28 32 c || (code c =? 133)%N || (code c =? 160)%N.

(** [\d]: the decimal digits. *)
Definition is_digit (c : ascii) : bool := between 48 57 c.

Definition is_upper (c : ascii) : bool := between 65 90 c.
Definition is_lower (c : ascii) : bool := between 97 122 c.

(** [\w]: alphanumeric characters and the underscore.  Besides the ASCII
    letters and digits, Latin-1 has the letters U+00AA, U+00B5, U+00BA,
    U+00C0..U+00D6, U+00D8..U+00F6, U+00F8..U+00FF and the numeric
    characters U+00B2, U+00B3, U+00B9, U+00BC..U+00BE. *)
Definition is_word (c : ascii) : bool :=
  is_digit c || is_upper c || is_lower c || (code c =? 95)%N
  || (code c =? 170)%N || (code c =? 181)%N || (code c =? 186)%N
  || between 192 214 c || between 216 246 c || between 248 255 c
  || between 178 179 c || (code c =? 185)%N || between 188 190 c.

(** [str.lower] on one character: A..Z, U+00C0..U+00D6 and U+00D8..U+00DE
    move up by 32, everything else stays. *)
Definition lower (c : ascii) : ascii :=
  if is_upper c || between 192 214 c || between 216 222 c
  then ascii_of_N (code c + 32) else c.

Definition eqb (a b : ascii) : bool := Ascii.eqb a b.

Definition LF : ascii := "010"%char.
Definition SPACE : ascii := " "%char.

End Char.

(** ** Strings *)

Module Str.

Fixpoint map (f : ascii -> ascii) (s : string) : string :=
  match s with
  | EmptyString => EmptyString
  | String c s' => String (f c) (map f s')
  end.

(** [s.lower()] *)
Definition lower (s : string) : string := map Char.lower s.

Fixpoint forallb (p : ascii -> bool) (s : string) : bool :=
  match s with
  | EmptyString => true
  | String c s' => p c && forallb p s'
  end.

Fixpoint existsb (p : ascii -> bool) (s : string) : bool :=
  match s with
  | EmptyString => false
  | String c s' => p c || existsb p s'
  end.

(** [s.lstrip()] *)
Fixpoint lstrip (s : string) : string :=
  match s with
  | EmptyString => EmptyString
  | String c s' => if Char.is_space c then lstrip s' else s
  end.

(** [s.rstrip()]: a character is kept when it is not white space or when
    something is kept after it. *)
Fixpoint rstrip (s : string) : string :=
  match s with
  | EmptyString => EmptyString
  | String c s' =>
      match rstrip s' with
      | EmptyString => if Char.is_space c then EmptyString else String c EmptyString
      | r => String c r
      end
  end.

(** [s.strip()] *)
Definition strip (s : string) : string := rstrip (lstrip s).

(** [s.split()]: the maximal runs of characters that are not white space.
    [cur] is the run being read. *)
Fixpoint split_aux (cur : string) (s : string) : list string :=
  match s with
  | EmptyString =>
      match cur with EmptyString => [] | _ => [cur] end
  | String c s' =>
      if Char.is_space c
      then match cur with
           | EmptyString => split_aux EmptyString s'
           | _ => cur :: split_aux EmptyString s'
           end
      else split_aux (cur +:+ String c EmptyString) s'
  end.

Definition split (s : string) : list string := split_aux EmptyString s.

(** [s[:n]] for [0 <= n] *)
Fixpoint take (n : nat) (s : string) : string :=
  match n, s with
  | S n', String c s' => String c (take n' s')
  | _, _ => EmptyString
  end.

(** [n] copies of a character; used to write long inputs. *)
Fixpoint replicate (n : nat) (c : ascii) : string :=
  match n with
  | O => EmptyString
  | S n' => String c (replicate n' c)
  end.

(** [s.startswith(p)] *)
Fixpoint has_prefix (p s : string) : bool :=
  match p, s with
  | EmptyString, _ => true
  | String a p', String b s' => Char.eqb a b && has_prefix p' s'
  | String _ _, EmptyString => false
  end.

End Str.

(** ** Regular expressions

    The constructs used by the patterns of [guardrails.py]: character
    classes, greedy bounded repetition of a class, concatenation,
    alternation, the word boundary [\b] and the negative look-ahead
    [(?!...)].  Matching is by backtracking with the priorities of
    Python's [re]: the first alternative first, the longest repetition
    first. *)

Module Re.

Inductive regex : Type :=
| Eps : regex
| Cls (p : ascii -> bool) : regex
| Rep (p : ascii -> bool) (lo : nat) (hi : option nat) : regex
| Cat (r1 r2 : regex) : regex
| Alt (r1 r2 : regex) : regex
| Bnd : regex
| NotAhead (r : regex) : regex.

(** A position is the character before it ([None] at the start) and the
    text after it. *)
Definition is_word_opt (o : option ascii) : bool :=
  match o with Some c => Char.is_word c | None => false end.

Definition next_char (s : string) : option ascii :=
  match s with EmptyString => None | String c _ => Some c end.

(** [\b]: exactly one of the two neighbours is a word character. *)
Definition at_boundary (prev : option ascii) (s : string) : bool :=
  xorb (is_word_opt prev) (is_word_opt (next_char s)).

Definition may_repeat (hi : option nat) : bool :=
  match hi with Some O => false | _ => true end.

Definition dec_hi (hi : option nat) : option nat :=
  match hi with Some n => Some (Nat.pred n) | None => None end.

Section Exec.
Context {A : Type}.

(** Greedy [p{lo,hi}]: one more character when allowed, the continuation
    [k] being tried on the longest run first. *)
Fixpoint rep_exec (p : ascii -> bool) (lo : nat) (hi : option nat)
    (prev : option ascii) (s : string)
    (k : option ascii -> string -> option A) : option A :=
  let stop := if Nat.eqb lo 0 then k prev s else None in
  match s with
  | String c s' =>
      if p c && may_repeat hi
      then match rep_exec p (Nat.pred lo) (dec_hi hi) (Some c) s' k with
           | Some x => Some x
           | None => stop
           end
      else stop
  | EmptyString => stop
  end.

End Exec.

(** [exec r prev s k]: match [r] at the position [(prev, s)] and hand the
    position after the match to [k]; [None] when every way of matching
    fails. *)
Fixpoint exec (A : Type) (r : regex) (prev : option ascii) (s : string)
    (k : option ascii -> string -> option A) : option A :=
  match r with
  | Eps => k prev s
  | Cls p =>
      match s with
      | String c s' => if p c then k (Some c) s' else None
      | EmptyString => None
      end
  | Rep p lo hi => rep_exec p lo hi prev s k
  | Cat r1 r2 => exec A r1 prev s (fun prev' s' => exec A r2 prev' s' k)
  | Alt r1 r2 =>
      match exec A r1 prev s k with
      | Some x => Some x
      | None => exec A r2 prev s k
      end
  | Bnd => if at_boundary prev s then k prev s else None
  | NotAhead r' =>
      match exec unit r' prev s (fun _ _ => Some tt) with
      | Some _ => None
      | None => k prev s
      end
  end.

(** The number of characters of the match of [r] that starts at the
    position [(prev, s)], if there is one. *)
Definition match_len (r : regex) (prev : option ascii) (s : string) : option nat :=
  exec nat r prev s (fun _ rest => Some (String.length s - String.length rest)).

(** [re.search(r, s)] as a truth value, from the position [(prev, s)]
    rightwards. *)
Fixpoint search_from (r : regex) (prev : option ascii) (s : string) : bool :=
  match match_len r prev s with
  | Some _ => true
  | None =>
      match s with
      | EmptyString => false
      | String c s' => search_from r (Some c) s'
      end
  end.

Definition search (r : regex) (s : string) : bool := search_from r None s.

(** [re.sub(r, repl, s)] for a pattern that matches no empty string (all
    patterns of the source need at least one character): scan from the
    left, replace each match by [repl] and go on after it.  [skip] counts
    the characters of the current match that are still to be dropped. *)
Fixpoint sub_from (r : regex) (repl : string) (prev : option ascii)
    (skip : nat) (s : string) : string :=
  match s with
  | EmptyString => EmptyString
  | String c s' =>
      match skip with
      | S n => sub_from r repl (Some c) n s'
      | O =>
          match match_len r prev s with
          | Some (S n) => repl +:+ sub_from r repl (Some c) n s'
          | _ => String c (sub_from r repl (Some c) 0 s')
          end
      end
  end.

Definition sub (r : regex) (repl : string) (s : string) : string :=
  sub_from r repl None 0 s.

(** [re.findall(r, s)] for a pattern without groups that matches no empty
    string: the matched substrings, left to right. *)
Fixpoint findall_from (r : regex) (prev : option ascii) (skip : nat)
    (s : string) : list string :=
  match s with
  | EmptyString => []
  | String c s' =>
      match skip with
      | S n => findall_from r (Some c) n s'
      | O =>
          match match_len r prev s with
          | Some (S n) => Str.take (S n) s :: findall_from r (Some c) n s'
          | _ => findall_from r (Some c) 0 s'
          end
      end
  end.

Definition findall (r : regex) (s : string) : list string :=
  findall_from r None 0 s.

(** Pattern builders. *)
Definition chr (c : ascii) : regex := Cls (Char.eqb c).

(** A literal character under [re.IGNORECASE]. *)
Definition chr_i (c : ascii) : regex :=
  Cls (fun x => Char.eqb (Char.lower x) (Char.lower c)).

Fixpoint lit (s : string) : regex :=
  match s with
  | EmptyString => Eps
  | String c EmptyString => chr c
  | String c s' => Cat (chr c) (lit s')
  end.

Fixpoint lit_i (s : string) : regex :=
  match s with
  | EmptyString => Eps
  | String c EmptyString => chr_i c
  | String c s' => Cat (chr_i c) (lit_i s')
  end.

Fixpoint alts (rs : list regex) : regex :=
  match rs with
  | [] => NotAhead Eps
  | [r] => r
  | r :: rs' => Alt r (alts rs')
  end.

Fixpoint cats (rs : list regex) : regex :=
  match rs with
  | [] => Eps
  | [r] => r
  | r :: rs' => Cat r (cats rs')
  end.

Definition plus (p : ascii -> bool) : regex := Rep p 1 None.
Definition at_least (n : nat) (p : ascii -> bool) : regex := Rep p n None.
Definition exactly (n : nat) (p : ascii -> bool) : regex := Rep p n (Some n).
Definition opt (p : ascii -> bool) : regex := Rep p 0 (Some 1).

End Re.

(** ** Python values and exceptions *)

(** The values that are stored in the dictionaries of the source: [None],
    booleans and strings. *)
Inductive pyval : Type :=
| PNone : pyval
| PBool (b : bool) : pyval
| PStr (s : string) : pyval.

Global Instance pyval_eq_dec : EqDecision pyval.
Proof. solve_decision. Defined.

(** Truth value of a Python value, as [if v:] and [not v] read it. *)
Definition truthy (v : pyval) : bool :=
  match v with
  | PNone => false
  | PBool b => b
  | PStr EmptyString => false
  | PStr _ => true
  end.

(** [d.get(key, default)]: the stored value when the key is present,
    whatever that value is, and [default] only when the key is absent. *)
Definition dict_get (d : gmap string pyval) (key : string) (default : pyval) : pyval :=
  match d !! key with
  | Some v => v
  | None => default
  end.

Inductive exn : Type :=
| ValueError (msg : string) : exn
| Timeout : exn
| RequestException (msg : string) : exn
| OtherException (msg : string) : exn.

(** [str(e)] *)
Definition exn_str (e : exn) : string :=
  match e with
  | ValueError msg => msg
  | Timeout => EmptyString
  | RequestException msg => msg
  | OtherException msg => msg
  end.

Inductive result (A : Type) : Type :=
| Ok (a : A) : result A
| Raise (e : exn) : result A.
Arguments Ok {A} a.
Arguments Raise {A} e.

Global Instance result_ret : MRet result := fun A a => Ok a.

Global Instance result_bind : MBind result := fun A B f m =>
  match m with
  | Ok a => f a
  | Raise e => Raise e
  end.

(** ** Floats *)

(** An integer count as a float; exact below [2 ^ 53]. *)
Definition float_of_Z (n : Z) : float := PrimFloat.of_uint63 (Uint63.of_Z n).

(** [u / w < 0.3] in binary64 arithmetic. *)
Definition float_ratio_below (u w : Z) : bool :=
  PrimFloat.ltb (PrimFloat.div (float_of_Z u) (float_of_Z w))
    0x1.3333333333333p-2%float.

(** ** ContentFilter ([src/utils/guardrails.py]) *)

Module ContentFilter.

Import Re.

Definition word_alternatives (ws : list regex) : regex :=
  cats [Bnd; alts ws; Bnd].

(** [inappropriate_patterns], compiled with [re.IGNORECASE]. *)
Definition compiled_patterns : list regex :=
  [ word_alternatives
      [lit_i "hate"; lit_i "violence"; lit_i "harmful"; lit_i "illegal";
       lit_i "dangerous"];
    word_alternatives
      [lit_i "attack"; lit_i "harm"; lit_i "hurt"; lit_i "kill";
       lit_i "destroy"];
    word_alternatives
      [cats [lit_i "personal"; plus Char.is_space; lit_i "information"];
       cats [lit_i "private"; plus Char.is_space; lit_i "data"];
       lit_i "ssn";
       cats [lit_i "credit"; plus Char.is_space; lit_i "card"]] ].

Definition allowed_topics : gset string :=
  list_to_set
    ["audio"; "spectrogram"; "frequency"; "sound"; "music"; "acoustic";
     "signal"; "processing"; "analysis"; "waveform"; "amplitude";
     "decibel"; "hertz"; "pitch"; "tone"; "harmony"; "rhythm";
     "tempo"; "beat"; "melody"; "voice"; "speech"; "recording"].

Definition nl : string := String Char.LF EmptyString.
Definition indent8 : string := "        ".

(** The triple-quoted literal of [setup_filters], line by line. *)
Definition system_context : string :=
  String.concat nl
    [ EmptyString;
      indent8 +:+ "You are an audio analysis assistant. Your responses should be:";
      indent8 +:+ "1. Focused on audio, music, and sound analysis topics";
      indent8 +:+ "2. Educational and informative";
      indent8 +:+ "3. Professional and appropriate";
      indent8 +:+ "4. Clear and accessible to users with varying technical backgrounds";
      indent8;
      indent8 +:+ "Avoid discussing unrelated topics and maintain focus on audio analysis.";
      indent8 ].

(** [not content or not content.strip()] *)
Definition is_blank (content : string) : bool :=
  match content with
  | EmptyString => true
  | _ => match Str.strip content with EmptyString => true | _ => false end
  end.

(** [pattern.search(content_lower)] for some compiled pattern. *)
Definition inappropriate (content_lower : string) : bool :=
  List.existsb (fun pattern => search pattern content_lower) compiled_patterns.

(** [len(unique_words) / len(words) < 0.3]: the quotient of the two
    counts as a binary64 float, compared with the double that [0.3]
    denotes. *)
Definition ratio_below_30_percent (unique total : nat) : bool :=
  float_ratio_below (Z.of_nat unique) (Z.of_nat total).

Definition too_repetitive (content_lower : string) : bool :=
  let words := Str.split content_lower in
  if 10 <? length words
  then
    let unique_words : gset string := list_to_set words in
    ratio_below_30_percent (size unique_words) (length words)
  else false.

Definition is_safe_content (content : string) : bool :=
  if is_blank content then true
  else
    let content_lower := Str.lower content in
    if inappropriate content_lower then false
    else if 5000 <? String.length content then false
    else if too_repetitive content_lower then false
    else true.

(** *** Sanitizing *)

Definition one_of (cs : string) (c : ascii) : bool := Str.existsb (Char.eqb c) cs.

Definition ascii_alnum (c : ascii) : bool :=
  Char.is_upper c || Char.is_lower c || Char.between 48 57 c.

(** [\b[A-Za-z0-9._%+-]+@[A-Za-z0-9.-]+\.[A-Z|a-z]{2,}\b] *)
Definition email_pattern : regex :=
  cats [Bnd;
        plus (fun c => ascii_alnum c || one_of "._%+-" c);
        chr "@";
        plus (fun c => ascii_alnum c || one_of ".-" c);
        chr ".";
        at_least 2 (fun c => Char.is_upper c || one_of "|" c || Char.is_lower c);
        Bnd].

(** [\b\d{3}[-.]?\d{3}[-.]?\d{4}\b] *)
Definition phone_pattern : regex :=
  cats [Bnd;
        exactly 3 Char.is_digit; opt (one_of "-.");
        exactly 3 Char.is_digit; opt (one_of "-.");
        exactly 4 Char.is_digit;
        Bnd].

(** The names of the look-ahead of the URL pattern. *)
Definition safe_domains : list string :=
  ["wikipedia"; "github"; "docs.python"; "librosa"].

(** [https?://(?!(?:wikipedia|github|docs\.python|librosa))[^\s]+] *)
Definition url_pattern : regex :=
  cats [lit "http"; opt (Char.eqb "s"); lit "://";
        NotAhead (alts (List.map lit safe_domains));
        plus (fun c => negb (Char.is_space c))].

Definition _remove_sensitive_data (content : string) : string :=
  let content := sub email_pattern "[EMAIL_REMOVED]" content in
  let content := sub phone_pattern "[PHONE_REMOVED]" content in
  let content := sub url_pattern "[URL_REMOVED]" content in
  content.

Definition _clean_formatting (content : string) : string :=
  let content := sub (plus Char.is_space) " " content in
  let content := sub (at_least 3 (one_of "!?")) "!" content in
  let content := sub (at_least 4 (Char.eqb ".")) "..." content in
  let content := sub (at_least 3 (Char.eqb Char.LF)) (nl +:+ nl) content in
  Str.strip content.

(** The two sanitizing passes in the order [filter_content] applies
    them. *)
Definition sanitize (content : string) : string :=
  _clean_formatting (_remove_sensitive_data content).

(** *** Topic check *)

Definition short_responses : gset string :=
  list_to_set ["ok"; "yes"; "no"; "hello"; "thanks"; "thank you"].

(** [set(re.findall(r'\b\w+\b', content_lower))] *)
Definition word_set (content_lower : string) : gset string :=
  list_to_set (findall (cats [Bnd; plus Char.is_word; Bnd]) content_lower).

(** [any(word in short_responses for word in words)] *)
Definition any_short_response (words : gset string) : bool :=
  List.existsb (fun word => bool_decide (word ∈ short_responses)) (elements words).

Definition _is_on_topic (content : string) : bool :=
  let content_lower := Str.lower content in
  let words := word_set content_lower in
  let audio_terms_found := words ∩ allowed_topics in
  if (String.length content <? 200) && (0 <? size audio_terms_found) then true
  else if 200 <=? String.length content then 2 <=? size audio_terms_found
  else if (size words <=? 3) && any_short_response words then true
  else 0 <? size audio_terms_found.

Definition redirect_note : string :=
  nl +:+ nl +:+ "[Note: I focus on audio analysis topics. "
  +:+ "If you have questions about spectrograms, audio features, "
  +:+ "or sound analysis, I'd be happy to help!]".

Definition _add_topic_redirect (content : string) : string :=
  content +:+ redirect_note.

Definition filter_content (content : string) : string :=
  match content with
  | EmptyString => content
  | _ =>
      let filtered := _remove_sensitive_data content in
      let filtered := _clean_formatting filtered in
      if negb (_is_on_topic filtered)
      then _add_topic_redirect filtered
      else filtered
  end.

Definition get_system_prompt : string := system_context.

(** The dictionary returned by [validate_question]: the three keys are
    present in every branch. *)
Definition validate_question (question : string) : gmap string pyval :=
  if negb (is_safe_content question) then
    {[ "is_valid" := PBool false;
       "reason" := PStr "Question contains inappropriate content";
       "modified_question" := PNone ]}
  else
    let cleaned_question := filter_content question in
    if negb (_is_on_topic cleaned_question) then
      {[ "is_valid" := PBool true;
         "reason" := PStr "Question is off-topic but allowed";
         "modified_question" :=
           PStr (cleaned_question +:+
                 " (Please provide an audio analysis perspective if possible.)") ]}
    else
      {[ "is_valid" := PBool true;
         "reason" := PStr "Question passed all checks";
         "modified_question" :=
           if bool_decide (cleaned_question = question) then PNone
           else PStr cleaned_question ]}.

End ContentFilter.

(** ** Python lists, objects and numbers *)

(** [l[start:]] with Python's reading of [start]: a negative index counts
    from the end, and both ends are clipped to the list. *)
Definition py_slice_from {A : Type} (start : Z) (l : list A) : list A :=
  let n := Z.of_nat (length l) in
  let first := if (start <? 0)%Z then Z.max 0 (n + start) else Z.min start n in
  drop (Z.to_nat first) l.

(** The dictionaries a caller holds are objects: a heap maps an object
    identity (its index) to the dictionary's current content, and a Python
    list of dictionaries is a list of identities. *)
Abbreviation dict := (gmap string pyval).
Abbreviation heap := (list (gmap string pyval)).

Definition deref (h : heap) (r : nat) : gmap string pyval :=
  default ∅ (h !! r).

(** [n / d] rounded to the nearest integer, ties to even, for [0 <= n]
    and [0 < d]. *)
Definition round_half_even_div (n d : Z) : Z :=
  let q := (n / d)%Z in
  let r := (n mod d)%Z in
  if (2 * r <? d)%Z then q
  else if (d <? 2 * r)%Z then (q + 1)%Z
  else if Z.even q then q else (q + 1)%Z.

(** The decimal digits of [n], at least [width] of them. *)
Definition zero_padded (width : nat) (n : Z) : string :=
  let digits := pretty n in
  Str.replicate (width - String.length digits) "0" +:+ digits.

(** [f"{x:.Nf}"] for a float: the exact binary value, rounded to [N]
    decimals with ties to even. *)
Definition format_fixed (decimals : nat) (x : float) : string :=
  let scale := (10 ^ Z.of_nat decimals)%Z in
  let print (negative : bool) (scaled : Z) : string :=
    (if negative then "-" else EmptyString)
    +:+ pretty (scaled / scale)%Z
    +:+ (if Nat.eqb decimals 0 then EmptyString
         else "." +:+ zero_padded decimals (scaled mod scale)%Z) in
  match Prim2SF x with
  | S754_nan => "nan"
  | S754_infinity negative => if negative then "-inf" else "inf"
  | S754_zero negative => print negative 0%Z
  | S754_finite negative m e =>
      print negative
        (if (0 <=? e)%Z then (Z.pos m * 2 ^ e * scale)%Z
         else round_half_even_div (Z.pos m * scale) (2 ^ (- e)))
  end.

(** [x or default] for a float: zero is false. *)
Definition float_truthy (x : float) : bool := negb (PrimFloat.eqb x 0%float).

(** ** MistralClient ([src/core/llm_client.py]) *)

Record settings_t : Type := {
  mistral_model : string;
  max_tokens : Z;
  temperature : float;
  request_timeout : Z;
  enable_content_filter : bool
}.

(** The JSON body of a request. *)
Record payload : Type := {
  p_model : string;
  p_messages : list (gmap string pyval);
  p_temperature : float;
  p_max_tokens : Z;
  p_safe_prompt : bool
}.

(** What [response.json()] and the reading of its first choice give: an
    exception, no choice, or the content of the first choice with the
    optional [usage] and [model] entries. *)
Inductive json_body : Type :=
| JsonRaises (e : exn) : json_body
| JsonNoChoices : json_body
| JsonChoice (content : pyval) (usage : option (gmap string Z))
    (model : option string) : json_body.

(** What [session.post] does: raise, or return a response. *)
Inductive http_outcome : Type :=
| PostRaises (e : exn) : http_outcome
| Response (status_code : Z) (text : string) (body : json_body) : http_outcome.

(** The dictionary [chat_completion] returns, by the keys its callers
    read. *)
Inductive completion : Type :=
| Success (content : pyval) (usage : gmap string Z) (model : string) : completion
| Failure (error : string) : completion.

Record mistral_client : Type := {
  settings : settings_t;
  content_filter : bool
}.

(** [MistralClient.__init__]: a filter only when the settings enable it. *)
Definition MistralClient_init (s : settings_t) : mistral_client :=
  {| settings := s; content_filter := enable_content_filter s |}.

(** [ContentFilter.is_safe_content] on a value that need not be a
    string: [not content] answers for the values that are false, and a
    value without [strip] raises. *)
Definition is_safe_content_py (content : pyval) : result bool :=
  match content with
  | PStr s => Ok (ContentFilter.is_safe_content s)
  | PNone => Ok true
  | PBool false => Ok true
  | PBool true => Raise (OtherException "'bool' object has no attribute 'strip'")
  end.

(** [ContentFilter.filter_content] likewise: [if not content: return
    content]. *)
Definition filter_content_py (content : pyval) : result pyval :=
  match content with
  | PStr s => Ok (PStr (ContentFilter.filter_content s))
  | PNone => Ok PNone
  | PBool false => Ok (PBool false)
  | PBool true => Raise (OtherException "expected string or bytes-like object")
  end.

Definition _validate_and_filter_content (self : mistral_client) (content : pyval)
    : result pyval :=
  if content_filter self then
    safe ← is_safe_content_py content;
    if negb safe then Raise (ValueError "Content failed safety checks")
    else filter_content_py content
  else Ok content.

(** The loop [for message in messages: if 'content' in message:
    message['content'] = ...].  Each assignment updates the object in
    place; an exception leaves the loop with the updates made so far. *)
Fixpoint validate_messages (self : mistral_client) (messages : list nat) (h : heap)
    : heap * option exn :=
  match messages with
  | [] => (h, None)
  | r :: rest =>
      let message := deref h r in
      match message !! "content" with
      | None => validate_messages self rest h
      | Some content =>
          match _validate_and_filter_content self content with
          | Raise e => (h, Some e)
          | Ok content' =>
              validate_messages self rest (<[r := <["content" := content']> message]> h)
          end
      end
  end.

Definition _prepare_payload (self : mistral_client) (messages : list (gmap string pyval))
    (temperature_arg : option float) (max_tokens_arg : option Z) : payload :=
  {| p_model := mistral_model (settings self);
     p_messages := messages;
     p_temperature :=
       match temperature_arg with
       | Some t => if float_truthy t then t else temperature (settings self)
       | None => temperature (settings self)
       end;
     p_max_tokens :=
       match max_tokens_arg with
       | Some n => if (n =? 0)%Z then max_tokens (settings self) else n
       | None => max_tokens (settings self)
       end;
     p_safe_prompt := true |}.

(** The [except] clauses of [chat_completion], in their order. *)
Definition chat_completion_except (self : mistral_client) (e : exn) : completion :=
  match e with
  | Timeout =>
      Failure ("Request timeout after "
               +:+ pretty (request_timeout (settings self)) +:+ " seconds")
  | RequestException msg => Failure ("Request failed: " +:+ msg)
  | ValueError msg => Failure msg
  | OtherException msg => Failure ("Unexpected error: " +:+ msg)
  end.

(** The part of [chat_completion] under [# Handle response]: what is
    returned, or raised, for a response of the transport. *)
Definition handle_response (self : mistral_client) (outcome : http_outcome)
    : result completion :=
  match outcome with
  | PostRaises e => Raise e
  | Response status_code text body =>
      if (status_code =? 200)%Z then
        match body with
        | JsonRaises e => Raise e
        | JsonChoice content usage model =>
            content ←
              (if content_filter self then filter_content_py content
               else Ok content);
            Ok (Success content
                  (default ∅ usage)
                  (default (mistral_model (settings self)) model))
        | JsonNoChoices => Ok (Failure "Invalid response format")
        end
      else
        Ok (Failure ("API request failed: " +:+ pretty status_code
                     +:+ " - " +:+ text))
  end.

Section Model.

(** The transport: the HTTP session behind [session.post]. *)
Variable post : payload -> http_outcome.

(** The [try] block of [chat_completion]: the heap after the loop, the
    payloads handed to [session.post], and the value returned or the
    exception raised. *)
Definition chat_completion_try (self : mistral_client) (messages : list nat)
    (temperature_arg : option float) (max_tokens_arg : option Z) (h : heap)
    : heap * list payload * result completion :=
  match validate_messages self messages h with
  | (h', Some e) => (h', [], Raise e)
  | (h', None) =>
      let request := _prepare_payload self (List.map (deref h') messages)
                       temperature_arg max_tokens_arg in
      (h', [request], handle_response self (post request))
  end.

Definition chat_completion (self : mistral_client) (messages : list nat)
    (temperature_arg : option float) (max_tokens_arg : option Z) (h : heap)
    : heap * list payload * completion :=
  match chat_completion_try self messages temperature_arg max_tokens_arg h with
  | (h', sent, Ok response) => (h', sent, response)
  | (h', sent, Raise e) => (h', sent, chat_completion_except self e)
  end.

Definition message (role : string) (content : pyval) : gmap string pyval :=
  {[ "role" := PStr role; "content" := content ]}.

(** [ask_question]: the messages are fresh objects. *)
Definition ask_question (self : mistral_client) (question : string)
    (context : option string) : heap * list payload * completion :=
  let system_message : list (gmap string pyval) :=
    match context with
    | Some c =>
        if truthy (PStr c) then [message "system" (PStr ("Context: " +:+ c))] else []
    | None => []
    end in
  let messages := system_message ++ [message "user" (PStr question)] in
  chat_completion self (seq 0 (length messages)) None None messages.

(** ** ChatService ([src/services/chat_service.py]) *)

(** One entry of [conversation_history]. *)
Record exchange : Type := {
  user : string;
  assistant : pyval;
  timestamp : string
}.

Record chat_service : Type := {
  mistral : mistral_client;
  conversation_history : list exchange;
  max_history : Z
}.

(** [ChatService.__init__] *)
Definition ChatService_init (s : settings_t) : chat_service :=
  {| mistral := MistralClient_init s;
     conversation_history := [];
     max_history := 10 |}.

Definition set_history (self : chat_service) (history : list exchange) : chat_service :=
  {| mistral := mistral self;
     conversation_history := history;
     max_history := max_history self |}.

(** [start_conversation] and [clear_conversation], as far as the state
    goes; the second also reports how many exchanges it removed. *)
Definition start_conversation (self : chat_service) : chat_service :=
  set_history self [].

Definition clear_conversation (self : chat_service) : nat * chat_service :=
  let previous_length := length (conversation_history self) in
  (previous_length, set_history self []).

(** The audio features that the system prompt prints, each present or
    not, and the [context_data] dictionary around them. *)
Record features_t : Type := {
  duration : option float;
  tempo : option float;
  spectral_centroid : option float
}.

Record context_data_t : Type := {
  type : option string;
  features : option features_t
}.

(** The text added to the system prompt.  The source writes the quotes of
    these literals with a backslash; they are read as the f-strings they
    stand for, the escaped [n] being a line feed. *)
Definition context_prompt (context_data : option context_data_t) : string :=
  match context_data with
  | Some cd =>
      match type cd, features cd with
      | Some "audio_analysis", Some f =>
          let nl := ContentFilter.nl in
          (nl +:+ nl +:+ "Current audio analysis context:")
          +:+ match duration f with
              | Some d => nl +:+ "Duration: " +:+ format_fixed 2 d +:+ " seconds"
              | None => EmptyString
              end
          +:+ match tempo f with
              | Some t => nl +:+ "Tempo: " +:+ format_fixed 1 t +:+ " BPM"
              | None => EmptyString
              end
          +:+ match spectral_centroid f with
              | Some c => nl +:+ "Spectral Centroid: " +:+ format_fixed 1 c +:+ " Hz"
              | None => EmptyString
              end
      | _, _ => EmptyString
      end
  | None => EmptyString
  end.

(** The loop body of [_build_conversation_context]: two [append]s. *)
Definition append_exchange (messages : list (gmap string pyval)) (e : exchange)
    : list (gmap string pyval) :=
  let messages := messages ++ [message "user" (PStr (user e))] in
  let messages := messages ++ [message "assistant" (assistant e)] in
  messages.

Definition _build_conversation_context (self : chat_service) (user_message : pyval)
    (context_data : option context_data_t) : list (gmap string pyval) :=
  let messages := [] in
  let system_prompt := ContentFilter.get_system_prompt in
  let system_prompt := system_prompt +:+ context_prompt context_data in
  let messages := messages ++ [message "system" (PStr system_prompt)] in
  let messages :=
    fold_left append_exchange (py_slice_from (-5) (conversation_history self)) messages in
  let messages := messages ++ [message "user" user_message] in
  messages.

Definition _update_conversation_history (self : chat_service) (user_message : string)
    (ai_response : pyval) (now : string) : chat_service :=
  let history :=
    conversation_history self
    ++ [ {| user := user_message; assistant := ai_response; timestamp := now |} ] in
  if (max_history self <? Z.of_nat (length history))%Z
  then set_history self (py_slice_from (- max_history self) history)
  else set_history self history.

(** The dictionary [send_message] returns. *)
Inductive reply : Type :=
| Sent (user_message : string) (ai_response : pyval) (model_used : string)
    (usage : gmap string Z) (timestamp : string) (conversation_length : nat) : reply
| NotSent (error : pyval) (user_message : string) (timestamp : string) : reply.

(** [d[key]]: [KeyError] when the key is absent. *)
Definition subscript (d : gmap string pyval) (key : string) : result pyval :=
  match d !! key with
  | Some v => Ok v
  | None => Raise (OtherException key)
  end.

(** The [try] block of [send_message].  [now_recorded] and [now_returned]
    are the readings of the clock for the history entry and for the
    returned dictionary. *)
Definition send_message_try (self : chat_service) (user_message : string)
    (context_data : option context_data_t) (now_recorded now_returned : string)
    : result (reply * chat_service * list payload) :=
  let validation_result := ContentFilter.validate_question user_message in
  is_valid ← subscript validation_result "is_valid";
  if negb (truthy is_valid) then
    reason ← subscript validation_result "reason";
    Ok (NotSent reason user_message now_returned, self, [])
  else
    let processed_message :=
      dict_get validation_result "modified_question" (PStr user_message) in
    let messages := _build_conversation_context self processed_message context_data in
    let '(_, sent, response) :=
      chat_completion (mistral self) (seq 0 (length messages)) None None messages in
    match response with
    | Success content usage model =>
        let self := _update_conversation_history self user_message content now_recorded in
        Ok (Sent user_message content model usage now_returned
              (length (conversation_history self)),
            self, sent)
    | Failure error =>
        Ok (NotSent (PStr error) user_message now_returned, self, sent)
    end.

(** [send_message]: the reply, the service afterwards and the payloads
    handed to the transport.  The [except] clause turns an exception into
    a failed reply; the history is assigned last in the [try] block, so
    the state is then the one before the call. *)
Definition send_message (self : chat_service) (user_message : string)
    (context_data : option context_data_t) (now_recorded now_returned : string)
    : reply * chat_service * list payload :=
  match send_message_try self user_message context_data now_recorded now_returned with
  | Ok r => r
  | Raise e => (NotSent (PStr (exn_str e)) user_message now_returned, self, [])
  end.

End Model.

(** ** The callers of [ask_question] and [send_message] *)

(** [exchange['assistant'][:n]]: a slice of a string; [None] and the
    booleans cannot be sliced. *)
Definition slice_to (n : nat) (v : pyval) : result string :=
  match v with
  | PStr s => Ok (Str.take n s)
  | PNone => Raise (OtherException "'NoneType' object is not subscriptable")
  | PBool _ => Raise (OtherException "'bool' object is not subscriptable")
  end.

(** The loop of [_format_history_for_summary], [i] being the number that
    [enumerate] gives to the first exchange: four lines for each
    exchange. *)
Fixpoint format_exchanges (i : nat) (history : list exchange) : result (list string) :=
  match history with
  | [] => Ok []
  | e :: rest =>
      reply ← slice_to 200 (assistant e);
      formatted ← format_exchanges (S i) rest;
      Ok (("Exchange " +:+ pretty i +:+ ":")
          :: ("User: " +:+ user e)
          :: ("Assistant: " +:+ reply +:+ "...")
          :: EmptyString
          :: formatted)
  end.

(** The dictionary [get_conversation_summary] returns, by its three
    shapes. *)
Inductive summary_reply : Type :=
| NothingToSummarize (message : string) (exchanges : nat) : summary_reply
| Summarized (success : bool) (summary : pyval) (exchanges : nat) (error : pyval)
    : summary_reply
| NotSummarized (error : string) (exchanges : nat) : summary_reply.

(** The literal of [explain_spectrogram], line by line. *)
Definition spectrogram_question : string :=
  String.concat ContentFilter.nl
    [ "Please explain what a spectrogram shows in audio analysis. ";
      ContentFilter.indent8 +:+ "Focus on:";
      ContentFilter.indent8 +:+ "1. What the visual representation means";
      ContentFilter.indent8 +:+ "2. How frequency and time are displayed";
      ContentFilter.indent8 +:+ "3. What different colors/intensities represent";
      ContentFilter.indent8 +:+ "4. How this helps in understanding audio characteristics";
      ContentFilter.indent8;
      ContentFilter.indent8
      +:+ "Keep the explanation clear and accessible while being technically accurate." ].

(** [if key in audio_features: context_parts.append(f"...")] *)
Definition feature_line (audio_features : gmap string float) (key : string)
    (decimals : nat) (before after : string) : list string :=
  match audio_features !! key with
  | Some x => [before +:+ format_fixed decimals x +:+ after]
  | None => []
  end.

(** The context that [explain_spectrogram] builds.  The lines are joined
    by the two characters that the literal ["\\n"] of the source
    denotes, a backslash and the letter n. *)
Definition spectrogram_context (audio_features : option (gmap string float))
    (custom_context : option string) : option string :=
  match audio_features with
  | Some features =>
      if bool_decide (features = ∅) then custom_context
      else
        let context_parts :=
          ["Audio Analysis Context:"]
          ++ feature_line features "duration" 2 "- Duration: " " seconds"
          ++ feature_line features "tempo" 1 "- Tempo: " " BPM"
          ++ feature_line features "spectral_centroid" 1 "- Spectral Centroid: " " Hz"
          ++ feature_line features "rms_energy" 4 "- RMS Energy: " EmptyString in
        let context := String.concat "\n" context_parts in
        match custom_context with
        | Some c =>
            if truthy (PStr c)
            then Some (context +:+ "\n\nAdditional Context: " +:+ c)
            else Some context
        | None => Some context
        end
  | None => custom_context
  end.

Section Callers.

Variable post : payload -> http_outcome.

(** [MistralClient.explain_spectrogram] *)
Definition explain_spectrogram (self : mistral_client)
    (audio_features : option (gmap string float)) (custom_context : option string)
    : heap * list payload * completion :=
  ask_question post self spectrogram_question
    (spectrogram_context audio_features custom_context).

(** [MistralClient.health_check]: the truth value and the payloads handed
    to the transport.  [ask_question] returns a dictionary with the key
    [success] whatever happens, so the [except] clause is not entered. *)
Definition health_check (self : mistral_client) : bool * list payload :=
  let '(_, sent, response) :=
    ask_question post self "Hello, this is a health check. Please respond with 'OK'." None in
  (match response with Success _ _ _ => true | Failure _ => false end, sent).

(** [ChatService.ask_about_audio]; the entry [context_note] of the
    dictionary is read nowhere. *)
Definition ask_about_audio (self : chat_service) (question : string)
    (audio_features : features_t) (now_recorded now_returned : string)
    : reply * chat_service * list payload :=
  let context_data :=
    {| type := Some "audio_analysis"; features := Some audio_features |} in
  send_message post self question (Some context_data) now_recorded now_returned.

(** [ChatService.explain_concept] *)
Definition explain_concept (self : chat_service) (concept : string)
    (now_recorded now_returned : string) : reply * chat_service * list payload :=
  let question := "Please explain the audio analysis concept: " +:+ concept in
  let context_data := {| type := Some "concept_explanation"; features := None |} in
  send_message post self question (Some context_data) now_recorded now_returned.

(** [ChatService._format_history_for_summary]; the lines are joined by
    line feeds. *)
Definition _format_history_for_summary (self : chat_service) : result string :=
  formatted_history ← format_exchanges 1 (conversation_history self);
  Ok (String.concat ContentFilter.nl formatted_history).

(** The f-string of [get_conversation_summary]; its [\\n] are a
    backslash and the letter n each. *)
Definition summary_prompt (history_text : string) : string :=
  "Please provide a brief summary of our conversation about audio analysis. "
  +:+ "Here's our conversation:\n\n" +:+ history_text +:+ "\n\n"
  +:+ "Focus on the key topics discussed and main insights shared.".

(** [ChatService.get_conversation_summary]: the dictionary returned and
    the payloads handed to the transport.  The service is left as it
    is. *)
Definition get_conversation_summary (self : chat_service)
    : summary_reply * list payload :=
  match conversation_history self with
  | [] => (NothingToSummarize "No conversation history available." 0, [])
  | _ :: _ =>
      let exchanges := length (conversation_history self) in
      match _format_history_for_summary self with
      | Raise e => (NotSummarized (exn_str e) exchanges, [])
      | Ok history_text =>
          let '(_, sent, response) :=
            ask_question post (mistral self) (summary_prompt history_text) None in
          (match response with
           | Success content _ _ => Summarized true content exchanges PNone
           | Failure error =>
               Summarized false (PStr "Could not generate summary.") exchanges (PStr error)
           end, sent)
      end
  end.

End Callers.

(** ** Vocabulary of the statements *)

(** A message with its content overwritten by what
    [_validate_and_filter_content] returns for it. *)
Definition validated (self : mistral_client) (m : gmap string pyval) : gmap string pyval :=
  match m !! "content" with
  | Some c =>
      match _validate_and_filter_content self c with
      | Ok c' => <["content" := c']> m
      | Raise _ => m
      end
  | None => m
  end.

(** The transport delivered a first choice with status 200; anything
    else (an exception, another status, a body without choices or one
    that cannot be read) is a failed call. *)
Definition transport_ok (outcome : http_outcome) : bool :=
  match outcome with
  | Response status_code _ (JsonChoice _ _ _) => (status_code =? 200)%Z
  | _ => false
  end.

(** The least number of characters a match of a pattern takes. *)
Fixpoint min_len (r : Re.regex) : nat :=
  match r with
  | Re.Eps => 0
  | Re.Cls _ => 1
  | Re.Rep _ lo _ => lo
  | Re.Cat r1 r2 => min_len r1 + min_len r2
  | Re.Alt r1 r2 => Nat.min (min_len r1) (min_len r2)
  | Re.Bnd => 0
  | Re.NotAhead _ => 0
  end.

(** A character that is not white space, or the space itself. *)
Definition space_or_not_white (c : ascii) : bool :=
  negb (Char.is_space c) || Char.eqb c Char.SPACE.

(** The float comparison and the comparison of integers [10 * u < 3 * w]
    give the same answer for [u] and [w]; checked over ranges. *)
Definition ratio_agrees (u w : Z) : bool :=
  Bool.eqb (float_ratio_below u w) (10 * u <? 3 * w)%Z.

Fixpoint ratio_agrees_from (count : nat) (u w : Z) : bool :=
  match count with
  | O => true
  | S count' => ratio_agrees u w && ratio_agrees_from count' (u + 1)%Z w
  end.

Fixpoint ratio_agrees_upto (count : nat) (w : Z) : bool :=
  match count with
  | O => true
  | S count' =>
      ratio_agrees_from (Z.to_nat w + 1) 0%Z w && ratio_agrees_upto count' (w + 1)%Z
  end.

(** ** What a pattern matches

    The meaning of a pattern, independent of the order in which the
    matcher tries things: [matches r prev s prev' s'] says that [r]
    matches the beginning of [s], the character before being [prev],
    and leaves [s'] with [prev'] before it. *)

(** The character before the position after [w]. *)
Fixpoint last_or (prev : option ascii) (w : string) : option ascii :=
  match w with
  | EmptyString => prev
  | String c w' => last_or (Some c) w'
  end.

Definition within (hi : option nat) (n : nat) : Prop :=
  match hi with
  | Some h => n <= h
  | None => True
  end.

Fixpoint matches (r : Re.regex) (prev : option ascii) (s : string)
    (prev' : option ascii) (s' : string) : Prop :=
  match r with
  | Re.Eps => prev' = prev /\ s' = s
  | Re.Cls p => exists c, s = String c s' /\ p c = true /\ prev' = Some c
  | Re.Rep p lo hi =>
      exists w, s = w +:+ s' /\ Str.forallb p w = true
                /\ lo <= String.length w /\ within hi (String.length w)
                /\ prev' = last_or prev w
  | Re.Cat r1 r2 =>
      exists pm sm, matches r1 prev s pm sm /\ matches r2 pm sm prev' s'
  | Re.Alt r1 r2 => matches r1 prev s prev' s' \/ matches r2 prev s prev' s'
  | Re.Bnd => Re.at_boundary prev s = true /\ prev' = prev /\ s' = s
  | Re.NotAhead r' =>
      (~ exists p'' s'', matches r' prev s p'' s'') /\ prev' = prev /\ s' = s
  end.

(** [r] matches somewhere in [s]: at the position between [pre] and
    [post]. *)
Definition occurs (r : Re.regex) (s : string) : Prop :=
  exists pre post prev' s',
    s = pre +:+ post /\ matches r (last_or None pre) post prev' s'.

(** ** Inappropriate terms, stated without patterns *)

(** The single words and the two-word phrases of
    [inappropriate_patterns]. *)
Definition unsafe_words : list string :=
  ["hate"; "violence"; "harmful"; "illegal"; "dangerous";
   "attack"; "harm"; "hurt"; "kill"; "destroy"; "ssn"].

Definition unsafe_phrases : list (string * string) :=
  [("personal", "information"); ("private", "data"); ("credit", "card")].

(** [u] is one of the words in any mix of cases, or one of the phrases
    with some white space between its two words. *)
Definition unsafe_term (u : string) : Prop :=
  (exists w, In w unsafe_words /\ Str.lower u = w)
  \/ (exists a b u1 ws u2,
        In (a, b) unsafe_phrases /\ u = u1 +:+ ws +:+ u2
        /\ Str.lower u1 = a /\ Str.lower u2 = b
        /\ 1 <= String.length ws /\ Str.forallb Char.is_space ws = true).

(** An inappropriate term stands in [s] as a whole word: no word
    character right before it and none right after it. *)
Definition unsafe_term_at_word_boundary (s : string) : Prop :=
  exists pre u post,
    s = pre +:+ u +:+ post /\ unsafe_term u
    /\ Re.is_word_opt (last_or None pre) = false
    /\ Re.is_word_opt (Re.next_char post) = false.

(** The pattern of a phrase, and the alternatives of the three patterns
    as one list. *)
Definition phrase_pattern (ab : string * string) : Re.regex :=
  Re.cats [Re.lit_i (fst ab); Re.plus Char.is_space; Re.lit_i (snd ab)].

Definition term_patterns : list Re.regex :=
  List.map Re.lit_i unsafe_words ++ List.map phrase_pattern unsafe_phrases.

(** ** Concrete settings, transports and texts of the scenarios *)

(** The defaults of [Settings]. *)
Definition default_settings : settings_t :=
  {| mistral_model := "mistral-small";
     max_tokens := 1000;
     temperature := 0x1.6666666666666p-1%float;
     request_timeout := 30;
     enable_content_filter := true |}.

(** The same with [ENABLE_CONTENT_FILTER] off. *)
Definition unfiltered_settings : settings_t :=
  {| mistral_model := "mistral-small";
     max_tokens := 1000;
     temperature := 0x1.6666666666666p-1%float;
     request_timeout := 30;
     enable_content_filter := false |}.

(** A transport that answers every request with status 200 and one
    choice of the given content. *)
Definition replying (content : string) (request : payload) : http_outcome :=
  Response 200 EmptyString (JsonChoice (PStr content) None None).

(** A transport whose requests time out. *)
Definition timing_out (request : payload) : http_outcome := PostRaises Timeout.

(** The system prompt after [filter_content]. *)
Definition filtered_system_prompt : string :=
  "You are an audio analysis assistant. Your responses should be: "
  +:+ "1. Focused on audio, music, and sound analysis topics "
  +:+ "2. Educational and informative "
  +:+ "3. Professional and appropriate "
  +:+ "4. Clear and accessible to users with varying technical backgrounds "
  +:+ "Avoid discussing unrelated topics and maintain focus on audio analysis.".

Fixpoint repeat_string (n : nat) (s : string) : string :=
  match n with
  | O => EmptyString
  | S n' => s +:+ repeat_string n' s
  end.

(** Two hundred and two characters with the single token [ok]; the
    sanitizer leaves the text as it is. *)
Definition long_acknowledgment : string := "ok" +:+ repeat_string 100 " -".

(** A reply about audio that the safety classifier rejects. *)
Definition unsafe_reply : string :=
  "You can kill the hum in the recording with a notch filter at the mains frequency.".

Definition three_newlines : string :=
  "first" +:+ ContentFilter.nl +:+ ContentFilter.nl +:+ ContentFilter.nl +:+ "second".

(** ** Recording a sequence of exchanges *)

(** One successful turn, as far as the history goes: [x] carries the
    user text, the reply and the clock reading of the call. *)
Definition record (self : chat_service) (x : exchange) : chat_service :=
  _update_conversation_history self (user x) (assistant x) (timestamp x).

Definition record_all (self : chat_service) (xs : list exchange) : chat_service :=
  fold_left record xs self.

(** The last [k] elements of a list. *)
Definition last_n {A : Type} (k : nat) (l : list A) : list A :=
  drop (length l - k) l.

(** The two messages an exchange contributes to a request. *)
Definition exchange_messages (e : exchange) : list (gmap string pyval) :=
  [message "user" (PStr (user e)); message "assistant" (assistant e)].

(** A message with a string as content, from its role and the string. *)
Definition text_message (m : string * string) : gmap string pyval :=
  message (fst m) (PStr (snd m)).

(** What [chat_completion] returns after the call, from what the
    response handling gives. *)
Definition completion_of (self : mistral_client) (handled : result completion) : completion :=
  match handled with
  | Ok response => response
  | Raise e => chat_completion_except self e
  end.

(** The messages [ask_question] builds, as roles and texts: a system
    message when there is a context that is not empty, and the user
    message. *)
Definition question_messages (question : string) (context : option string)
    : list (string * string) :=
  match context with
  | Some (String a c) => [("system", "Context: " +:+ String a c); ("user", question)]
  | _ => [("user", question)]
  end.

(** The question of [explain_spectrogram] after [filter_content]: on one
    line. *)
Definition filtered_spectrogram_question : string :=
  "Please explain what a spectrogram shows in audio analysis. Focus on: "
  +:+ "1. What the visual representation means "
  +:+ "2. How frequency and time are displayed "
  +:+ "3. What different colors/intensities represent "
  +:+ "4. How this helps in understanding audio characteristics "
  +:+ "Keep the explanation clear and accessible while being technically accurate.".

(** The question of [health_check]. *)
Definition health_question : string :=
  "Hello, this is a health check. Please respond with 'OK'.".

(** ** Tokens, stated without patterns *)

(** [t] stands in [s] as a maximal run of word characters: it is not
    empty, no word character stands right before it ([prev] being the
    character before [s]) and none right after it. *)
Definition word_run_at (prev : option ascii) (t s : string) : Prop :=
  exists pre post,
    s = pre +:+ t +:+ post
    /\ 1 <= String.length t
    /\ Str.forallb Char.is_word t = true
    /\ Re.is_word_opt (last_or prev pre) = false
    /\ Re.is_word_opt (Re.next_char post) = false.

Definition maximal_word_run (t s : string) : Prop := word_run_at None t s.

(** The pattern of the tokens, [\b\w+\b]. *)
Definition word_pattern : Re.regex := Re.cats [Re.Bnd; Re.plus Char.is_word; Re.Bnd].

(** ** Runs of characters of one class *)

(** The number of characters of class [p] that [s] starts with. *)
Fixpoint run_length (p : ascii -> bool) (s : string) : nat :=
  match s with
  | EmptyString => 0
  | String c s' => if p c then S (run_length p s') else 0
  end.

(** Every run of characters of class [p] in [s] has fewer than [n]
    characters. *)
Fixpoint runs_below (p : ascii -> bool) (n : nat) (s : string) : bool :=
  match s with
  | EmptyString => true
  | String c s' => (run_length p (String c s') <? n) && runs_below p n s'
  end.

(** ** Sensitive data, stated without patterns *)

(** The characters one of which every match of the three patterns of
    [_remove_sensitive_data] holds: the at sign, a digit, the colon. *)
Definition sensitive_char (c : ascii) : bool :=
  Char.eqb "@" c || Char.is_digit c || Char.eqb ":" c.

(** [n] decimal digits. *)
Definition digits (n : nat) (s : string) : Prop :=
  String.length s = n /\ Str.forallb Char.is_digit s = true.

(** Nothing, a hyphen or a full stop. *)
Definition separator (s : string) : Prop :=
  s = EmptyString \/ s = "-" \/ s = ".".

(** Three digits, three digits and four digits, with or without
    separators between the groups. *)
Definition phone_number (s : string) : Prop :=
  exists a s1 b s2 c,
    s = a +:+ s1 +:+ b +:+ s2 +:+ c
    /\ digits 3 a /\ separator s1 /\ digits 3 b /\ separator s2 /\ digits 4 c.

(** The three character classes of the e-mail pattern. *)
Definition local_char (c : ascii) : bool :=
  ContentFilter.ascii_alnum c || ContentFilter.one_of "._%+-" c.

Definition domain_char (c : ascii) : bool :=
  ContentFilter.ascii_alnum c || ContentFilter.one_of ".-" c.

Definition tld_char (c : ascii) : bool :=
  Char.is_upper c || ContentFilter.one_of "|" c || Char.is_lower c.

Definition ascii_letter (c : ascii) : bool := Char.is_upper c || Char.is_lower c.

(** An address: a local part that starts with a letter, a digit or an
    underscore, an at sign, a domain, a full stop and two letters or
    more. *)
Definition email_address (s : string) : Prop :=
  exists local domain tld,
    s = local +:+ "@" +:+ domain +:+ "." +:+ tld
    /\ Str.forallb local_char local = true
    /\ Re.is_word_opt (Re.next_char local) = true
    /\ 1 <= String.length domain
    /\ Str.forallb domain_char domain = true
    /\ 2 <= String.length tld
    /\ Str.forallb ascii_letter tld = true.

(** The character before an address is none that the local part could
    take, and none is a word character; the character after it is none
    that the domain or the last part could take, and none is a word
    character. *)
Definition no_address_char (c : option ascii) : bool :=
  match c with
  | Some x => negb (local_char x || domain_char x || tld_char x || Char.is_word x)
  | None => true
  end.

(** * Properties *)

(** Appending to a literal is computed by [simpl]. *)
Local Arguments String.append !_ _ / : simpl nomatch.

(** A decidable fact about concrete data, by evaluation. *)
Ltac by_evaluation :=
  match goal with
  | |- ?P => apply (bool_decide_eq_true_1 P); vm_compute; reflexivity
  end.


(** ** Slices *)

Lemma py_slice_from_neg {A : Type} (k : nat) (l : list A) :
  0 < k -> py_slice_from (- Z.of_nat k) l = last_n k l.
Proof.
  intros Hk. unfold py_slice_from, last_n.
  destruct (Z.ltb_spec (- Z.of_nat k) 0) as [_|Hge]; [|lia].
  f_equal. lia.
Qed.

Lemma py_slice_from_zero {A : Type} (l : list A) : py_slice_from 0 l = l.
Proof. unfold py_slice_from. simpl. rewrite Z.min_l by lia. reflexivity. Qed.

Lemma last_n_length {A : Type} (k : nat) (l : list A) :
  length (last_n k l) = Nat.min (length l) k.
Proof. unfold last_n. rewrite length_drop. lia. Qed.

Lemma last_n_all {A : Type} (k : nat) (l : list A) :
  length l <= k -> last_n k l = l.
Proof.
  intros H. unfold last_n. replace (length l - k) with 0 by lia. reflexivity.
Qed.

(** Appending to the retained suffix and cutting again is cutting the
    whole sequence once. *)
Lemma last_n_snoc {A : Type} (k : nat) (l : list A) (x : A) :
  0 < k -> last_n k (last_n k l ++ [x]) = last_n k (l ++ [x]).
Proof.
  intros Hk. unfold last_n.
  rewrite !length_app, length_drop. simpl.
  destruct (Nat.le_gt_cases (length l) k) as [Hle|Hgt].
  - replace (length l - k) with 0 by lia.
    rewrite drop_0, Nat.sub_0_r. reflexivity.
  - rewrite drop_app_le by (rewrite length_drop; lia).
    rewrite drop_drop.
    rewrite (drop_app_le l) by lia.
    do 2 f_equal. lia.
Qed.

(** ** The bounded history *)

Lemma update_history_eq (self : chat_service) (u : string) (a : pyval) (now : string) :
  (0 < max_history self)%Z ->
  conversation_history (_update_conversation_history self u a now)
  = last_n (Z.to_nat (max_history self))
      (conversation_history self ++ [ {| user := u; assistant := a; timestamp := now |} ]).
Proof.
  intros Hpos. unfold _update_conversation_history.
  set (h := conversation_history self ++ _).
  destruct (Z.ltb_spec (max_history self) (Z.of_nat (length h))) as [Hlt|Hge]; simpl.
  - rewrite <- (Z2Nat.id (max_history self)) at 1 by lia.
    apply py_slice_from_neg. lia.
  - symmetry. apply last_n_all. lia.
Qed.

Lemma update_max_history (self : chat_service) (u : string) (a : pyval) (now : string) :
  max_history (_update_conversation_history self u a now) = max_history self.
Proof.
  unfold _update_conversation_history.
  destruct (_ <? _)%Z; reflexivity.
Qed.

Lemma update_mistral (self : chat_service) (u : string) (a : pyval) (now : string) :
  mistral (_update_conversation_history self u a now) = mistral self.
Proof.
  unfold _update_conversation_history.
  destruct (_ <? _)%Z; reflexivity.
Qed.

Lemma record_history (self : chat_service) (x : exchange) :
  (0 < max_history self)%Z ->
  conversation_history (record self x)
  = last_n (Z.to_nat (max_history self)) (conversation_history self ++ [x]).
Proof.
  intros Hpos. unfold record. rewrite update_history_eq by assumption.
  destruct x; reflexivity.
Qed.

Lemma record_all_max_history (xs : list exchange) (self : chat_service) :
  max_history (record_all self xs) = max_history self.
Proof.
  revert self. induction xs as [|x xs IH]; intros self; simpl; [reflexivity|].
  unfold record_all in *. simpl. rewrite IH. apply update_max_history.
Qed.

(** For every positive capacity: what is retained after any sequence of
    recordings is the last [max_history] entries of everything that was
    there or was recorded. *)
Lemma record_all_history (xs : list exchange) (self : chat_service) :
  (0 < max_history self)%Z ->
  length (conversation_history self) <= Z.to_nat (max_history self) ->
  conversation_history (record_all self xs)
  = last_n (Z.to_nat (max_history self)) (conversation_history self ++ xs).
Proof.
  revert self. induction xs as [|x xs IH]; intros self Hpos Hlen.
  - simpl. rewrite app_nil_r. symmetry. apply last_n_all. assumption.
  - unfold record_all in *. simpl.
    assert (Hmh : max_history (record self x) = max_history self)
      by apply update_max_history.
    rewrite IH; rewrite ?Hmh; try assumption.
    + rewrite record_history by assumption.
      set (k := Z.to_nat (max_history self)).
      assert (Hk : 0 < k) by (unfold k; lia).
      clear IH Hmh. revert x. induction xs as [|y ys IHys] using rev_ind; intros x.
      * rewrite app_nil_r. rewrite last_n_all; [reflexivity|].
        rewrite last_n_length. lia.
      * rewrite !app_assoc.
        rewrite <- (last_n_snoc k (_ ++ ys)) by assumption.
        rewrite IHys. rewrite last_n_snoc by assumption.
        rewrite <- !app_assoc. reflexivity.
    + rewrite record_history by assumption. rewrite last_n_length. lia.
Qed.

Lemma record_all_bounded (xs : list exchange) (self : chat_service) :
  (0 < max_history self)%Z ->
  length (conversation_history self) <= Z.to_nat (max_history self) ->
  length (conversation_history (record_all self xs)) <= Z.to_nat (max_history self).
Proof.
  intros Hpos Hlen. rewrite record_all_history by assumption.
  rewrite last_n_length. lia.
Qed.

(** With a capacity of zero, [history[-0:]] is the whole list: nothing is
    ever dropped.  [ChatService.__init__] sets the capacity to 10 and
    nothing in the source assigns it again. *)
Remark update_history_capacity_zero (self : chat_service) (u : string) (a : pyval)
    (now : string) :
  max_history self = 0%Z ->
  conversation_history (_update_conversation_history self u a now)
  = conversation_history self ++ [ {| user := u; assistant := a; timestamp := now |} ].
Proof.
  intros H0. unfold _update_conversation_history. rewrite H0. simpl.
  destruct (_ <? _)%Z; simpl; [apply py_slice_from_zero | reflexivity].
Qed.

Lemma record_all_init_history (s : settings_t) (xs : list exchange) :
  conversation_history (record_all (ChatService_init s) xs) = last_n 10 xs.
Proof. rewrite record_all_history; simpl; try lia. reflexivity. Qed.

(** C4: the history is a first-in first-out ring of capacity
    [max_history] (10): after any sequence of [n] recordings on a new
    service, the history holds exactly the last [min n 10] recorded
    exchanges in the order they were recorded, its length never exceeds
    [max_history], and the eleventh recording drops exactly the first
    exchange. *)
Theorem history_fifo_ring :
  (forall (s : settings_t) (xs : list exchange),
     conversation_history (record_all (ChatService_init s) xs)
     = drop (length xs - Nat.min (length xs) 10) xs
     /\ length (conversation_history (record_all (ChatService_init s) xs))
        = Nat.min (length xs) 10
     /\ (Z.of_nat (length (conversation_history (record_all (ChatService_init s) xs)))
         <= max_history (record_all (ChatService_init s) xs))%Z)
  /\ (forall (s : settings_t) (e1 e2 e3 e4 e5 e6 e7 e8 e9 e10 e11 : exchange),
        conversation_history
          (record_all (ChatService_init s) [e1; e2; e3; e4; e5; e6; e7; e8; e9; e10])
        = [e1; e2; e3; e4; e5; e6; e7; e8; e9; e10]
        /\ conversation_history
             (record_all (ChatService_init s)
                [e1; e2; e3; e4; e5; e6; e7; e8; e9; e10; e11])
           = [e2; e3; e4; e5; e6; e7; e8; e9; e10; e11]).
Proof.
  split.
  - intros s xs. rewrite record_all_max_history, record_all_init_history. simpl.
    rewrite last_n_length. unfold last_n.
    repeat split; try lia. f_equal. lia.
  - intros s e1 e2 e3 e4 e5 e6 e7 e8 e9 e10 e11.
    rewrite !record_all_init_history. split; reflexivity.
Qed.

(** ** The request context *)

Lemma fold_append_exchange (window : list exchange) (messages : list (gmap string pyval)) :
  fold_left append_exchange window messages
  = messages ++ flat_map exchange_messages window.
Proof.
  revert messages. induction window as [|e window IH]; intros messages; simpl.
  - rewrite app_nil_r. reflexivity.
  - rewrite IH. unfold append_exchange, exchange_messages.
    rewrite <- !app_assoc. reflexivity.
Qed.

Lemma flat_map_exchange_length (window : list exchange) :
  length (flat_map exchange_messages window) = 2 * length window.
Proof.
  induction window as [|e window IH]; simpl; [reflexivity|]. rewrite IH. lia.
Qed.

Lemma build_context_eq (self : chat_service) (text : pyval)
    (context_data : option context_data_t) :
  _build_conversation_context self text context_data
  = message "system" (PStr (ContentFilter.system_context +:+ context_prompt context_data))
    :: flat_map exchange_messages (last_n 5 (conversation_history self))
    ++ [message "user" text].
Proof.
  unfold _build_conversation_context.
  rewrite fold_append_exchange.
  change (-5)%Z with (- Z.of_nat 5)%Z.
  rewrite py_slice_from_neg by lia. reflexivity.
Qed.

(** C5: the request is one system message, then the user and assistant
    messages of the last five retained exchanges at most, oldest first,
    then one user message with the current text; with [k] exchanges in
    the history that is [2 * min k 5 + 2] messages, and 12 after eight
    recordings. *)
Theorem build_context_shape :
  (forall (self : chat_service) (text : pyval) (context_data : option context_data_t),
     _build_conversation_context self text context_data
     = message "system"
         (PStr (ContentFilter.system_context +:+ context_prompt context_data))
       :: flat_map exchange_messages
            (drop (length (conversation_history self)
                   - Nat.min (length (conversation_history self)) 5)
               (conversation_history self))
       ++ [message "user" text]
     /\ length (_build_conversation_context self text context_data)
        = 2 * Nat.min (length (conversation_history self)) 5 + 2)
  /\ (forall (s : settings_t) (e1 e2 e3 e4 e5 e6 e7 e8 : exchange) (text : pyval)
        (context_data : option context_data_t),
        _build_conversation_context
          (record_all (ChatService_init s) [e1; e2; e3; e4; e5; e6; e7; e8])
          text context_data
        = message "system"
            (PStr (ContentFilter.system_context +:+ context_prompt context_data))
          :: flat_map exchange_messages [e4; e5; e6; e7; e8]
          ++ [message "user" text]
        /\ length (_build_conversation_context
                     (record_all (ChatService_init s) [e1; e2; e3; e4; e5; e6; e7; e8])
                     text context_data) = 12).
Proof.
  split.
  - intros self text context_data. rewrite build_context_eq. split.
    + unfold last_n.
      replace (length (conversation_history self)
               - Nat.min (length (conversation_history self)) 5)
        with (length (conversation_history self) - 5) by lia.
      reflexivity.
    + simpl. rewrite length_app, flat_map_exchange_length, last_n_length. simpl. lia.
  - intros s e1 e2 e3 e4 e5 e6 e7 e8 text context_data.
    rewrite build_context_eq.
    rewrite record_all_init_history. split; reflexivity.
Qed.

(** ** The matcher *)

Lemma string_length_app (s t : string) :
  String.length (s +:+ t) = String.length s + String.length t.
Proof. induction s as [|c s IH]; simpl; [reflexivity|]. rewrite IH. reflexivity. Qed.

Lemma forallb_app (p : ascii -> bool) (s t : string) :
  Str.forallb p (s +:+ t) = Str.forallb p s && Str.forallb p t.
Proof.
  induction s as [|c s IH]; simpl; [reflexivity|].
  rewrite IH. apply andb_assoc.
Qed.

(** A repetition hands the continuation a suffix of the text that is
    shorter by at least the lower bound. *)
Lemma rep_exec_suffix {A : Type} (p : ascii -> bool) (s : string) :
  forall (lo : nat) (hi : option nat) (prev : option ascii)
         (k : option ascii -> string -> option A) (x : A),
    Re.rep_exec p lo hi prev s k = Some x ->
    exists prev' s', k prev' s' = Some x /\ String.length s' + lo <= String.length s.
Proof.
  induction s as [|c s IH]; intros lo hi prev k x; simpl.
  - destruct lo; simpl; [|discriminate]. intros H. exists prev, EmptyString. auto.
  - assert (Hstop : (if Nat.eqb lo 0 then k prev (String c s) else None) = Some x ->
                    exists prev' s', k prev' s' = Some x
                                     /\ String.length s' + lo <= S (String.length s)).
    { destruct lo; simpl; [|discriminate]. intros H. exists prev, (String c s).
      split; [exact H|simpl; lia]. }
    destruct (p c && Re.may_repeat hi); [|exact Hstop].
    destruct (Re.rep_exec p (Nat.pred lo) (Re.dec_hi hi) (Some c) s k) as [y|] eqn:Hrec;
      [|exact Hstop].
    intros H. injection H as ->.
    destruct (IH _ _ _ _ _ Hrec) as (prev' & s' & Hk & Hlen).
    exists prev', s'. split; [exact Hk|lia].
Qed.

(** With no lower bound left, a repetition fails only if its
    continuation does. *)
Lemma rep_exec_total {A : Type} (p : ascii -> bool) (s : string) :
  forall (hi : option nat) (prev : option ascii)
         (k : option ascii -> string -> option A),
    (forall prev' s', is_Some (k prev' s')) ->
    is_Some (Re.rep_exec p 0 hi prev s k).
Proof.
  induction s as [|c s IH]; intros hi prev k Hk; simpl; [apply Hk|].
  destruct (p c && Re.may_repeat hi); [|apply Hk].
  destruct (Re.rep_exec p 0 (Re.dec_hi hi) (Some c) s k); [eauto|apply Hk].
Qed.

Lemma exec_suffix (r : Re.regex) :
  forall (A : Type) (prev : option ascii) (s : string)
         (k : option ascii -> string -> option A) (x : A),
    Re.exec A r prev s k = Some x ->
    exists prev' s', k prev' s' = Some x
                     /\ String.length s' + min_len r <= String.length s.
Proof.
  induction r as [|p|p lo hi|r1 IH1 r2 IH2|r1 IH1 r2 IH2| |r IH];
    intros A prev s k x; simpl.
  - intros H. exists prev, s. split; [exact H|lia].
  - destruct s as [|c s]; [discriminate|]. destruct (p c); [|discriminate].
    intros H. exists (Some c), s. split; [exact H|simpl; lia].
  - apply rep_exec_suffix.
  - intros H. destruct (IH1 _ _ _ _ _ H) as (p1 & s1 & H1 & L1).
    destruct (IH2 _ _ _ _ _ H1) as (p2 & s2 & H2 & L2).
    exists p2, s2. split; [exact H2|lia].
  - destruct (Re.exec A r1 prev s k) as [y|] eqn:H1.
    + intros H. injection H as ->.
      destruct (IH1 _ _ _ _ _ H1) as (p1 & s1 & Hk & L1).
      exists p1, s1. split; [exact Hk|lia].
    + intros H. destruct (IH2 _ _ _ _ _ H) as (p2 & s2 & Hk & L2).
      exists p2, s2. split; [exact Hk|lia].
  - destruct (Re.at_boundary prev s); [|discriminate].
    intros H. exists prev, s. split; [exact H|lia].
  - destruct (Re.exec unit r prev s _); [discriminate|].
    intros H. exists prev, s. split; [exact H|lia].
Qed.

(** A match is at least as long as the pattern's least length and no
    longer than the text. *)
Lemma match_len_bounds (r : Re.regex) (prev : option ascii) (s : string) (n : nat) :
  Re.match_len r prev s = Some n -> min_len r <= n <= String.length s.
Proof.
  unfold Re.match_len. intros H.
  destruct (exec_suffix r _ _ _ _ _ H) as (prev' & s' & Hk & Hlen).
  injection Hk as <-. lia.
Qed.

(** Every pattern that the source substitutes or collects needs at least
    one character, so no match is empty. *)
Lemma substituted_patterns_not_empty :
  Forall (fun r => 1 <= min_len r)
    [ ContentFilter.email_pattern; ContentFilter.phone_pattern; ContentFilter.url_pattern;
      Re.plus Char.is_space;
      Re.at_least 3 (ContentFilter.one_of "!?");
      Re.at_least 4 (Char.eqb ".");
      Re.at_least 3 (Char.eqb Char.LF);
      Re.cats [Re.Bnd; Re.plus Char.is_word; Re.Bnd] ].
Proof. repeat constructor; vm_compute; lia. Qed.

(** *** Substitution, character by character *)

(** What a substitution puts out is made of the replacement and of
    characters of the text. *)
Lemma sub_from_forallb (q : ascii -> bool) (r : Re.regex) (repl : string) (s : string) :
  Str.forallb q repl = true ->
  Str.forallb q s = true ->
  forall (prev : option ascii) (skip : nat),
    Str.forallb q (Re.sub_from r repl prev skip s) = true.
Proof.
  intros Hrepl. induction s as [|c s IH]; intros Hs prev skip; simpl; [reflexivity|].
  simpl in Hs. apply andb_prop in Hs as [Hc Hs].
  destruct skip as [|n]; [|apply IH; exact Hs].
  destruct (Re.match_len r prev (String c s)) as [[|n]|].
  - simpl. rewrite Hc. apply IH. exact Hs.
  - rewrite forallb_app, Hrepl. apply IH. exact Hs.
  - simpl. rewrite Hc. apply IH. exact Hs.
Qed.

(** A pattern that matches at no position of a text leaves it as it
    is. *)
Lemma sub_from_no_match (r : Re.regex) (repl : string) (q : ascii -> bool) (s : string) :
  (forall prev c s', q c = true -> Re.match_len r prev (String c s') = None) ->
  Str.forallb q s = true ->
  forall prev, Re.sub_from r repl prev 0 s = s.
Proof.
  intros Hno. induction s as [|c s IH]; intros Hs prev; simpl; [reflexivity|].
  simpl in Hs. apply andb_prop in Hs as [Hc Hs].
  rewrite (Hno prev c s Hc). rewrite IH by exact Hs. reflexivity.
Qed.

(** A run of white space always matches where a white-space character
    stands. *)
Lemma white_space_run_matches (prev : option ascii) (c : ascii) (s : string) :
  Char.is_space c = true ->
  exists n, Re.match_len (Re.plus Char.is_space) prev (String c s) = Some (S n).
Proof.
  intros Hc. unfold Re.match_len, Re.plus. cbn [Re.exec].
  set (k := fun (_ : option ascii) (rest : string) =>
              Some (String.length (String c s) - String.length rest)).
  assert (Hstep : Re.rep_exec Char.is_space 1 None prev (String c s) k
                  = Re.rep_exec Char.is_space 0 None (Some c) s k).
  { simpl. rewrite Hc. simpl.
    destruct (rep_exec_total Char.is_space s None (Some c) k) as [x Hx].
    { intros prev' s'. unfold k. eauto. }
    rewrite Hx. reflexivity. }
  rewrite Hstep.
  destruct (rep_exec_total Char.is_space s None (Some c) k) as [x Hx].
  { intros prev' s'. unfold k. eauto. }
  rewrite Hx.
  destruct (rep_exec_suffix _ _ _ _ _ _ _ Hx) as (prev' & s' & Hk & Hlen).
  unfold k in Hk. injection Hk as <-. simpl String.length.
  exists (String.length s - String.length s'). f_equal. lia.
Qed.

(** After the first rule of [_clean_formatting] the only white space
    left is the space. *)
Lemma collapse_white_space (s : string) :
  forall (prev : option ascii) (skip : nat),
    Str.forallb space_or_not_white (Re.sub_from (Re.plus Char.is_space) " " prev skip s)
    = true.
Proof.
  induction s as [|c s IH]; intros prev skip; simpl; [reflexivity|].
  destruct skip as [|n]; [|apply IH].
  destruct (Char.is_space c) eqn:Hc.
  - destruct (white_space_run_matches prev c s Hc) as [n Hn].
    rewrite Hn. simpl. apply IH.
  - assert (Hq : space_or_not_white c = true)
      by (unfold space_or_not_white; rewrite Hc; reflexivity).
    destruct (Re.match_len _ prev (String c s)) as [[|n]|]; simpl;
      rewrite ?Hq; apply IH.
Qed.

Lemma lstrip_forallb (q : ascii -> bool) (s : string) :
  Str.forallb q s = true -> Str.forallb q (Str.lstrip s) = true.
Proof.
  induction s as [|c s IH]; simpl; [reflexivity|].
  intros H. destruct (Char.is_space c); [|exact H].
  apply andb_prop in H as [_ H]. apply IH. exact H.
Qed.

Lemma rstrip_forallb (q : ascii -> bool) (s : string) :
  Str.forallb q s = true -> Str.forallb q (Str.rstrip s) = true.
Proof.
  induction s as [|c s IH]; simpl; [reflexivity|].
  intros H. apply andb_prop in H as [Hc H]. specialize (IH H).
  destruct (Str.rstrip s) as [|c' s'].
  - destruct (Char.is_space c); simpl; [reflexivity|]. rewrite Hc. reflexivity.
  - simpl. rewrite Hc. exact IH.
Qed.

(** A repetition that needs a character fails where the next character
    is not of its class. *)
Lemma rep_exec_head_fails {A : Type} (p : ascii -> bool) (lo : nat) (hi : option nat)
    (prev : option ascii) (c : ascii) (s : string)
    (k : option ascii -> string -> option A) :
  p c = false -> Re.rep_exec p (S lo) hi prev (String c s) k = None.
Proof. intros Hc. simpl. rewrite Hc. reflexivity. Qed.

Lemma newline_run_no_match (prev : option ascii) (c : ascii) (s : string) :
  space_or_not_white c = true ->
  Re.match_len (Re.at_least 3 (Char.eqb Char.LF)) prev (String c s) = None.
Proof.
  intros Hq. unfold Re.match_len, Re.at_least. cbn [Re.exec].
  apply rep_exec_head_fails.
  destruct (Char.eqb Char.LF c) eqn:E; [|reflexivity].
  apply Ascii.eqb_eq in E. subst c. vm_compute in Hq. discriminate.
Qed.

(** The output of [_clean_formatting] has no white space but the space:
    the newline rule, which comes fourth, never finds a newline. *)
Lemma clean_formatting_white_space (content : string) :
  Str.forallb space_or_not_white (ContentFilter._clean_formatting content) = true.
Proof.
  unfold ContentFilter._clean_formatting, Re.sub, Str.strip.
  apply rstrip_forallb, lstrip_forallb.
  rewrite (sub_from_no_match _ _ space_or_not_white);
    [|intros prev c s' Hq; apply newline_run_no_match; exact Hq|].
  - apply sub_from_forallb; [reflexivity|].
    apply sub_from_forallb; [reflexivity|].
    apply collapse_white_space.
  - apply sub_from_forallb; [reflexivity|].
    apply sub_from_forallb; [reflexivity|].
    apply collapse_white_space.
Qed.

Lemma forallb_existsb_false (q p : ascii -> bool) (s : string) :
  (forall c, q c = true -> p c = false) ->
  Str.forallb q s = true -> Str.existsb p s = false.
Proof.
  intros Hqp. induction s as [|c s IH]; simpl; [reflexivity|].
  intros H. apply andb_prop in H as [Hc H].
  rewrite (Hqp c Hc), (IH H). reflexivity.
Qed.

(** The newline rule is applied to a text without newlines: it changes
    nothing, whatever the input of [_clean_formatting] was. *)
Lemma newline_rule_is_idle (content : string) :
  let after_three_rules :=
    Re.sub (Re.at_least 4 (Char.eqb "."%char)) "..."
      (Re.sub (Re.at_least 3 (ContentFilter.one_of "!?")) "!"
         (Re.sub (Re.plus Char.is_space) " " content)) in
  Re.sub (Re.at_least 3 (Char.eqb Char.LF)) (ContentFilter.nl +:+ ContentFilter.nl)
    after_three_rules
  = after_three_rules.
Proof.
  cbv zeta. unfold Re.sub.
  apply (sub_from_no_match _ _ space_or_not_white).
  - intros prev c s' Hq. apply newline_run_no_match. exact Hq.
  - apply sub_from_forallb; [reflexivity|].
    apply sub_from_forallb; [reflexivity|].
    apply collapse_white_space.
Qed.

(** ** The matcher against the meaning of patterns *)

Lemma rep_exec_sound {A : Type} (p : ascii -> bool) (s : string) :
  forall (lo : nat) (hi : option nat) (prev : option ascii)
         (k : option ascii -> string -> option A) (x : A),
    Re.rep_exec p lo hi prev s k = Some x ->
    exists prev' s', matches (Re.Rep p lo hi) prev s prev' s' /\ k prev' s' = Some x.
Proof.
  induction s as [|c s IH]; intros lo hi prev k x.
  - simpl. destruct lo; simpl; [|discriminate]. intros H.
    exists prev, EmptyString. split; [|exact H].
    exists EmptyString. repeat split; simpl; [lia|destruct hi; simpl; lia].
  - assert (Hstop : (if Nat.eqb lo 0 then k prev (String c s) else None) = Some x ->
                    exists prev' s', matches (Re.Rep p lo hi) prev (String c s) prev' s'
                                     /\ k prev' s' = Some x).
    { destruct lo; simpl; [|discriminate]. intros H.
      exists prev, (String c s). split; [|exact H].
      exists EmptyString. repeat split; simpl; [lia|destruct hi; simpl; lia]. }
    simpl Re.rep_exec.
    destruct (p c) eqn:Hc; [|exact Hstop].
    destruct (Re.may_repeat hi) eqn:Hhi; [|exact Hstop]. simpl andb. cbv iota.
    destruct (Re.rep_exec p (Nat.pred lo) (Re.dec_hi hi) (Some c) s k) as [y|] eqn:Hrec;
      [|exact Hstop].
    intros H. injection H as ->.
    destruct (IH _ _ _ _ _ Hrec) as (prev' & s' & (w & -> & Hw & Hlo & Hwithin & ->) & Hk).
    exists (last_or (Some c) w), s'. split; [|exact Hk].
    exists (String c w). simpl. rewrite Hc, Hw. repeat split; [lia|].
    destruct hi as [[|h]|]; simpl in *; [discriminate|lia|exact I].
Qed.

Lemma rep_exec_complete {A : Type} (p : ascii -> bool) (s : string) :
  forall (lo : nat) (hi : option nat) (prev : option ascii)
         (k : option ascii -> string -> option A),
    Re.rep_exec p lo hi prev s k = None ->
    forall prev' s', matches (Re.Rep p lo hi) prev s prev' s' -> k prev' s' = None.
Proof.
  induction s as [|c s IH]; intros lo hi prev k Hnone prev' s'
    (w & Hs & Hw & Hlo & Hwithin & ->).
  - destruct w as [|c' w]; [|discriminate]. simpl in Hs. subst s'.
    simpl in Hlo. replace lo with 0 in Hnone by lia. exact Hnone.
  - assert (Hstop : (if Nat.eqb lo 0 then k prev (String c s) else None) = None ->
                    w = EmptyString -> k (last_or prev w) s' = None).
    { intros H ->. simpl in *. subst s'. replace lo with 0 in H by lia. exact H. }
    simpl Re.rep_exec in Hnone.
    destruct w as [|c' w]; [apply Hstop; [|reflexivity]|].
    + destruct (p c && Re.may_repeat hi); [|exact Hnone].
      destruct (Re.rep_exec p _ _ _ s k); [discriminate|exact Hnone].
    + simpl in Hs. injection Hs as <- ->. simpl in Hw, Hlo.
      apply andb_prop in Hw as [Hc Hw]. rewrite Hc in Hnone.
      assert (Hhi : Re.may_repeat hi = true).
      { destruct hi as [[|h]|]; simpl in *; [lia|reflexivity|reflexivity]. }
      rewrite Hhi in Hnone. simpl andb in Hnone. cbv iota in Hnone.
      destruct (Re.rep_exec p (Nat.pred lo) (Re.dec_hi hi) (Some c) (w +:+ s') k)
        eqn:Hrec; [discriminate|].
      simpl last_or. apply (IH _ _ _ _ Hrec).
      exists w. repeat split; [exact Hw|lia|].
      destruct hi as [[|h]|]; simpl in *; [lia|lia|exact I].
Qed.

(** The matcher finds an answer exactly when some match has one: what
    [exec] returns comes from a match, and when it returns nothing the
    continuation rejects every match. *)
Theorem exec_spec (r : Re.regex) :
  forall (A : Type) (prev : option ascii) (s : string)
         (k : option ascii -> string -> option A),
    (forall x, Re.exec A r prev s k = Some x ->
               exists prev' s', matches r prev s prev' s' /\ k prev' s' = Some x)
    /\ (Re.exec A r prev s k = None ->
        forall prev' s', matches r prev s prev' s' -> k prev' s' = None).
Proof.
  induction r as [|p|p lo hi|r1 IH1 r2 IH2|r1 IH1 r2 IH2| |r IH];
    intros A prev s k; simpl Re.exec.
  - split.
    + intros x H. exists prev, s. simpl. auto.
    + intros H prev' s' [-> ->]. exact H.
  - split.
    + intros x H. destruct s as [|c s]; [discriminate|].
      destruct (p c) eqn:Hc; [|discriminate].
      exists (Some c), s. split; [|exact H]. exists c. auto.
    + intros H prev' s' (c & -> & Hc & ->). rewrite Hc in H. exact H.
  - split.
    + intros x. apply rep_exec_sound.
    + apply rep_exec_complete.
  - split.
    + intros x H.
      destruct (proj1 (IH1 _ _ _ _) _ H) as (pm & sm & H1 & Hk).
      destruct (proj1 (IH2 _ _ _ _) _ Hk) as (prev' & s' & H2 & Hk').
      exists prev', s'. split; [|exact Hk']. exists pm, sm. auto.
    + intros H prev' s' (pm & sm & H1 & H2).
      pose proof (proj2 (IH1 _ _ _ _) H pm sm H1) as Hk.
      exact (proj2 (IH2 _ _ _ _) Hk prev' s' H2).
  - split.
    + intros x H. destruct (Re.exec A r1 prev s k) as [y|] eqn:E1.
      * injection H as ->.
        destruct (proj1 (IH1 _ _ _ _) _ E1) as (prev' & s' & H1 & Hk).
        exists prev', s'. split; [left; exact H1|exact Hk].
      * destruct (proj1 (IH2 _ _ _ _) _ H) as (prev' & s' & H2 & Hk).
        exists prev', s'. split; [right; exact H2|exact Hk].
    + intros H prev' s' [H1|H2].
      * destruct (Re.exec A r1 prev s k) eqn:E1; [discriminate|].
        exact (proj2 (IH1 _ _ _ _) E1 prev' s' H1).
      * destruct (Re.exec A r1 prev s k) eqn:E1; [discriminate|].
        exact (proj2 (IH2 _ _ _ _) H prev' s' H2).
  - split.
    + intros x H. destruct (Re.at_boundary prev s) eqn:Hb; [|discriminate].
      exists prev, s. simpl. auto.
    + intros H prev' s' (Hb & -> & ->). rewrite Hb in H. exact H.
  - split.
    + intros x H.
      destruct (Re.exec unit r prev s (fun _ _ => Some tt)) eqn:E; [discriminate|].
      exists prev, s. split; [|exact H]. split; [|auto].
      intros (p'' & s'' & Hm). pose proof (proj2 (IH _ _ _ _) E p'' s'' Hm). discriminate.
    + intros H prev' s' (Hno & -> & ->).
      destruct (Re.exec unit r prev s (fun _ _ => Some tt)) as [[]|] eqn:E; [|exact H].
      exfalso. apply Hno.
      destruct (proj1 (IH _ _ _ _) _ E) as (p'' & s'' & Hm & _). eauto.
Qed.

(** A match of the matcher exists exactly when the pattern matches. *)
Lemma match_len_spec (r : Re.regex) (prev : option ascii) (s : string) :
  is_Some (Re.match_len r prev s) <-> exists prev' s', matches r prev s prev' s'.
Proof.
  unfold Re.match_len. split.
  - intros [n Hn]. destruct (proj1 (exec_spec r _ prev s _) n Hn) as (prev' & s' & Hm & _).
    eauto.
  - intros (prev' & s' & Hm).
    destruct (Re.exec nat r prev s _) as [n|] eqn:E; [eauto|].
    pose proof (proj2 (exec_spec r _ prev s _) E prev' s' Hm). discriminate.
Qed.

Lemma last_or_app (prev : option ascii) (u v : string) :
  last_or prev (u +:+ v) = last_or (last_or prev u) v.
Proof. revert prev. induction u as [|c u IH]; intros prev; simpl; [reflexivity|apply IH]. Qed.

Lemma search_from_spec (r : Re.regex) (s : string) :
  forall prev,
    Re.search_from r prev s = true
    <-> exists pre post prev' s',
          s = pre +:+ post /\ matches r (last_or prev pre) post prev' s'.
Proof.
  induction s as [|c s IH]; intros prev; simpl Re.search_from.
  - destruct (Re.match_len r prev EmptyString) as [n|] eqn:E.
    + split; [intros _|reflexivity].
      destruct (proj1 (match_len_spec r prev EmptyString)) as (prev' & s' & Hm); [eauto|].
      exists EmptyString, EmptyString, prev', s'. auto.
    + split; [discriminate|]. intros (pre & post & prev' & s' & Hs & Hm).
      destruct pre; [|discriminate]. simpl in Hs. subst post. simpl in Hm.
      assert (Hsome : is_Some (Re.match_len r prev EmptyString))
        by (apply match_len_spec; eauto).
      rewrite E in Hsome. destruct Hsome. discriminate.
  - destruct (Re.match_len r prev (String c s)) as [n|] eqn:E.
    + split; [intros _|reflexivity].
      destruct (proj1 (match_len_spec r prev (String c s))) as (prev' & s' & Hm); [eauto|].
      exists EmptyString, (String c s), prev', s'. auto.
    + rewrite IH. split.
      * intros (pre & post & prev' & s' & -> & Hm).
        exists (String c pre), post, prev', s'. auto.
      * intros (pre & post & prev' & s' & Hs & Hm).
        destruct pre as [|c' pre].
        -- simpl in Hs, Hm. subst post.
           assert (Hsome : is_Some (Re.match_len r prev (String c s)))
             by (apply match_len_spec; eauto).
           rewrite E in Hsome. destruct Hsome. discriminate.
        -- simpl in Hs. injection Hs as <- ->. simpl in Hm.
           exists pre, post, prev', s'. auto.
Qed.

(** [re.search] succeeds exactly when the pattern occurs in the text. *)
Theorem search_spec (r : Re.regex) (s : string) :
  Re.search r s = true <-> occurs r s.
Proof. unfold Re.search, occurs. apply search_from_spec. Qed.

(** ** The inappropriate patterns, read as words at boundaries *)

Lemma append_assoc (u v w : string) : (u +:+ v) +:+ w = u +:+ v +:+ w.
Proof. induction u as [|c u IH]; simpl; [reflexivity|]. rewrite IH. reflexivity. Qed.

Lemma lower_app (u v : string) : Str.lower (u +:+ v) = Str.lower u +:+ Str.lower v.
Proof.
  unfold Str.lower. induction u as [|c u IH]; simpl; [reflexivity|].
  rewrite IH. reflexivity.
Qed.

Lemma matches_lit_i (w : string) :
  forall (prev : option ascii) (s : string) (prev' : option ascii) (s' : string),
    matches (Re.lit_i w) prev s prev' s'
    <-> exists u, s = u +:+ s' /\ Str.lower u = Str.lower w /\ prev' = last_or prev u.
Proof.
  induction w as [|c w IH]; intros prev s prev' s'.
  - simpl. split.
    + intros [-> ->]. exists EmptyString. auto.
    + intros (u & -> & Hu & ->). destruct u; [auto|discriminate].
  - assert (Hone : forall prev s prev' s',
              matches (Re.chr_i c) prev s prev' s'
              <-> exists x, s = String x s' /\ Char.lower x = Char.lower c
                            /\ prev' = Some x).
    { intros p0 s0 p1 s1. simpl. split.
      - intros (x & -> & Hx & ->). exists x. apply Ascii.eqb_eq in Hx. auto.
      - intros (x & -> & Hx & ->). exists x. repeat split.
        unfold Char.eqb. apply Ascii.eqb_eq. exact Hx. }
    destruct w as [|c' w'].
    + change (Re.lit_i (String c EmptyString)) with (Re.chr_i c). rewrite Hone. split.
      * intros (x & -> & Hx & ->). exists (String x EmptyString). simpl.
        unfold Str.lower. simpl. rewrite Hx. auto.
      * intros (u & -> & Hu & ->). destruct u as [|x [|y u]]; try discriminate.
        unfold Str.lower in Hu. simpl in Hu. injection Hu as Hx.
        exists x. auto.
    + change (Re.lit_i (String c (String c' w')))
        with (Re.Cat (Re.chr_i c) (Re.lit_i (String c' w'))).
      cbn [matches]. split.
      * intros (pm & sm & H1 & H2). apply Hone in H1 as (x & -> & Hx & ->).
        apply IH in H2 as (u & -> & Hu & ->).
        exists (String x u). simpl. repeat split.
        unfold Str.lower in *. simpl. rewrite Hx, Hu. reflexivity.
      * intros (u & -> & Hu & ->). destruct u as [|x u]; [discriminate|].
        unfold Str.lower in Hu. simpl in Hu. injection Hu as Hx Hu.
        exists (Some x), (u +:+ s'). split.
        -- apply Hone. exists x. auto.
        -- apply IH. exists u. auto.
Qed.

Lemma matches_alts (rs : list Re.regex) (prev : option ascii) (s : string)
    (prev' : option ascii) (s' : string) :
  matches (Re.alts rs) prev s prev' s' <-> exists r, In r rs /\ matches r prev s prev' s'.
Proof.
  induction rs as [|r rs IH].
  - simpl. split.
    + intros (Hno & _). exfalso. apply Hno. exists prev, s. auto.
    + intros (r & [] & _).
  - destruct rs as [|r' rs'].
    + simpl. split; [intros H; exists r; auto|intros (r0 & [<-|[]] & H); exact H].
    + change (Re.alts (r :: r' :: rs')) with (Re.Alt r (Re.alts (r' :: rs'))).
      cbn [matches]. rewrite IH. split.
      * intros [H|(r0 & Hin & H)]; [exists r; simpl; auto|exists r0; simpl; auto].
      * intros (r0 & [<-|Hin] & H); [left; exact H|right; exists r0; auto].
Qed.

Lemma matches_word_alternatives (rs : list Re.regex) (prev : option ascii) (s : string)
    (prev' : option ascii) (s' : string) :
  matches (ContentFilter.word_alternatives rs) prev s prev' s'
  <-> Re.at_boundary prev s = true
      /\ (exists r, In r rs /\ matches r prev s prev' s')
      /\ Re.at_boundary prev' s' = true.
Proof.
  unfold ContentFilter.word_alternatives.
  change (Re.cats [Re.Bnd; Re.alts rs; Re.Bnd])
    with (Re.Cat Re.Bnd (Re.Cat (Re.alts rs) Re.Bnd)).
  cbn [matches]. split.
  - intros (pm & sm & (Hb & -> & ->) & pm' & sm' & Ha & Hb' & -> & ->).
    apply matches_alts in Ha. auto.
  - intros (Hb & Ha & Hb'). apply matches_alts in Ha.
    exists prev, s. split; [auto|]. exists prev', s'. auto.
Qed.

(** Two words with white space between them. *)
Lemma matches_phrase (a b : string) (prev : option ascii) (s : string)
    (prev' : option ascii) (s' : string) :
  matches (Re.cats [Re.lit_i a; Re.plus Char.is_space; Re.lit_i b]) prev s prev' s'
  <-> exists u1 ws u2,
        s = (u1 +:+ ws +:+ u2) +:+ s'
        /\ Str.lower u1 = Str.lower a /\ Str.lower u2 = Str.lower b
        /\ 1 <= String.length ws /\ Str.forallb Char.is_space ws = true
        /\ prev' = last_or prev (u1 +:+ ws +:+ u2).
Proof.
  change (Re.cats [Re.lit_i a; Re.plus Char.is_space; Re.lit_i b])
    with (Re.Cat (Re.lit_i a) (Re.Cat (Re.Rep Char.is_space 1 None) (Re.lit_i b))).
  cbn [matches]. split.
  - intros (p1 & s1 & Ha & p2 & s2 & (ws & -> & Hws & Hlen & _ & ->) & Hb).
    apply matches_lit_i in Ha as (u1 & -> & Hu1 & ->).
    apply matches_lit_i in Hb as (u2 & -> & Hu2 & ->).
    exists u1, ws, u2. rewrite !append_assoc, !last_or_app. auto 10.
  - intros (u1 & ws & u2 & -> & Hu1 & Hu2 & Hlen & Hws & ->).
    rewrite !append_assoc, !last_or_app.
    exists (last_or prev u1), (ws +:+ u2 +:+ s'). split.
    + apply matches_lit_i. exists u1. auto.
    + exists (last_or (last_or prev u1) ws), (u2 +:+ s'). split.
      * exists ws. simpl. auto.
      * apply matches_lit_i. exists u2. auto.
Qed.

(** A character that is lowered to an ASCII lower-case letter is a word
    character. *)
Lemma lowered_letter_is_word (x : ascii) :
  Char.is_lower (Char.lower x) = true -> Char.is_word x = true.
Proof.
  destruct x as [[] [] [] [] [] [] [] []]; vm_compute; intros H; congruence.
Qed.

Lemma lowered_word_chars (u : string) :
  Str.forallb Char.is_lower (Str.lower u) = true -> Str.forallb Char.is_word u = true.
Proof.
  unfold Str.lower. induction u as [|x u IH]; simpl; [reflexivity|].
  intros H. apply andb_prop in H as [Hx H].
  rewrite (lowered_letter_is_word x Hx), (IH H). reflexivity.
Qed.

Lemma lower_length (u : string) : String.length (Str.lower u) = String.length u.
Proof. unfold Str.lower. induction u as [|x u IH]; simpl; [reflexivity|]. rewrite IH. reflexivity. Qed.

Lemma last_or_word (u : string) (prev : option ascii) :
  Str.forallb Char.is_word u = true -> 1 <= String.length u ->
  Re.is_word_opt (last_or prev u) = true.
Proof.
  revert prev. induction u as [|x u IH]; intros prev Hw Hlen; simpl in *; [lia|].
  apply andb_prop in Hw as [Hx Hw].
  destruct u as [|y u]; [simpl; exact Hx|].
  apply IH; [exact Hw|simpl; lia].
Qed.

Lemma first_word (u v : string) :
  Str.forallb Char.is_word u = true -> 1 <= String.length u ->
  Re.is_word_opt (Re.next_char (u +:+ v)) = true.
Proof.
  destruct u as [|x u]; simpl; [lia|]. intros H _.
  apply andb_prop in H as [Hx _]. exact Hx.
Qed.

(** The words and phrases are written in lower-case letters. *)
Lemma unsafe_words_lower :
  Forall (fun w => Str.lower w = w /\ Str.forallb Char.is_lower w = true
                   /\ 1 <= String.length w) unsafe_words.
Proof. repeat constructor. Qed.

Lemma unsafe_phrases_lower :
  Forall (fun ab =>
            (Str.lower (fst ab) = fst ab /\ Str.forallb Char.is_lower (fst ab) = true
             /\ 1 <= String.length (fst ab))
            /\ (Str.lower (snd ab) = snd ab /\ Str.forallb Char.is_lower (snd ab) = true
                /\ 1 <= String.length (snd ab))) unsafe_phrases.
Proof. repeat constructor. Qed.

(** An inappropriate term begins and ends with a word character. *)
Lemma unsafe_term_edges (u : string) :
  unsafe_term u ->
  (forall v, Re.is_word_opt (Re.next_char (u +:+ v)) = true)
  /\ (forall prev, Re.is_word_opt (last_or prev u) = true).
Proof.
  intros [(w & Hin & Hu)|(a & b & u1 & ws & u2 & Hin & -> & Hu1 & Hu2 & Hlen & Hws)].
  - pose proof (proj1 (Forall_forall _ _) unsafe_words_lower w
                  (proj2 (list_elem_of_In _ _) Hin)) as (_ & Hlow & Hlen).
    rewrite <- Hu in Hlow, Hlen. rewrite lower_length in Hlen.
    apply lowered_word_chars in Hlow. split.
    + intros v. apply first_word; assumption.
    + intros prev. apply last_or_word; assumption.
  - pose proof (proj1 (Forall_forall _ _) unsafe_phrases_lower (a, b)
                  (proj2 (list_elem_of_In _ _) Hin)) as ((_ & Hla & Hna) & (_ & Hlb & Hnb)).
    simpl in *. rewrite <- Hu1 in Hla, Hna. rewrite <- Hu2 in Hlb, Hnb.
    rewrite lower_length in Hna, Hnb.
    apply lowered_word_chars in Hla, Hlb. split.
    + intros v. rewrite append_assoc. apply first_word; assumption.
    + intros prev. rewrite !last_or_app. apply last_or_word; assumption.
Qed.

(** The alternatives of the three patterns match exactly the
    inappropriate terms. *)
Lemma term_patterns_spec (prev : option ascii) (s : string) (prev' : option ascii)
    (s' : string) :
  (exists r, In r term_patterns /\ matches r prev s prev' s')
  <-> exists u, s = u +:+ s' /\ unsafe_term u /\ prev' = last_or prev u.
Proof.
  unfold term_patterns. split.
  - intros (r & Hin & Hm). apply in_app_or in Hin as [Hin|Hin];
      apply in_map_iff in Hin as (x & <- & Hx).
    + apply matches_lit_i in Hm as (u & -> & Hu & ->).
      pose proof (proj1 (Forall_forall _ _) unsafe_words_lower x
                    (proj2 (list_elem_of_In _ _) Hx)) as (Hlow & _).
      exists u. repeat split. left. exists x. split; [exact Hx|congruence].
    + destruct x as [a b]. apply matches_phrase in Hm
        as (u1 & ws & u2 & -> & Hu1 & Hu2 & Hlen & Hws & ->).
      pose proof (proj1 (Forall_forall _ _) unsafe_phrases_lower (a, b)
                    (proj2 (list_elem_of_In _ _) Hx)) as ((Hla & _) & (Hlb & _)).
      cbn [fst snd] in *. exists (u1 +:+ ws +:+ u2). repeat split.
      right. exists a, b, u1, ws, u2. repeat split; try assumption; congruence.
  - intros (u & -> & [(w & Hin & Hu)|(a & b & u1 & ws & u2 & Hin & -> & Hu1 & Hu2 & Hlen & Hws)]
            & ->).
    + pose proof (proj1 (Forall_forall _ _) unsafe_words_lower w
                    (proj2 (list_elem_of_In _ _) Hin)) as (Hlow & _).
      exists (Re.lit_i w). split.
      * apply in_or_app. left. apply in_map. exact Hin.
      * apply matches_lit_i. exists u. repeat split. congruence.
    + pose proof (proj1 (Forall_forall _ _) unsafe_phrases_lower (a, b)
                    (proj2 (list_elem_of_In _ _) Hin)) as ((Hla & _) & (Hlb & _)).
      cbn [fst snd] in *. exists (phrase_pattern (a, b)). split.
      * apply in_or_app. right. apply (in_map phrase_pattern). exact Hin.
      * apply matches_phrase. exists u1, ws, u2. cbn [fst snd].
        repeat split; try assumption; congruence.
Qed.

(** The three compiled patterns are the alternatives of [term_patterns]
    between two word boundaries. *)
(** Membership in a list that is written out. *)
Ltac in_list := solve [repeat first [left; reflexivity | right]].

Lemma compiled_patterns_spec (prev : option ascii) (s : string) (prev' : option ascii)
    (s' : string) :
  (exists pattern, In pattern ContentFilter.compiled_patterns
                   /\ matches pattern prev s prev' s')
  <-> Re.at_boundary prev s = true
      /\ (exists r, In r term_patterns /\ matches r prev s prev' s')
      /\ Re.at_boundary prev' s' = true.
Proof.
  split.
  - intros (pattern & Hin & Hm).
    destruct Hin as [<-|[<-|[<-|[]]]];
      apply matches_word_alternatives in Hm as (Hb & (r & Hr & Hm) & Hb');
      (split; [exact Hb|split; [|exact Hb']]); exists r; (split; [|exact Hm]);
      cbn [In] in Hr; unfold term_patterns, unsafe_words, unsafe_phrases;
      cbn [List.map app In];
      repeat (destruct Hr as [<-|Hr]; [in_list|]); destruct Hr.
  - intros (Hb & (r & Hr & Hm) & Hb').
    unfold term_patterns, unsafe_words, unsafe_phrases in Hr. cbn [List.map app In] in Hr.
    assert (Hwa : forall rs, In (ContentFilter.word_alternatives rs)
                               ContentFilter.compiled_patterns ->
                             In r rs ->
                             exists pattern, In pattern ContentFilter.compiled_patterns
                                             /\ matches pattern prev s prev' s').
    { intros rs Hp Hrs. exists (ContentFilter.word_alternatives rs).
      split; [exact Hp|]. apply matches_word_alternatives. eauto. }
    repeat (destruct Hr as [<-|Hr];
            [first [ eapply Hwa; [left; reflexivity|cbn [In]; in_list]
                   | eapply Hwa; [right; left; reflexivity|cbn [In]; in_list]
                   | eapply Hwa; [right; right; left; reflexivity|cbn [In]; in_list] ]|]).
    destruct Hr.
Qed.

(** [inappropriate] answers whether an inappropriate term stands in the
    text as a whole word. *)
Theorem inappropriate_spec (s : string) :
  ContentFilter.inappropriate s = true <-> unsafe_term_at_word_boundary s.
Proof.
  unfold ContentFilter.inappropriate, unsafe_term_at_word_boundary.
  rewrite existsb_exists. split.
  - intros (pattern & Hin & Hs). apply search_spec in Hs
      as (pre & post & prev' & s' & -> & Hm).
    destruct (proj1 (compiled_patterns_spec (last_or None pre) post prev' s'))
      as (Hb & Hr & Hb'); [eauto|].
    apply term_patterns_spec in Hr as (u & -> & Hu & ->).
    destruct (unsafe_term_edges u Hu) as (Hfirst & Hlast).
    exists pre, u, s'. repeat split; [exact Hu| |].
    + unfold Re.at_boundary in Hb. rewrite Hfirst in Hb.
      destruct (Re.is_word_opt (last_or None pre)); [discriminate|reflexivity].
    + unfold Re.at_boundary in Hb'. rewrite Hlast in Hb'.
      destruct (Re.is_word_opt (Re.next_char s')); [discriminate|reflexivity].
  - intros (pre & u & post & -> & Hu & Hbefore & Hafter).
    destruct (unsafe_term_edges u Hu) as (Hfirst & Hlast).
    destruct (proj2 (compiled_patterns_spec (last_or None pre) (u +:+ post)
                       (last_or (last_or None pre) u) post))
      as (pattern & Hin & Hm).
    { split; [|split].
      - unfold Re.at_boundary. rewrite Hfirst, Hbefore. reflexivity.
      - apply term_patterns_spec. exists u. auto.
      - unfold Re.at_boundary. rewrite Hlast, Hafter. reflexivity. }
    exists pattern. split; [exact Hin|].
    apply search_spec. exists pre, (u +:+ post), (last_or (last_or None pre) u), post. auto.
Qed.

(** ** The URL rule *)

Lemma exec_lit_prefix (d : string) :
  forall (prev : option ascii) (s : string),
    Re.exec unit (Re.lit d) prev s (fun _ _ => Some tt)
    = if Str.has_prefix d s then Some tt else None.
Proof.
  induction d as [|c d IH]; intros prev s; [reflexivity|].
  destruct d as [|c' d'].
  - simpl. destruct s as [|x s]; [reflexivity|].
    unfold Char.eqb. destruct (Ascii.eqb c x); reflexivity.
  - change (Re.lit (String c (String c' d')))
      with (Re.Cat (Re.chr c) (Re.lit (String c' d'))).
    cbn [Re.exec Re.chr]. destruct s as [|x s]; [reflexivity|].
    cbn [Str.has_prefix]. destruct (Char.eqb c x); [|reflexivity].
    rewrite IH. reflexivity.
Qed.

Lemma exec_alts_lits (ds : list string) (prev : option ascii) (s : string) :
  Re.exec unit (Re.alts (List.map Re.lit ds)) prev s (fun _ _ => Some tt)
  = if List.existsb (fun d => Str.has_prefix d s) ds then Some tt else None.
Proof.
  induction ds as [|d ds IH]; [reflexivity|].
  destruct ds as [|d' ds'].
  - simpl List.map. cbn [Re.alts List.existsb]. rewrite exec_lit_prefix, orb_false_r.
    reflexivity.
  - change (Re.alts (List.map Re.lit (d :: d' :: ds')))
      with (Re.Alt (Re.lit d) (Re.alts (List.map Re.lit (d' :: ds')))).
    cbn [Re.exec]. rewrite exec_lit_prefix, IH.
    cbn [List.existsb]. destruct (Str.has_prefix d s); reflexivity.
Qed.

(** The scheme and [://] are read in one way only. *)
Lemma exec_scheme {A : Type} (x y : Re.regex) (prev : option ascii) (rest : string)
    (k : option ascii -> string -> option A) :
  Re.exec A (Re.cats [Re.lit "http"; Re.opt (Char.eqb "s"); Re.lit "://"; x; y])
    prev ("https://" +:+ rest) k
  = Re.exec A (Re.Cat x y) (Some "/"%char) rest k
  /\ Re.exec A (Re.cats [Re.lit "http"; Re.opt (Char.eqb "s"); Re.lit "://"; x; y])
       prev ("http://" +:+ rest) k
     = Re.exec A (Re.Cat x y) (Some "/"%char) rest k.
Proof.
  split.
  - simpl. change (EmptyString +:+ rest) with rest.
    destruct (Re.exec A x _ _ _); reflexivity.
  - simpl. reflexivity.
Qed.

(** One or more characters of a class match where one stands, and the
    match goes on to the continuation from a later position. *)
Lemma plus_matches {A : Type} (p : ascii -> bool) (prev : option ascii) (c : ascii)
    (s : string) (k : option ascii -> string -> option A) :
  p c = true ->
  (forall prev' s', is_Some (k prev' s')) ->
  exists prev' s',
    Re.rep_exec p 1 None prev (String c s) k = k prev' s'
    /\ String.length s' <= String.length s.
Proof.
  intros Hc Hk.
  destruct (rep_exec_total p s None (Some c) k Hk) as [x Hx].
  assert (Hstep : Re.rep_exec p 1 None prev (String c s) k = Some x).
  { simpl. rewrite Hc. simpl. rewrite Hx. reflexivity. }
  destruct (rep_exec_suffix _ _ _ _ _ _ _ Hx) as (prev' & s' & Hk' & Hlen).
  exists prev', s'. split; [congruence|lia].
Qed.

(** The URL pattern matches at [http://] or [https://] exactly when the
    text that follows begins with none of the four names (and with a
    character that is not white space): the names are compared with the
    beginning of the rest of the URL, not with its host. *)
Lemma url_pattern_spec (prev : option ascii) (rest : string) :
  (List.existsb (fun d => Str.has_prefix d rest) ContentFilter.safe_domains = true ->
     Re.match_len ContentFilter.url_pattern prev ("https://" +:+ rest) = None
     /\ Re.match_len ContentFilter.url_pattern prev ("http://" +:+ rest) = None)
  /\ (List.existsb (fun d => Str.has_prefix d rest) ContentFilter.safe_domains = false ->
      forall c rest', rest = String c rest' -> Char.is_space c = false ->
        (exists n, Re.match_len ContentFilter.url_pattern prev ("https://" +:+ rest)
                   = Some (S n))
        /\ (exists n, Re.match_len ContentFilter.url_pattern prev ("http://" +:+ rest)
                      = Some (S n))).
Proof.
  unfold Re.match_len, ContentFilter.url_pattern.
  set (k1 := fun (_ : option ascii) (r : string) =>
               Some (String.length ("https://" +:+ rest) - String.length r)).
  set (k2 := fun (_ : option ascii) (r : string) =>
               Some (String.length ("http://" +:+ rest) - String.length r)).
  destruct (exec_scheme (Re.NotAhead (Re.alts (List.map Re.lit ContentFilter.safe_domains)))
              (Re.plus (fun c => negb (Char.is_space c))) prev rest k1) as [-> _].
  destruct (exec_scheme (Re.NotAhead (Re.alts (List.map Re.lit ContentFilter.safe_domains)))
              (Re.plus (fun c => negb (Char.is_space c))) prev rest k2) as [_ ->].
  cbn [Re.exec]. rewrite exec_alts_lits.
  split.
  - intros ->. split; reflexivity.
  - intros -> c rest' -> Hc. unfold Re.plus. cbn [Re.exec].
    assert (Hp : negb (Char.is_space c) = true) by (rewrite Hc; reflexivity).
    split.
    + destruct (plus_matches (fun c => negb (Char.is_space c)) (Some "/"%char) c rest' k1 Hp)
        as (prev' & s' & -> & Hlen); [intros; unfold k1; eauto|].
      unfold k1. rewrite string_length_app. simpl String.length.
      exists (8 + String.length rest' - String.length s'). f_equal. lia.
    + destruct (plus_matches (fun c => negb (Char.is_space c)) (Some "/"%char) c rest' k2 Hp)
        as (prev' & s' & -> & Hlen); [intros; unfold k2; eauto|].
      unfold k2. rewrite string_length_app. simpl String.length.
      exists (7 + String.length rest' - String.length s'). f_equal. lia.
Qed.

(** ** The client *)

Lemma chat_completion_except_failure (self : mistral_client) (e : exn) :
  exists err, chat_completion_except self e = Failure err.
Proof. destruct e; simpl; eauto. Qed.

Lemma handle_response_success (self : mistral_client) (outcome : http_outcome)
    (content : pyval) (usage : gmap string Z) (model : string) :
  handle_response self outcome = Ok (Success content usage model) ->
  transport_ok outcome = true.
Proof.
  destruct outcome as [e|code text body]; simpl; [discriminate|].
  destruct (code =? 200)%Z; [|discriminate].
  destruct body; simpl; try discriminate. reflexivity.
Qed.

Lemma handle_response_not_ok (self : mistral_client) (outcome : http_outcome) :
  transport_ok outcome = false ->
  (exists e, handle_response self outcome = Raise e)
  \/ (exists err, handle_response self outcome = Ok (Failure err)).
Proof.
  destruct outcome as [e|code text body]; simpl; [eauto|].
  destruct (code =? 200)%Z; [|eauto].
  destruct body; simpl; eauto. discriminate.
Qed.

Section ClientFacts.

Variable post : payload -> http_outcome.

(** What [chat_completion] gives, by the outcome of the loop over the
    messages. *)
Lemma chat_completion_eq (self : mistral_client) (messages : list nat)
    (t : option float) (m : option Z) (h : heap) :
  chat_completion post self messages t m h
  = match validate_messages self messages h with
    | (h', Some e) => (h', [], chat_completion_except self e)
    | (h', None) =>
        let request := _prepare_payload self (List.map (deref h') messages) t m in
        (h', [request],
         match handle_response self (post request) with
         | Ok response => response
         | Raise e => chat_completion_except self e
         end)
    end.
Proof.
  unfold chat_completion, chat_completion_try.
  destruct (validate_messages self messages h) as [h' [e|]]; [reflexivity|].
  simpl. destruct (handle_response _ _); reflexivity.
Qed.

(** A successful completion made exactly one call, and that call was
    answered with a first choice. *)
Lemma chat_completion_success (self : mistral_client) (messages : list nat)
    (t : option float) (m : option Z) (h h' : heap) (sent : list payload)
    (content : pyval) (usage : gmap string Z) (model : string) :
  chat_completion post self messages t m h = (h', sent, Success content usage model) ->
  exists request, sent = [request] /\ transport_ok (post request) = true.
Proof.
  rewrite chat_completion_eq.
  destruct (validate_messages self messages h) as [h1 [e|]].
  - destruct (chat_completion_except_failure self e) as [err ->]. discriminate.
  - simpl. intros H. injection H as <- <- H. eexists. split; [reflexivity|].
    destruct (handle_response self _) as [response|e] eqn:Hr.
    + subst response. eapply handle_response_success. exact Hr.
    + destruct (chat_completion_except_failure self e) as [err Herr].
      rewrite Herr in H. discriminate.
Qed.

(** At most one call, and a failed call gives a failure. *)
Lemma chat_completion_transport_failed (self : mistral_client) (messages : list nat)
    (t : option float) (m : option Z) (h h' : heap) (sent : list payload)
    (response : completion) (request : payload) :
  chat_completion post self messages t m h = (h', sent, response) ->
  In request sent -> transport_ok (post request) = false ->
  exists err, response = Failure err.
Proof.
  rewrite chat_completion_eq.
  destruct (validate_messages self messages h) as [h1 [e|]].
  - intros H. injection H as <- <- <-. intros [].
  - simpl. intros H. injection H as <- <- <-. intros [<-|[]] Hfail.
    destruct (handle_response_not_ok self _ Hfail) as [[e ->]|[err ->]].
    + apply chat_completion_except_failure.
    + eauto.
Qed.

End ClientFacts.

(** ** Validation of a question *)

Lemma validate_question_is_valid (question : string) :
  subscript (ContentFilter.validate_question question) "is_valid"
  = Ok (PBool (ContentFilter.is_safe_content question)).
Proof.
  unfold ContentFilter.validate_question.
  destruct (ContentFilter.is_safe_content question); simpl; [|reflexivity].
  destruct (ContentFilter._is_on_topic _); reflexivity.
Qed.

Lemma validate_question_reason_unsafe (question : string) :
  ContentFilter.is_safe_content question = false ->
  subscript (ContentFilter.validate_question question) "reason"
  = Ok (PStr "Question contains inappropriate content").
Proof.
  intros H. unfold ContentFilter.validate_question. rewrite H. reflexivity.
Qed.

(** ** The turn *)

Section TurnFacts.

Variable post : payload -> http_outcome.

(** [send_message] by cases: a rejected question, a failed completion, a
    successful one. *)
Lemma send_message_eq (self : chat_service) (text : string)
    (context_data : option context_data_t) (t1 t2 : string) :
  send_message post self text context_data t1 t2
  = if ContentFilter.is_safe_content text then
      let processed :=
        dict_get (ContentFilter.validate_question text) "modified_question" (PStr text) in
      let messages := _build_conversation_context self processed context_data in
      let '(_, sent, response) :=
        chat_completion post (mistral self) (seq 0 (length messages)) None None messages in
      match response with
      | Success content usage model =>
          (Sent text content model usage t2
             (length (conversation_history
                        (_update_conversation_history self text content t1))),
           _update_conversation_history self text content t1, sent)
      | Failure error => (NotSent (PStr error) text t2, self, sent)
      end
    else (NotSent (PStr "Question contains inappropriate content") text t2, self, []).
Proof.
  unfold send_message, send_message_try.
  rewrite validate_question_is_valid. simpl.
  destruct (ContentFilter.is_safe_content text) eqn:Hsafe; simpl.
  - destruct (chat_completion _ _ _ _ _ _) as [[h' sent] [content usage model|error]];
      reflexivity.
  - rewrite validate_question_reason_unsafe by assumption. reflexivity.
Qed.

(** C3: a turn is all or nothing for the conversation.  A question that
    fails validation gives a failed reply with the reason, no call of the
    transport and the same service; a failed call of the transport gives
    a failed reply and the same service; every failed reply leaves the
    service as it was; and a successful reply comes from exactly one
    answered call and records exactly the exchange of this turn. *)
Theorem send_message_atomic (self : chat_service) (text : string)
    (context_data : option context_data_t) (t1 t2 : string) :
  let '(r, self', sent) := send_message post self text context_data t1 t2 in
  (ContentFilter.is_safe_content text = false ->
     r = NotSent (PStr "Question contains inappropriate content") text t2
     /\ sent = [] /\ self' = self)
  /\ (forall request, In request sent -> transport_ok (post request) = false ->
        (exists err, r = NotSent (PStr err) text t2) /\ self' = self)
  /\ (forall err u t, r = NotSent err u t -> self' = self)
  /\ (forall u content model usage t n, r = Sent u content model usage t n ->
        ContentFilter.is_safe_content text = true
        /\ (exists request, sent = [request] /\ transport_ok (post request) = true)
        /\ self' = _update_conversation_history self text content t1
        /\ n = length (conversation_history self')
        /\ ((Z.of_nat (length (conversation_history self)) < max_history self)%Z ->
            conversation_history self'
            = conversation_history self
              ++ [ {| user := text; assistant := content; timestamp := t1 |} ])).
Proof.
  rewrite send_message_eq.
  destruct (ContentFilter.is_safe_content text) eqn:Hsafe.
  - cbv zeta.
    destruct (chat_completion _ _ _ _ _ _) as [[h' sent] response] eqn:Hc.
    destruct response as [content usage model|error].
    + split; [discriminate|]. split; [|split; [discriminate|]].
      * intros request Hin Hfail.
        destruct (chat_completion_transport_failed _ _ _ _ _ _ _ _ _ _ Hc Hin Hfail)
          as [err Herr]. discriminate.
      * intros u c mo us t n H. injection H as _ <- _ _ _ <-.
        split; [reflexivity|]. split.
        { eapply chat_completion_success. exact Hc. }
        split; [reflexivity|]. split; [reflexivity|].
        intros Hroom. unfold _update_conversation_history.
        destruct (Z.ltb_spec (max_history self)
                    (Z.of_nat (length (conversation_history self ++
                       [ {| user := text; assistant := content; timestamp := t1 |} ]))))
          as [Hlt|Hge]; simpl; [|reflexivity].
        rewrite length_app in Hlt. simpl in Hlt. lia.
    + split; [discriminate|]. split; [|split; [reflexivity|discriminate]].
      intros request Hin Hfail. split; [eauto|reflexivity].
  - split; [auto|]. split; [intros request []|]. split; [reflexivity|discriminate].
Qed.

End TurnFacts.

(** ** In-place validation of the messages *)

Lemma deref_insert_ne (h : heap) (r0 r : nat) (m : gmap string pyval) :
  r0 <> r -> deref (<[r0 := m]> h) r = deref h r.
Proof. intros Hne. unfold deref. rewrite list_lookup_insert_ne by assumption. reflexivity. Qed.

Lemma deref_insert_eq (h : heap) (r : nat) (m : gmap string pyval) :
  r < length h -> deref (<[r := m]> h) r = m.
Proof. intros Hlt. unfold deref. rewrite list_lookup_insert_eq by assumption. reflexivity. Qed.

(** Only an object of the heap has keys. *)
Lemma deref_key_lt (h : heap) (r : nat) (key : string) (v : pyval) :
  deref h r !! key = Some v -> r < length h.
Proof.
  unfold deref. intros H. apply lookup_lt_is_Some.
  destruct (h !! r) as [m|]; [eauto|].
  simpl in H. rewrite lookup_empty in H. discriminate.
Qed.

Lemma validated_no_content (self : mistral_client) (m : gmap string pyval) :
  m !! "content" = None -> validated self m = m.
Proof. intros H. unfold validated. rewrite H. reflexivity. Qed.

Lemma validated_safe_string (self : mistral_client) (m : gmap string pyval) (s : string) :
  content_filter self = true ->
  m !! "content" = Some (PStr s) ->
  ContentFilter.is_safe_content s = true ->
  validated self m = <["content" := PStr (ContentFilter.filter_content s)]> m.
Proof.
  intros Hcf Hm Hsafe. unfold validated, _validate_and_filter_content.
  rewrite Hm, Hcf. simpl. rewrite Hsafe. reflexivity.
Qed.

Lemma validate_unsafe_raises (self : mistral_client) (s : string) :
  content_filter self = true ->
  ContentFilter.is_safe_content s = false ->
  _validate_and_filter_content self (PStr s)
  = Raise (ValueError "Content failed safety checks").
Proof.
  intros Hcf Hsafe. unfold _validate_and_filter_content.
  rewrite Hcf. simpl. rewrite Hsafe. reflexivity.
Qed.

(** The loop stops with an exception as soon as one message fails the
    safety check, whichever messages come before it. *)
Lemma validate_messages_unsafe (self : mistral_client) (messages : list nat) :
  forall (h : heap) (r : nat) (s : string),
    In r messages ->
    deref h r !! "content" = Some (PStr s) ->
    content_filter self = true ->
    ContentFilter.is_safe_content s = false ->
    exists e, snd (validate_messages self messages h) = Some e.
Proof.
  induction messages as [|r0 rest IH]; intros h r s Hin Hc Hcf Hsafe; [destruct Hin|].
  simpl. destruct (Nat.eq_dec r0 r) as [->|Hne].
  - rewrite Hc, (validate_unsafe_raises self s Hcf Hsafe). simpl. eauto.
  - destruct Hin as [Heq|Hin]; [contradiction|].
    destruct (deref h r0 !! "content") as [c0|] eqn:Hc0; [|eauto].
    destruct (_validate_and_filter_content self c0) as [c0'|e]; [|simpl; eauto].
    apply (IH _ r s Hin); try assumption.
    rewrite deref_insert_ne by assumption. exact Hc.
Qed.

(** When every message passes, the loop overwrites each of them once and
    touches nothing else. *)
Lemma validate_messages_pass (self : mistral_client) (messages : list nat) :
  forall (h : heap),
    NoDup messages ->
    (forall r c, In r messages -> deref h r !! "content" = Some c ->
                 exists c', _validate_and_filter_content self c = Ok c') ->
    exists h',
      validate_messages self messages h = (h', None)
      /\ (forall r, In r messages -> deref h' r = validated self (deref h r))
      /\ (forall r, ~ In r messages -> h' !! r = h !! r).
Proof.
  induction messages as [|r0 rest IH]; intros h Hnd Hpass.
  - exists h. simpl. repeat split; intros r []; reflexivity.
  - apply NoDup_cons in Hnd as [Hr0 Hnd]. rewrite list_elem_of_In in Hr0.
    simpl. destruct (deref h r0 !! "content") as [c0|] eqn:Hc0.
    + destruct (Hpass r0 c0 (or_introl eq_refl) Hc0) as [c0' Hv]. rewrite Hv.
      set (h1 := <[r0 := <["content" := c0']> (deref h r0)]> h).
      destruct (IH h1 Hnd) as (h' & Hrun & Hin & Hout).
      { intros r c Hr Hc. apply (Hpass r c (or_intror Hr)).
        unfold h1 in Hc. rewrite deref_insert_ne in Hc; [exact Hc|].
        intros ->. contradiction. }
      exists h'. split; [exact Hrun|]. split.
      * intros r [<-|Hr].
        -- unfold deref at 1. rewrite (Hout r0 Hr0). fold (deref h1 r0).
           unfold h1. rewrite deref_insert_eq by (eapply deref_key_lt; exact Hc0).
           unfold validated. rewrite Hc0, Hv. reflexivity.
        -- rewrite (Hin r Hr). unfold h1. rewrite deref_insert_ne; [reflexivity|].
           intros ->. contradiction.
      * intros r Hr. rewrite Hout by (intros Hr'; apply Hr; right; exact Hr').
        unfold h1. apply list_lookup_insert_ne. intros ->. apply Hr. left. reflexivity.
    + destruct (IH h Hnd) as (h' & Hrun & Hin & Hout).
      { intros r c Hr Hc. apply (Hpass r c (or_intror Hr) Hc). }
      exists h'. split; [exact Hrun|]. split.
      * intros r [<-|Hr]; [|exact (Hin r Hr)].
        unfold deref at 1. rewrite (Hout r0 Hr0). fold (deref h r0).
        symmetry. apply validated_no_content. exact Hc0.
      * intros r Hr. apply Hout. intros Hr'. apply Hr. right. exact Hr'.
Qed.

Section InPlace.

Variable post : payload -> http_outcome.

(** C10: [chat_completion] works on the caller's message objects.  When
    every message passes, each object of the list has its content
    overwritten with the checked and filtered version (for a safe string
    under an enabled filter: [filter_content] of it), nothing else in the
    heap changes, and the request that is sent carries the overwritten
    messages.  When some message of the list, whichever it is, fails the
    safety classifier of the client, nothing is sent and the completion
    is a failure. *)
Theorem chat_completion_filters_in_place (self : mistral_client) (messages : list nat)
    (t : option float) (m : option Z) (h : heap) :
  let '(h', sent, response) := chat_completion post self messages t m h in
  (NoDup messages ->
   (forall r c, In r messages -> deref h r !! "content" = Some c ->
                exists c', _validate_and_filter_content self c = Ok c') ->
   (forall r, In r messages -> deref h' r = validated self (deref h r))
   /\ (forall r, ~ In r messages -> h' !! r = h !! r)
   /\ sent = [_prepare_payload self
                (List.map (fun r => validated self (deref h r)) messages) t m])
  /\ (forall r s, In r messages -> deref h r !! "content" = Some (PStr s) ->
        content_filter self = true -> ContentFilter.is_safe_content s = false ->
        sent = [] /\ exists err, response = Failure err)
  /\ (forall message s, content_filter self = true ->
        message !! "content" = Some (PStr s) ->
        ContentFilter.is_safe_content s = true ->
        validated self message
        = <["content" := PStr (ContentFilter.filter_content s)]> message).
Proof.
  rewrite chat_completion_eq.
  destruct (validate_messages self messages h) as [h1 oe] eqn:Hrun.
  assert (Hfilter : forall message s, content_filter self = true ->
            message !! "content" = Some (PStr s) ->
            ContentFilter.is_safe_content s = true ->
            validated self message
            = <["content" := PStr (ContentFilter.filter_content s)]> message)
    by (intros; apply validated_safe_string; assumption).
  destruct oe as [e|].
  - split; [|split; [|exact Hfilter]].
    + intros Hnd Hpass.
      destruct (validate_messages_pass self messages h Hnd Hpass) as (h' & Hrun' & _).
      rewrite Hrun in Hrun'. discriminate.
    + intros r s Hin Hc Hcf Hsafe. split; [reflexivity|].
      apply chat_completion_except_failure.
  - cbv zeta. split; [|split; [|exact Hfilter]].
    + intros Hnd Hpass.
      destruct (validate_messages_pass self messages h Hnd Hpass)
        as (h' & Hrun' & Hin & Hout).
      rewrite Hrun in Hrun'. injection Hrun' as <-.
      split; [exact Hin|]. split; [exact Hout|].
      do 2 f_equal. apply map_ext_in. intros r Hr. apply Hin. exact Hr.
    + intros r s Hin Hc Hcf Hsafe.
      destruct (validate_messages_unsafe self messages h r s Hin Hc Hcf Hsafe) as [e He].
      rewrite Hrun in He. discriminate.
Qed.

End InPlace.

(** A client built from settings that disable the content filter has no
    classifier: every content is written back as it is and sent. *)
Remark unfiltered_client_sends_unchecked :
  let '(h', sent, response) :=
    chat_completion (replying "ok") (MistralClient_init unfiltered_settings) [0] None None
      [message "user" (PStr "I want to kill the process")] in
  h' = [message "user" (PStr "I want to kill the process")]
  /\ List.map p_messages sent = [[message "user" (PStr "I want to kill the process")]]
  /\ response = Success (PStr "ok") ∅ "mistral-small".
Proof. vm_compute. repeat split; reflexivity. Qed.

(** ** What reaches the transport, and what comes back *)

(** The loop, read from its result: when it ends without exception,
    every message object of the list was overwritten once. *)
Lemma validate_messages_done (self : mistral_client) (messages : list nat) :
  forall (h h' : heap),
    NoDup messages ->
    validate_messages self messages h = (h', None) ->
    (forall r, In r messages -> deref h' r = validated self (deref h r))
    /\ (forall r, ~ In r messages -> h' !! r = h !! r).
Proof.
  induction messages as [|r0 rest IH]; intros h h' Hnd Hrun.
  - simpl in Hrun. injection Hrun as <-. split; [intros r []|reflexivity].
  - apply NoDup_cons in Hnd as [Hr0 Hnd]. rewrite list_elem_of_In in Hr0.
    simpl in Hrun. destruct (deref h r0 !! "content") as [c0|] eqn:Hc0.
    + destruct (_validate_and_filter_content self c0) as [c0'|e] eqn:Hv; [|discriminate].
      destruct (IH _ _ Hnd Hrun) as (Hin & Hout). split.
      * intros r [<-|Hr].
        -- unfold deref at 1. rewrite (Hout r0 Hr0).
           fold (deref (<[r0 := <["content" := c0']> (deref h r0)]> h) r0).
           rewrite deref_insert_eq by (eapply deref_key_lt; exact Hc0).
           unfold validated. rewrite Hc0, Hv. reflexivity.
        -- rewrite (Hin r Hr). rewrite deref_insert_ne; [reflexivity|].
           intros ->. contradiction.
      * intros r Hr. rewrite Hout by (intros Hr'; apply Hr; right; exact Hr').
        apply list_lookup_insert_ne. intros ->. apply Hr. left. reflexivity.
    + destruct (IH _ _ Hnd Hrun) as (Hin & Hout). split.
      * intros r [<-|Hr]; [|exact (Hin r Hr)].
        unfold deref at 1. rewrite (Hout r0 Hr0). fold (deref h r0).
        symmetry. apply validated_no_content. exact Hc0.
      * intros r Hr. apply Hout. intros Hr'. apply Hr. right. exact Hr'.
Qed.

(** A user message without text goes through the loop as it is, with or
    without content filter. *)
Lemma validated_user_None (self : mistral_client) :
  validated self (message "user" PNone) = message "user" PNone.
Proof.
  unfold validated, _validate_and_filter_content.
  destruct (content_filter self); reflexivity.
Qed.

Lemma validate_question_unmodified (question : string) :
  ContentFilter.is_safe_content question = true ->
  ContentFilter.filter_content question = question ->
  ContentFilter._is_on_topic question = true ->
  ContentFilter.validate_question question !! "modified_question" = Some PNone.
Proof.
  intros Hsafe Hsame Htopic. unfold ContentFilter.validate_question.
  rewrite Hsafe, Hsame, Htopic. simpl.
  rewrite bool_decide_eq_true_2 by reflexivity. reflexivity.
Qed.

Section Forwarded.

Variable post : payload -> http_outcome.

(** Whenever validation leaves [modified_question] at [None], the user
    message of the request has the content [None]: the text of the user
    is not forwarded. *)
Lemma unmodified_question_is_forwarded_as_None (self : chat_service) (text : string)
    (context_data : option context_data_t) (t1 t2 : string) :
  ContentFilter.is_safe_content text = true ->
  ContentFilter.validate_question text !! "modified_question" = Some PNone ->
  let '(_, _, sent) := send_message post self text context_data t1 t2 in
  forall request, In request sent ->
    last (p_messages request) = Some (message "user" PNone).
Proof.
  intros Hsafe Hnone. rewrite send_message_eq, Hsafe. cbv zeta.
  unfold dict_get. rewrite Hnone.
  rewrite build_context_eq.
  set (body := message "system"
                 (PStr (ContentFilter.system_context +:+ context_prompt context_data))
               :: flat_map exchange_messages (last_n 5 (conversation_history self))).
  change (message "system"
            (PStr (ContentFilter.system_context +:+ context_prompt context_data))
          :: flat_map exchange_messages (last_n 5 (conversation_history self))
          ++ [message "user" PNone])
    with (body ++ [message "user" PNone]).
  rewrite chat_completion_eq.
  destruct (validate_messages _ _ _) as [h' [e|]] eqn:Hrun.
  - destruct (chat_completion_except _ e); intros request [].
  - cbv zeta.
    assert (Hlast : last (List.map (deref h')
                            (seq 0 (length (body ++ [message "user" PNone]))))
                    = Some (message "user" PNone)).
    { destruct (validate_messages_done _ _ _ _ (NoDup_seq 0 _) Hrun) as (Hin & _).
      rewrite length_app in *. cbn [length] in *. rewrite Nat.add_1_r in *.
      rewrite seq_S, map_app. cbn [List.map Nat.add].
      rewrite last_snoc. f_equal.
      rewrite Hin by (apply in_seq; lia).
      unfold deref. rewrite list_lookup_middle by reflexivity. cbn [default].
      apply validated_user_None. }
    destruct (handle_response _ _) as [[content usage model|error]|e];
      [| |destruct (chat_completion_except _ e)];
      intros request [<-|[]]; exact Hlast.
Qed.

(** Whatever a reply says, a client with content filter returns it as a
    success after [filter_content]; the safety classifier is not asked. *)
Lemma response_is_only_filtered (self : mistral_client) (messages : list nat)
    (t : option float) (m : option Z) (h h' : heap) (text raw : string)
    (usage : option (gmap string Z)) (model : option string) :
  content_filter self = true ->
  validate_messages self messages h = (h', None) ->
  post (_prepare_payload self (List.map (deref h') messages) t m)
  = Response 200 text (JsonChoice (PStr raw) usage model) ->
  snd (chat_completion post self messages t m h)
  = Success (PStr (ContentFilter.filter_content raw)) (default ∅ usage)
      (default (mistral_model (settings self)) model).
Proof.
  intros Hcf Hrun Hpost. rewrite chat_completion_eq, Hrun. cbv zeta.
  rewrite Hpost. simpl. rewrite Hcf. reflexivity.
Qed.

End Forwarded.

(** ** The safety classifier *)

Lemma lstrip_all_space (s : string) :
  Str.forallb Char.is_space s = true -> Str.lstrip s = EmptyString.
Proof.
  induction s as [|c s IH]; simpl; [reflexivity|].
  destruct (Char.is_space c); simpl; [exact IH|discriminate].
Qed.

Lemma lstrip_some_char (s : string) :
  Str.forallb Char.is_space s = false ->
  exists c s', Str.lstrip s = String c s' /\ Char.is_space c = false.
Proof.
  induction s as [|c s IH]; simpl; [discriminate|].
  destruct (Char.is_space c) eqn:Hc; simpl; [exact IH|eauto].
Qed.

Lemma rstrip_keeps_head (c : ascii) (s : string) :
  Char.is_space c = false -> Str.rstrip (String c s) <> EmptyString.
Proof.
  intros Hc. simpl. destruct (Str.rstrip s); [rewrite Hc|]; discriminate.
Qed.

(** The test [not content or not content.strip()] holds exactly for the
    texts made of white space only, the empty text among them. *)
Lemma is_blank_spec (content : string) :
  ContentFilter.is_blank content = Str.forallb Char.is_space content.
Proof.
  unfold ContentFilter.is_blank, Str.strip.
  destruct content as [|c s]; [reflexivity|].
  destruct (Str.forallb Char.is_space (String c s)) eqn:Hall.
  - rewrite lstrip_all_space by assumption. reflexivity.
  - destruct (lstrip_some_char _ Hall) as (c' & s' & -> & Hc').
    pose proof (rstrip_keeps_head c' s' Hc') as Hne.
    destruct (Str.rstrip (String c' s')); [contradiction|reflexivity].
Qed.

Lemma ratio_agrees_from_spec (count : nat) :
  forall (u w : Z),
    ratio_agrees_from count u w = true ->
    forall k, (0 <= k < Z.of_nat count)%Z -> ratio_agrees (u + k) w = true.
Proof.
  induction count as [|count IH]; intros u w H k Hk; [lia|].
  simpl in H. apply andb_prop in H as [H0 H].
  destruct (Z.eq_dec k 0%Z) as [->|Hne]; [rewrite Z.add_0_r; exact H0|].
  replace (u + k)%Z with ((u + 1) + (k - 1))%Z by lia.
  apply IH; [exact H|lia].
Qed.

Lemma ratio_agrees_upto_spec (count : nat) :
  forall (w : Z),
    (0 <= w)%Z ->
    ratio_agrees_upto count w = true ->
    forall j u, (0 <= j < Z.of_nat count)%Z -> (0 <= u <= w + j)%Z ->
                ratio_agrees u (w + j) = true.
Proof.
  induction count as [|count IH]; intros w Hw H j u Hj Hu; [lia|].
  simpl in H. apply andb_prop in H as [H0 H].
  destruct (Z.eq_dec j 0%Z) as [->|Hne].
  - rewrite Z.add_0_r in *.
    replace u with (0 + u)%Z by lia.
    apply (ratio_agrees_from_spec _ _ _ H0). lia.
  - replace (w + j)%Z with ((w + 1) + (j - 1))%Z in * by lia.
    apply IH; [lia|exact H|lia|lia].
Qed.

(** For the counts that can reach the test (a text of at most 5000
    characters has at most 2500 tokens), the float comparison of the
    source is the exact comparison of the ratio with three tenths. *)
Lemma ratio_float_exact (unique total : nat) :
  0 < total <= 2500 -> unique <= total ->
  ContentFilter.ratio_below_30_percent unique total = (10 * unique <? 3 * total).
Proof.
  intros Ht Hu. unfold ContentFilter.ratio_below_30_percent.
  assert (Hall : ratio_agrees_upto 2500 1%Z = true) by (vm_compute; reflexivity).
  pose proof (ratio_agrees_upto_spec 2500 1%Z ltac:(lia) Hall
                (Z.of_nat total - 1) (Z.of_nat unique) ltac:(lia) ltac:(lia)) as H.
  replace (1 + (Z.of_nat total - 1))%Z with (Z.of_nat total) in H by lia.
  unfold ratio_agrees in H. apply Bool.eqb_prop in H. rewrite H.
  destruct (Z.ltb_spec (10 * Z.of_nat unique) (3 * Z.of_nat total));
    destruct (Nat.ltb_spec (10 * unique) (3 * total)); try reflexivity; lia.
Qed.

Lemma ratio_below_30_percent_spec (unique total : nat) :
  0 < total <= 2500 -> unique <= total ->
  ContentFilter.ratio_below_30_percent unique total = true
  <-> (Z.of_nat unique # Pos.of_nat total < 3 # 10)%Q.
Proof.
  intros Ht Hu. rewrite ratio_float_exact by assumption.
  unfold Qlt. simpl. rewrite Nat.ltb_lt.
  assert (Hp : Z.pos (Pos.of_nat total) = Z.of_nat total).
  { rewrite <- positive_nat_Z. rewrite Nat2Pos.id by lia. reflexivity. }
  rewrite Hp. lia.
Qed.

(** Each token has a character of its own and, but for the last, a
    white-space character after it. *)
Lemma split_aux_length (s : string) :
  forall cur,
    2 * length (Str.split_aux cur s)
    <= String.length s + match cur with EmptyString => 1 | _ => 2 end.
Proof.
  induction s as [|c s IH]; intros cur; simpl.
  - destruct cur; simpl; lia.
  - destruct (Char.is_space c).
    + destruct cur; simpl; specialize (IH EmptyString); simpl in IH; lia.
    + specialize (IH (cur +:+ String c EmptyString)).
      destruct (cur +:+ String c EmptyString) eqn:E.
      * destruct cur; discriminate.
      * destruct cur; simpl in *; lia.
Qed.

Lemma split_length (s : string) : 2 * length (Str.split s) <= String.length s + 1.
Proof. unfold Str.split. pose proof (split_aux_length s EmptyString). simpl in *. lia. Qed.

Lemma size_list_to_set_le (l : list string) :
  size (list_to_set l : gset string) <= length l.
Proof.
  induction l as [|x l IH].
  - change (size (∅ : gset string) <= 0). rewrite size_empty. lia.
  - change (size ({[x]} ∪ (list_to_set l : gset string)) <= S (length l)).
    rewrite size_union_alt, size_singleton.
    assert (Hsub : (list_to_set l : gset string) ∖ {[x]} ⊆ list_to_set l)
      by apply subseteq_difference_l, reflexivity.
    apply subseteq_size in Hsub. lia.
Qed.

(** C6: white space only, or nothing at all, is safe; any other text is
    unsafe exactly when one of the three rules applies: an inappropriate
    word or phrase stands in the text, in any mix of cases, between word
    boundaries; the text has more than 5000 characters; or it has more
    than 10 tokens between white space of which, compared in lower case,
    fewer than 30 percent are distinct.  The two texts of the
    specification are classified as it says. *)
Theorem is_safe_content_rules :
  (forall text, Str.forallb Char.is_space text = true ->
     ContentFilter.is_safe_content text = true)
  /\ (forall text, Str.forallb Char.is_space text = false ->
        (ContentFilter.is_safe_content text = false
         <-> unsafe_term_at_word_boundary (Str.lower text)
             \/ 5000 < String.length text
             \/ (10 < length (Str.split (Str.lower text))
                 /\ (Z.of_nat (size (list_to_set (Str.split (Str.lower text)) : gset string))
                     # Pos.of_nat (length (Str.split (Str.lower text)))
                     < 3 # 10)%Q)))
  /\ ContentFilter.is_safe_content "I want to kill the process" = false
  /\ ContentFilter.is_safe_content "What is the spectral centroid of this track?" = true.
Proof.
  split; [|split; [|split; vm_compute; reflexivity]].
  - intros text Hblank. unfold ContentFilter.is_safe_content.
    rewrite is_blank_spec, Hblank. reflexivity.
  - intros text Hblank. unfold ContentFilter.is_safe_content.
    rewrite is_blank_spec, Hblank.
    unfold ContentFilter.too_repetitive.
    destruct (ContentFilter.inappropriate (Str.lower text)) eqn:Hpat.
    { split; [intros _|reflexivity]. left. apply inappropriate_spec. exact Hpat. }
    assert (Hnopat : ~ unsafe_term_at_word_boundary (Str.lower text)).
    { intros Hex. apply inappropriate_spec in Hex. congruence. }
    destruct (Nat.ltb_spec 5000 (String.length text)) as [Hlong|Hshort].
    { split; [intros _|reflexivity]. right. left. exact Hlong. }
    destruct (Nat.ltb_spec 10 (length (Str.split (Str.lower text)))) as [Hmany|Hfew].
    + destruct (ContentFilter.ratio_below_30_percent _ _) eqn:Hratio.
      * split; [intros _|reflexivity]. right. right. split; [exact Hmany|].
        apply ratio_below_30_percent_spec;
          [pose proof (split_length (Str.lower text)); rewrite lower_length in *; lia
          |apply size_list_to_set_le|exact Hratio].
      * split; [discriminate|]. intros [Hex|[Hl|[_ Hq]]]; [contradiction|lia|].
        apply ratio_below_30_percent_spec in Hq;
          [congruence
          |pose proof (split_length (Str.lower text)); rewrite lower_length in *; lia
          |apply size_list_to_set_le].
    + split; [discriminate|]. intros [Hex|[Hl|[Hm _]]]; [contradiction|lia|lia].
Qed.

(** The order of the rules matters for one kind of text only: white
    space alone is safe also when it is longer than 5000 characters. *)
Remark long_blank_text_is_safe :
  5000 < String.length (Str.replicate 5001 Char.SPACE)
  /\ ContentFilter.is_safe_content (Str.replicate 5001 Char.SPACE) = true.
Proof. split; [vm_compute; lia|vm_compute; reflexivity]. Qed.

(** ** The topic check *)

Lemma any_short_response_spec (words : gset string) :
  ContentFilter.any_short_response words = true
  <-> exists token, token ∈ words /\ token ∈ ContentFilter.short_responses.
Proof.
  unfold ContentFilter.any_short_response. rewrite existsb_exists. split.
  - intros (token & Hin & Hd). exists token. split.
    + apply elem_of_elements, list_elem_of_In. exact Hin.
    + apply bool_decide_eq_true in Hd. exact Hd.
  - intros (token & Hin & Hshort). exists token. split.
    + apply list_elem_of_In, elem_of_elements. exact Hin.
    + apply bool_decide_eq_true. exact Hshort.
Qed.

(** ** Tokens *)

(** What the matcher reports as the length of a match is the length of
    what some match takes. *)
Lemma match_len_sound (r : Re.regex) (prev : option ascii) (s : string) (n : nat) :
  Re.match_len r prev s = Some n ->
  exists prev' s', matches r prev s prev' s' /\ n = String.length s - String.length s'.
Proof.
  unfold Re.match_len. intros H.
  destruct (proj1 (exec_spec r _ prev s _) n H) as (prev' & s' & Hm & Hk).
  injection Hk as <-. eauto.
Qed.

Lemma take_app_length (w s : string) : Str.take (String.length w) (w +:+ s) = w.
Proof. induction w as [|c w IH]; simpl; [destruct s; reflexivity|]. rewrite IH. reflexivity. Qed.

(** Every token that [re.findall(r'\b\w+\b', ...)] returns is made of
    word characters. *)
Lemma findall_word_chars (s : string) :
  forall (prev : option ascii) (skip : nat),
    Forall (fun token => Str.forallb Char.is_word token = true)
      (Re.findall_from (Re.cats [Re.Bnd; Re.plus Char.is_word; Re.Bnd]) prev skip s).
Proof.
  induction s as [|c s IH]; intros prev skip; cbn [Re.findall_from]; [constructor|].
  destruct skip as [|k]; [|apply IH].
  destruct (Re.match_len _ prev (String c s)) as [[|n]|] eqn:Hlen; try apply IH.
  constructor; [|apply IH].
  destruct (match_len_sound _ _ _ _ Hlen) as (prev' & s' & Hm & Hn).
  change (Re.cats [Re.Bnd; Re.plus Char.is_word; Re.Bnd])
    with (Re.Cat Re.Bnd (Re.Cat (Re.Rep Char.is_word 1 None) Re.Bnd)) in Hm.
  cbn [matches] in Hm.
  destruct Hm as (p0 & s0 & (_ & -> & ->) & p1 & s1 & (w & Hs & Hw & _ & _ & _) & _ & _ & ->).
  rewrite Hs in Hn |- *. rewrite string_length_app in Hn.
  replace (S n) with (String.length w) by lia.
  rewrite take_app_length. exact Hw.
Qed.

(** No token is the phrase [thank you]: the entry of the acknowledgment
    set with a space in it is never met. *)
Lemma thank_you_is_never_a_token (content_lower : string) :
  "thank you" ∉ ContentFilter.word_set content_lower.
Proof.
  unfold ContentFilter.word_set, Re.findall. rewrite elem_of_list_to_set.
  intros Hin.
  pose proof (proj1 (Forall_forall _ _) (findall_word_chars content_lower None 0) _ Hin) as H.
  vm_compute in H. discriminate.
Qed.

(** So an acknowledgment is found exactly when a token is one of the
    five single words. *)
Lemma any_short_response_words (content_lower : string) :
  ContentFilter.any_short_response (ContentFilter.word_set content_lower) = true
  <-> exists token, token ∈ ContentFilter.word_set content_lower
                    /\ In token ["ok"; "yes"; "no"; "hello"; "thanks"].
Proof.
  rewrite any_short_response_spec. split.
  - intros (token & Hin & Hshort). exists token. split; [exact Hin|].
    unfold ContentFilter.short_responses in Hshort.
    rewrite elem_of_list_to_set in Hshort. apply list_elem_of_In in Hshort.
    cbn [In] in *.
    destruct Hshort as [<-|[<-|[<-|[<-|[<-|[<-|[]]]]]]]; auto 10.
    exfalso. exact (thank_you_is_never_a_token content_lower Hin).
  - intros (token & Hin & Hword). exists token. split; [exact Hin|].
    unfold ContentFilter.short_responses. rewrite elem_of_list_to_set.
    apply list_elem_of_In. cbn [In] in *.
    destruct Hword as [<-|[<-|[<-|[<-|[<-|[]]]]]]; auto 10.
Qed.

(** C8, amended: a text of fewer than 200 characters whose token set has
    at most three tokens, one of them a member of the acknowledgment set
    ([ok], [yes], [no], [hello], [thanks]), is on topic whatever its
    overlap with the topic vocabulary. *)
Theorem acknowledgment_on_topic (text : string) :
  String.length text < 200 ->
  size (ContentFilter.word_set (Str.lower text)) <= 3 ->
  (exists token, token ∈ ContentFilter.word_set (Str.lower text)
                 /\ In token ["ok"; "yes"; "no"; "hello"; "thanks"]) ->
  ContentFilter._is_on_topic text = true.
Proof.
  intros Hlen Hsize Hack. unfold ContentFilter._is_on_topic.
  apply any_short_response_words in Hack. rewrite Hack.
  destruct (Nat.ltb_spec (String.length text) 200) as [_|Hge]; [|lia].
  destruct (Nat.leb_spec 200 (String.length text)) as [Hge|_]; [lia|].
  destruct (Nat.leb_spec (size (ContentFilter.word_set (Str.lower text))) 3) as [_|Hgt]; [|lia].
  simpl. destruct (0 <? _); reflexivity.
Qed.

Lemma acknowledgment_on_topic_witness :
  ContentFilter._is_on_topic "hello" = true.
Proof.
  apply (acknowledgment_on_topic "hello").
  - vm_compute. lia.
  - vm_compute. lia.
  - exists "hello". split; [by_evaluation|cbn [In]; auto 10].
Defined.

(** C8 as stated fails: the acknowledgment rule comes after the rule for
    texts of 200 characters or more, which asks for two topic words: a long text with
    the single token [ok] is off topic.  And the tokens are single words,
    so the entry [thank you] of the acknowledgment set is never met. *)
Lemma acknowledgment_off_topic :
  (200 <= String.length long_acknowledgment
   /\ size (ContentFilter.word_set (Str.lower long_acknowledgment)) <= 3
   /\ "ok" ∈ ContentFilter.word_set (Str.lower long_acknowledgment)
   /\ "ok" ∈ ContentFilter.short_responses
   /\ ContentFilter.sanitize long_acknowledgment = long_acknowledgment
   /\ ContentFilter._is_on_topic long_acknowledgment = false)
  /\ (size (ContentFilter.word_set (Str.lower "thank you")) <= 3
      /\ "thank you" ∈ ContentFilter.short_responses
      /\ ContentFilter._is_on_topic "thank you" = false).
Proof.
  repeat split; try by_evaluation; try (vm_compute; reflexivity); vm_compute; lia.
Qed.

(** ** Scenarios *)

Section Forwarding.

Variable post : payload -> http_outcome.

(** C1, on the code: for ["hello"] the validation result carries the key
    [modified_question] with the value [None], so [dict.get] returns
    that [None] and not the default; the request handed to the transport
    is the system message followed by a user message whose content is
    [None], not ["hello"]. *)
Theorem hello_is_forwarded_as_None (t1 t2 : string) :
  ContentFilter.validate_question "hello" !! "is_valid" = Some (PBool true)
  /\ ContentFilter.validate_question "hello" !! "modified_question" = Some PNone
  /\ dict_get (ContentFilter.validate_question "hello") "modified_question" (PStr "hello")
     = PNone
  /\ (let '(_, _, sent) :=
        send_message post (ChatService_init default_settings) "hello" None t1 t2 in
      List.map p_messages sent
      = [[message "system" (PStr filtered_system_prompt); message "user" PNone]]).
Proof.
  split; [vm_compute; reflexivity|].
  split; [vm_compute; reflexivity|].
  split; [vm_compute; reflexivity|].
  rewrite send_message_eq.
  replace (ContentFilter.is_safe_content "hello") with true by (vm_compute; reflexivity).
  cbv zeta. rewrite chat_completion_eq.
  match goal with
  | |- context [validate_messages ?c ?ms ?h] =>
      replace (validate_messages c ms h)
        with ([message "system" (PStr filtered_system_prompt); message "user" PNone],
              @None exn)
        by (vm_compute; reflexivity)
  end.
  cbv zeta.
  destruct (handle_response _ _) as [[content usage model|error]|e];
    [| |destruct (chat_completion_except _ e)]; vm_compute; reflexivity.
Qed.

End Forwarding.

(** C2, on the code: a reply that the safety classifier rejects is
    returned as a success, only sanitized; recorded in the history, it
    makes the next request fail the client's own safety check. *)
Theorem unsafe_response_is_accepted :
  ContentFilter.is_safe_content unsafe_reply = false
  /\ (let '(_, sent, response) :=
        chat_completion (replying unsafe_reply) (MistralClient_init default_settings)
          [0] None None [message "user" (PStr "How do I remove hum from a recording?")] in
      response = Success (PStr unsafe_reply) ∅ "mistral-small" /\ length sent = 1)
  /\ (let '(r1, self1, _) :=
        send_message (replying unsafe_reply) (ChatService_init default_settings)
          "How do I remove hum from a recording?" None "t1" "t2" in
      r1 = Sent "How do I remove hum from a recording?" (PStr unsafe_reply)
             "mistral-small" ∅ "t2" 1
      /\ let '(r2, self2, sent2) :=
           send_message (replying "A spectrogram shows frequency over time.") self1
             "What is a spectrogram?" None "t3" "t4" in
         r2 = NotSent (PStr "Content failed safety checks") "What is a spectrogram?" "t4"
         /\ sent2 = [] /\ self2 = self1).
Proof. vm_compute. repeat split; reflexivity. Qed.

(** C7, on the code: the look-ahead compares the text after [://] with
    the four names, so a URL on another host whose name begins with one
    of them is kept, and a URL of Wikipedia or GitHub whose host begins
    with a subdomain is replaced. *)
Theorem url_rule_is_a_prefix_test :
  ContentFilter.sanitize "Docs: https://github.evil.example/login"
  = "Docs: https://github.evil.example/login"
  /\ ContentFilter.sanitize "See https://en.wikipedia.org/wiki/Spectrogram"
     = "See [URL_REMOVED]"
  /\ ContentFilter.sanitize "See https://www.github.com/librosa/librosa"
     = "See [URL_REMOVED]"
  /\ ContentFilter.sanitize "See https://github.com/librosa/librosa"
     = "See https://github.com/librosa/librosa".
Proof. vm_compute. repeat split; reflexivity. Qed.

(** C9, on the code: the white-space rule runs first and turns every
    newline into a space, so the newline rule finds nothing.  No
    sanitized text contains a newline at all, and three newlines come
    out as one space. *)
Theorem three_newlines_become_a_space :
  (forall text, Str.existsb (Char.eqb Char.LF) (ContentFilter.sanitize text) = false)
  /\ ContentFilter.sanitize three_newlines = "first second"
  /\ ContentFilter._clean_formatting three_newlines = "first second".
Proof.
  split; [|vm_compute; split; reflexivity].
  intros text. unfold ContentFilter.sanitize.
  apply (forallb_existsb_false space_or_not_white).
  - intros c Hq. destruct (Char.eqb Char.LF c) eqn:E; [|reflexivity].
    apply Ascii.eqb_eq in E. subst c. vm_compute in Hq. discriminate.
  - apply clean_formatting_white_space.
Qed.

(** ** The statements at concrete inputs *)

(** A rejected question, a call that times out and an answered call. *)
Lemma send_message_atomic_witness :
  (let '(r, self', sent) :=
     send_message (replying "ok") (ChatService_init default_settings)
       "I want to kill the process" None "t1" "t2" in
   r = NotSent (PStr "Question contains inappropriate content")
         "I want to kill the process" "t2"
   /\ sent = [] /\ self' = ChatService_init default_settings)
  /\ (let '(r, self', sent) :=
        send_message timing_out (ChatService_init default_settings)
          "hello" None "t1" "t2" in
      (exists err, r = NotSent (PStr err) "hello" "t2")
      /\ self' = ChatService_init default_settings)
  /\ (let '(r, self', sent) :=
        send_message (replying "A spectrogram shows frequency over time.")
          (ChatService_init default_settings) "What is a spectrogram?" None "t1" "t2" in
      conversation_history self'
      = [ {| user := "What is a spectrogram?";
             assistant := PStr "A spectrogram shows frequency over time.";
             timestamp := "t1" |} ]).
Proof.
  split; [|split].
  - pose proof (send_message_atomic (replying "ok") (ChatService_init default_settings)
                  "I want to kill the process" None "t1" "t2") as H.
    destruct (send_message _ _ _ _ _ _) as [[r self'] sent].
    destruct H as (Hreject & _). apply Hreject. vm_compute. reflexivity.
  - pose proof (send_message_atomic timing_out (ChatService_init default_settings)
                  "hello" None "t1" "t2") as H.
    destruct (send_message _ _ _ _ _ _) as [[r self'] sent] eqn:E.
    destruct H as (_ & Hfail & _).
    vm_compute in E. injection E as _ _ <-.
    eapply Hfail; [left; reflexivity|reflexivity].
  - pose proof (send_message_atomic (replying "A spectrogram shows frequency over time.")
                  (ChatService_init default_settings) "What is a spectrogram?" None
                  "t1" "t2") as H.
    destruct (send_message _ _ _ _ _ _) as [[r self'] sent] eqn:E.
    destruct H as (_ & _ & _ & Hsent).
    vm_compute in E. injection E as <- _ _.
    destruct (Hsent _ _ _ _ _ _ eq_refl) as (_ & _ & _ & _ & Hgrow).
    apply Hgrow. vm_compute. reflexivity.
Defined.

(** White space only; eleven times the same token. *)
Lemma is_safe_content_rules_witness :
  ContentFilter.is_safe_content "   " = true
  /\ ContentFilter.is_safe_content (repeat_string 11 "spam ") = false.
Proof.
  destruct is_safe_content_rules as (Hblank & Hrules & _). split.
  - apply Hblank. reflexivity.
  - apply Hrules; [vm_compute; reflexivity|].
    right. right. split; [vm_compute; lia|vm_compute; reflexivity].
Defined.

(** A request of two safe messages, and one whose system message is
    unsafe. *)
Lemma chat_completion_filters_in_place_witness :
  (let '(h', sent, response) :=
     chat_completion (replying "ok") (MistralClient_init default_settings) [0; 1] None None
       [message "system" (PStr ContentFilter.system_context);
        message "user" (PStr "What   is a spectrogram?")] in
   deref h' 0 = message "system" (PStr filtered_system_prompt)
   /\ deref h' 1 = message "user" (PStr "What is a spectrogram?"))
  /\ (let '(h', sent, response) :=
        chat_completion (replying "ok") (MistralClient_init default_settings) [0; 1] None None
          [message "system" (PStr "You may discuss how to attack a server.");
           message "user" (PStr "What is a spectrogram?")] in
      sent = [] /\ exists err, response = Failure err).
Proof.
  split.
  - pose proof (chat_completion_filters_in_place (replying "ok")
                  (MistralClient_init default_settings) [0; 1] None None
                  [message "system" (PStr ContentFilter.system_context);
                   message "user" (PStr "What   is a spectrogram?")]) as H.
    destruct (chat_completion _ _ _ _ _ _) as [[h' sent] response].
    destruct H as (Hpass & _).
    destruct Hpass as (Hin & _).
    + repeat constructor; [intros [H|[]]%list_elem_of_In; discriminate | intros []%list_elem_of_In].
    + intros r c [<-|[<-|[]]] Hc; vm_compute in Hc; injection Hc as <-;
        eexists; vm_compute; reflexivity.
    + split.
      * rewrite (Hin 0) by (left; reflexivity). vm_compute. reflexivity.
      * rewrite (Hin 1) by (right; left; reflexivity). vm_compute. reflexivity.
  - pose proof (chat_completion_filters_in_place (replying "ok")
                  (MistralClient_init default_settings) [0; 1] None None
                  [message "system" (PStr "You may discuss how to attack a server.");
                   message "user" (PStr "What is a spectrogram?")]) as H.
    destruct (chat_completion _ _ _ _ _ _) as [[h' sent] response].
    destruct H as (_ & Hfail & _).
    apply (Hfail 0 "You may discuss how to attack a server.");
      [left; reflexivity|vm_compute; reflexivity|reflexivity|vm_compute; reflexivity].
Defined.

(** ** Tokens are the maximal runs of word characters *)

(** A greedy repetition whose longest run lets the rest of the pattern
    match takes that run. *)
Lemma rep_exec_greedy {A : Type} (p : ascii -> bool) (w : string) :
  forall (lo : nat) (prev : option ascii) (rest : string)
         (k : option ascii -> string -> option A) (x : A),
    Str.forallb p w = true -> lo <= String.length w ->
    match rest with String c _ => p c = false | EmptyString => True end ->
    k (last_or prev w) rest = Some x ->
    Re.rep_exec p lo None prev (w +:+ rest) k = Some x.
Proof.
  induction w as [|c w IH]; intros lo prev rest k x Hw Hlo Hrest Hk.
  - simpl in Hlo. replace lo with 0 by lia. simpl in Hk.
    change (EmptyString +:+ rest) with rest.
    destruct rest as [|d rest]; simpl; [exact Hk|]. rewrite Hrest. exact Hk.
  - simpl in Hw. apply andb_prop in Hw as [Hc Hw].
    change (String c w +:+ rest) with (String c (w +:+ rest)).
    cbn [Re.rep_exec]. rewrite Hc. cbn [andb Re.may_repeat Re.dec_hi].
    rewrite (IH (Nat.pred lo) (Some c) rest k x Hw); [reflexivity| |exact Hrest|exact Hk].
    simpl in Hlo. lia.
Qed.

Lemma not_word_next (rest : string) :
  Re.is_word_opt (Re.next_char rest) = false ->
  match rest with String c _ => Char.is_word c = false | EmptyString => True end.
Proof. destruct rest; simpl; auto. Qed.

(** At the start of a maximal run of word characters the pattern matches
    the run. *)
Lemma word_pattern_at_run (prev : option ascii) (w rest : string) :
  Re.is_word_opt prev = false ->
  Str.forallb Char.is_word w = true -> 1 <= String.length w ->
  Re.is_word_opt (Re.next_char rest) = false ->
  Re.match_len word_pattern prev (w +:+ rest) = Some (String.length w).
Proof.
  intros Hprev Hw Hlen Hrest.
  unfold Re.match_len, word_pattern. cbn [Re.cats Re.exec Re.plus].
  unfold Re.at_boundary at 1. rewrite Hprev, (first_word w rest Hw Hlen). cbn [xorb].
  apply rep_exec_greedy; [exact Hw|exact Hlen|apply not_word_next, Hrest|].
  unfold Re.at_boundary. rewrite (last_or_word w prev Hw Hlen), Hrest. cbn [xorb].
  rewrite string_length_app. f_equal. lia.
Qed.

(** Anywhere else it does not match. *)
Lemma word_pattern_elsewhere (prev : option ascii) (s : string) :
  Re.is_word_opt prev = true \/ Re.is_word_opt (Re.next_char s) = false ->
  Re.match_len word_pattern prev s = None.
Proof.
  intros H. unfold Re.match_len, word_pattern. cbn [Re.cats Re.exec Re.plus].
  unfold Re.at_boundary at 1.
  destruct (Re.is_word_opt prev) eqn:Hp, (Re.is_word_opt (Re.next_char s)) eqn:Hn;
    cbn [xorb]; try reflexivity.
  - destruct s as [|c s]; [reflexivity|]. simpl in Hn.
    apply rep_exec_head_fails. exact Hn.
  - destruct H; discriminate.
Qed.

Lemma findall_from_skip (r : Re.regex) (w : string) :
  forall (prev : option ascii) (rest : string),
    Re.findall_from r prev (String.length w) (w +:+ rest)
    = Re.findall_from r (last_or prev w) 0 rest.
Proof.
  induction w as [|c w IH]; intros prev rest; [reflexivity|].
  change (String c w +:+ rest) with (String c (w +:+ rest)).
  cbn [String.length Re.findall_from last_or]. apply IH.
Qed.

(** A text is a run of word characters followed by a text that does not
    start with one. *)
Lemma word_span (s : string) :
  exists w rest, s = w +:+ rest /\ Str.forallb Char.is_word w = true
                 /\ Re.is_word_opt (Re.next_char rest) = false.
Proof.
  induction s as [|c s (w & rest & -> & Hw & Hrest)].
  - exists EmptyString, EmptyString. repeat split.
  - destruct (Char.is_word c) eqn:Hc.
    + exists (String c w), rest. simpl. rewrite Hc, Hw. repeat split. exact Hrest.
    + exists EmptyString, (String c (w +:+ rest)). simpl. rewrite Hc. repeat split.
Qed.

Lemma word_run_unique (t : string) :
  forall (w post rest : string),
    Str.forallb Char.is_word t = true -> Str.forallb Char.is_word w = true ->
    Re.is_word_opt (Re.next_char post) = false ->
    Re.is_word_opt (Re.next_char rest) = false ->
    t +:+ post = w +:+ rest -> t = w.
Proof.
  induction t as [|a t IH]; intros w post rest Ht Hw Hpost Hrest Heq.
  - destruct w as [|b w]; [reflexivity|]. simpl in Heq, Hw. subst post.
    simpl in Hpost. apply andb_prop in Hw as [Hb _]. congruence.
  - simpl in Ht. apply andb_prop in Ht as [Ha Ht].
    destruct w as [|b w].
    + simpl in Heq. subst rest. simpl in Hrest. congruence.
    + simpl in Heq, Hw. apply andb_prop in Hw as [_ Hw].
      injection Heq as <- Heq. f_equal. exact (IH w post rest Ht Hw Hpost Hrest Heq).
Qed.

(** A text that ends after a character that is no word character, laid
    over a text that starts with a run of word characters, reaches past
    the run. *)
Lemma past_the_run (w : string) :
  forall (prev : option ascii) (pre x rest : string),
    Str.forallb Char.is_word w = true ->
    1 <= String.length pre ->
    Re.is_word_opt (last_or prev pre) = false ->
    w +:+ rest = pre +:+ x ->
    exists pre', pre = w +:+ pre' /\ rest = pre' +:+ x /\ 1 <= String.length pre'.
Proof.
  induction w as [|a w IH]; intros prev pre x rest Hw Hlen Hlast Heq.
  - exists pre. repeat split; assumption.
  - simpl in Hw. apply andb_prop in Hw as [Ha Hw].
    destruct pre as [|b pre]; [simpl in Hlen; lia|].
    simpl in Heq. injection Heq as <- Heq.
    destruct pre as [|b pre].
    + simpl in Hlast. congruence.
    + destruct (IH (Some a) (String b pre) x rest Hw) as (pre' & Hpre & Hrest & Hlen');
        [simpl; lia|exact Hlast|exact Heq|].
      exists pre'. rewrite Hpre. repeat split; assumption.
Qed.

Lemma word_run_after_other (prev : option ascii) (c : ascii) (t s : string) :
  Char.is_word c = false ->
  word_run_at prev t (String c s) <-> word_run_at (Some c) t s.
Proof.
  intros Hc. split.
  - intros (pre & post & Hs & Hlen & Ht & Hpre & Hpost).
    destruct pre as [|b pre].
    + destruct t as [|a t]; [simpl in Hlen; lia|].
      simpl in Hs, Ht. injection Hs as <- _. rewrite Hc in Ht. discriminate.
    + simpl in Hs. injection Hs as <- ->. exists pre, post. repeat split; assumption.
  - intros (pre & post & -> & Hlen & Ht & Hpre & Hpost).
    exists (String c pre), post. repeat split; assumption.
Qed.

Lemma word_run_at_run (prev : option ascii) (w rest t : string) :
  Re.is_word_opt prev = false ->
  Str.forallb Char.is_word w = true -> 1 <= String.length w ->
  Re.is_word_opt (Re.next_char rest) = false ->
  word_run_at prev t (w +:+ rest)
  <-> t = w \/ exists d rest', rest = String d rest' /\ word_run_at (Some d) t rest'.
Proof.
  intros Hprev Hw Hlen Hrest. split.
  - intros (pre & post & Hs & Hlent & Ht & Hpre & Hpost).
    destruct pre as [|b pre].
    + left. simpl in Hs. symmetry in Hs.
      exact (word_run_unique t w post rest Ht Hw Hpost Hrest Hs).
    + right.
      destruct (past_the_run w prev (String b pre) (t +:+ post) rest Hw) as
        (pre' & Hpre' & Hrest' & Hlen'); [simpl; lia|exact Hpre|exact Hs|].
      destruct pre' as [|d pre']; [simpl in Hlen'; lia|].
      exists d, (pre' +:+ t +:+ post). split; [exact Hrest'|].
      exists pre', post. repeat split; try assumption.
      rewrite Hpre', last_or_app in Hpre. exact Hpre.
  - intros [->|(d & rest' & -> & pre & post & -> & Hlent & Ht & Hpre & Hpost)].
    + exists EmptyString, rest. repeat split; assumption.
    + exists (w +:+ String d pre), post. rewrite append_assoc.
      repeat split; try assumption. rewrite last_or_app. exact Hpre.
Qed.

(** What [re.findall(r'\b\w+\b', s)] returns: the maximal runs of word
    characters of [s]. *)
Lemma findall_word_runs (n : nat) :
  forall (s : string) (prev : option ascii) (t : string),
    String.length s <= n ->
    Re.is_word_opt prev = false ->
    In t (Re.findall_from word_pattern prev 0 s) <-> word_run_at prev t s.
Proof.
  induction n as [|n IH]; intros s prev t Hn Hprev.
  - destruct s; [|simpl in Hn; lia]. simpl. split; [intros []|].
    intros (pre & post & Hs & Hlen & _).
    destruct pre; [|discriminate]. destruct t; [simpl in Hlen; lia|discriminate].
  - destruct s as [|c s].
    { simpl. split; [intros []|].
      intros (pre & post & Hs & Hlen & _).
      destruct pre; [|discriminate]. destruct t; [simpl in Hlen; lia|discriminate]. }
    simpl in Hn.
    destruct (Char.is_word c) eqn:Hc.
    + destruct (word_span s) as (w & rest & -> & Hw & Hrest).
      assert (Hcw : Str.forallb Char.is_word (String c w) = true)
        by (simpl; rewrite Hc, Hw; reflexivity).
      rewrite (word_run_at_run prev (String c w) rest t Hprev Hcw ltac:(simpl; lia) Hrest).
      change (String c (w +:+ rest)) with (String c w +:+ rest).
      pose proof (word_pattern_at_run prev (String c w) rest Hprev Hcw
                    ltac:(simpl; lia) Hrest) as Hlen.
      change (String c w +:+ rest) with (String c (w +:+ rest)) in Hlen |- *.
      cbn [Re.findall_from]. rewrite Hlen. cbn [String.length].
      rewrite findall_from_skip.
      change (Str.take (S (String.length w)) (String c (w +:+ rest)))
        with (String c (Str.take (String.length w) (w +:+ rest))).
      rewrite take_app_length. cbn [In].
      assert (Hlast : Re.is_word_opt (last_or (Some c) w) = true).
      { change (last_or (Some c) w) with (last_or prev (String c w)).
        apply last_or_word; [exact Hcw|simpl; lia]. }
      destruct rest as [|d rest].
      * simpl. split; [intros [<-|[]]; left; reflexivity|].
        intros [->|(d & rest' & Hd & _)]; [left; reflexivity|discriminate].
      * cbn [Re.findall_from].
        rewrite (word_pattern_elsewhere _ (String d rest) (or_intror Hrest)).
        simpl in Hrest.
        rewrite (IH rest (Some d) t); [|rewrite string_length_app in Hn; simpl in Hn; lia|exact Hrest].
        split.
        -- intros [<-|H]; [left; reflexivity|right; eauto].
        -- intros [->|(d' & rest' & Heq & H)]; [left; reflexivity|].
           injection Heq as <- <-. right. exact H.
    + cbn [Re.findall_from].
      rewrite (word_pattern_elsewhere prev (String c s)) by (right; exact Hc).
      rewrite (word_run_after_other prev c t s Hc).
      apply IH; [lia|exact Hc].
Qed.

(** X1: the tokens of the topic check are the maximal runs of word
    characters of the lowered text: a token is a non-empty run of word
    characters of the text with no word character right before it and
    none right after it, and every such run is a token. *)
Theorem tokens_are_maximal_word_runs (content_lower t : string) :
  t ∈ ContentFilter.word_set content_lower <-> maximal_word_run t content_lower.
Proof.
  unfold ContentFilter.word_set, Re.findall, maximal_word_run.
  rewrite elem_of_list_to_set, list_elem_of_In.
  apply (findall_word_runs (String.length content_lower)); [lia|reflexivity].
Qed.

(** ** The redirect note is on topic *)

Lemma two_topic_words_on_topic (content : string) :
  "audio" ∈ ContentFilter.word_set (Str.lower content) ->
  "analysis" ∈ ContentFilter.word_set (Str.lower content) ->
  ContentFilter._is_on_topic content = true.
Proof.
  intros Ha Hb. unfold ContentFilter._is_on_topic.
  assert (Hsize : 2 <= size (ContentFilter.word_set (Str.lower content)
                             ∩ ContentFilter.allowed_topics)).
  { change 2 with (size ({["audio"; "analysis"]} : gset string)).
    apply subseteq_size. intros x Hx.
    apply elem_of_union in Hx as [Hx|Hx]; apply elem_of_singleton in Hx; subst x;
      apply elem_of_intersection; (split; [assumption|by_evaluation]). }
  destruct (String.length content <? 200) eqn:Hlen.
  - destruct (Nat.ltb_spec 0 (size (ContentFilter.word_set (Str.lower content)
                                    ∩ ContentFilter.allowed_topics))) as [_|H]; [reflexivity|lia].
  - cbn [andb]. apply Nat.ltb_ge in Hlen.
    destruct (Nat.leb_spec 200 (String.length content)) as [_|H]; [|lia].
    apply Nat.leb_le. exact Hsize.
Qed.

(** Whatever stands before the redirect note, [audio] and [analysis] are
    tokens of the whole. *)
Lemma redirect_note_tokens (filtered : string) :
  "audio" ∈ ContentFilter.word_set
              (Str.lower (ContentFilter._add_topic_redirect filtered))
  /\ "analysis" ∈ ContentFilter.word_set
                    (Str.lower (ContentFilter._add_topic_redirect filtered)).
Proof.
  unfold ContentFilter._add_topic_redirect, ContentFilter.word_set, Re.findall.
  rewrite lower_app. rewrite !elem_of_list_to_set, !list_elem_of_In.
  pose (before := ContentFilter.nl +:+ ContentFilter.nl +:+ "[note: i focus on ").
  pose (after := " topics. if you have questions about spectrograms, audio features, "
                 +:+ "or sound analysis, i'd be happy to help!]").
  assert (Hnote : Str.lower ContentFilter.redirect_note
                  = before +:+ "audio" +:+ " " +:+ "analysis" +:+ after)
    by (vm_compute; reflexivity).
  rewrite Hnote. split.
  - apply (findall_word_runs (String.length (Str.lower filtered +:+ before +:+ "audio"
                                              +:+ " " +:+ "analysis" +:+ after)));
      [lia|reflexivity|].
    exists (Str.lower filtered +:+ before), (" " +:+ "analysis" +:+ after).
    rewrite append_assoc, last_or_app. repeat split. simpl. lia.
  - apply (findall_word_runs (String.length (Str.lower filtered +:+ before +:+ "audio"
                                              +:+ " " +:+ "analysis" +:+ after)));
      [lia|reflexivity|].
    exists (Str.lower filtered +:+ before +:+ "audio" +:+ " "), after.
    rewrite !append_assoc, !last_or_app. repeat split. simpl. lia.
Qed.

Lemma redirected_is_on_topic (filtered : string) :
  ContentFilter._is_on_topic (ContentFilter._add_topic_redirect filtered) = true.
Proof.
  destruct (redirect_note_tokens filtered) as [Ha Hb].
  exact (two_topic_words_on_topic _ Ha Hb).
Qed.

Lemma filter_content_on_topic (c : ascii) (content : string) :
  ContentFilter._is_on_topic (ContentFilter.filter_content (String c content)) = true.
Proof.
  unfold ContentFilter.filter_content.
  destruct (ContentFilter._is_on_topic
              (ContentFilter._clean_formatting
                 (ContentFilter._remove_sensitive_data (String c content)))) eqn:Htopic;
    cbn [negb]; [exact Htopic|apply redirected_is_on_topic].
Qed.

(** X2: what [filter_content] returns for a text that is not empty is on
    topic for [_is_on_topic], and is not empty: a text that is off topic
    after sanitizing gets the redirect note, and the note brings the
    topic words [audio] and [analysis] with it. *)
Theorem filter_content_result_is_on_topic (content : string) :
  content <> EmptyString ->
  ContentFilter._is_on_topic (ContentFilter.filter_content content) = true
  /\ ContentFilter.filter_content content <> EmptyString
  /\ (ContentFilter.filter_content content = ContentFilter.sanitize content
      \/ ContentFilter.filter_content content
         = ContentFilter.sanitize content +:+ ContentFilter.redirect_note).
Proof.
  intros Hne. destruct content as [|c content]; [congruence|].
  pose proof (filter_content_on_topic c content) as Htopic.
  split; [exact Htopic|]. split.
  - intros Hempty. rewrite Hempty in Htopic. vm_compute in Htopic. discriminate.
  - clear Htopic.
    unfold ContentFilter.filter_content, ContentFilter.sanitize,
      ContentFilter._add_topic_redirect.
    destruct (ContentFilter._is_on_topic
                (ContentFilter._clean_formatting
                   (ContentFilter._remove_sensitive_data (String c content))));
      cbn [negb]; [left|right]; reflexivity.
Qed.

Lemma filter_content_result_is_on_topic_witness :
  ContentFilter._is_on_topic
    (ContentFilter.filter_content "What is the weather like today?") = true
  /\ ContentFilter.filter_content "What is the weather like today?" <> EmptyString
  /\ (ContentFilter.filter_content "What is the weather like today?"
      = ContentFilter.sanitize "What is the weather like today?"
      \/ ContentFilter.filter_content "What is the weather like today?"
         = ContentFilter.sanitize "What is the weather like today?"
           +:+ ContentFilter.redirect_note).
Proof.
  apply (filter_content_result_is_on_topic "What is the weather like today?").
  discriminate.
Defined.

(** ** The three answers of [validate_question] *)

(** X3: [validate_question] answers [Question is off-topic but allowed]
    for the empty question only.  An unsafe question is invalid with no
    modified question; every other question passed all checks, and its
    modified question is what [filter_content] returns, or [None] when
    that is the question itself. *)
Theorem validate_question_answers (question : string) :
  (ContentFilter.is_safe_content question = false ->
     ContentFilter.validate_question question
     = {[ "is_valid" := PBool false;
          "reason" := PStr "Question contains inappropriate content";
          "modified_question" := PNone ]})
  /\ (ContentFilter.is_safe_content question = true -> question <> EmptyString ->
        ContentFilter.validate_question question
        = {[ "is_valid" := PBool true;
             "reason" := PStr "Question passed all checks";
             "modified_question" :=
               if bool_decide (ContentFilter.filter_content question = question)
               then PNone else PStr (ContentFilter.filter_content question) ]})
  /\ (ContentFilter.validate_question question !! "reason"
      = Some (PStr "Question is off-topic but allowed")
      <-> question = EmptyString)
  /\ ContentFilter.validate_question EmptyString
     = {[ "is_valid" := PBool true;
          "reason" := PStr "Question is off-topic but allowed";
          "modified_question" :=
            PStr " (Please provide an audio analysis perspective if possible.)" ]}.
Proof.
  assert (Hpassed : ContentFilter.is_safe_content question = true ->
                    question <> EmptyString ->
                    ContentFilter.validate_question question
                    = {[ "is_valid" := PBool true;
                         "reason" := PStr "Question passed all checks";
                         "modified_question" :=
                           if bool_decide (ContentFilter.filter_content question = question)
                           then PNone else PStr (ContentFilter.filter_content question) ]}).
  { intros Hsafe Hne. unfold ContentFilter.validate_question. rewrite Hsafe. cbn [negb].
    destruct question as [|c question]; [congruence|].
    rewrite filter_content_on_topic. reflexivity. }
  split; [|split; [exact Hpassed|split]].
  - intros Hsafe. unfold ContentFilter.validate_question. rewrite Hsafe. reflexivity.
  - split.
    + intros Hreason. destruct question as [|c question]; [reflexivity|].
      destruct (ContentFilter.is_safe_content (String c question)) eqn:Hsafe.
      * rewrite (Hpassed eq_refl ltac:(discriminate)) in Hreason.
        vm_compute in Hreason. discriminate.
      * unfold ContentFilter.validate_question in Hreason. rewrite Hsafe in Hreason.
        vm_compute in Hreason. discriminate.
    + intros ->. vm_compute. reflexivity.
  - vm_compute. reflexivity.
Qed.

(** ** Upper and lower case *)





(** ** Substitution of runs *)

Lemma run_length_le (p : ascii -> bool) (s : string) : run_length p s <= String.length s.
Proof. induction s as [|c s IH]; simpl; [lia|]. destruct (p c); lia. Qed.

Lemma run_length_app_all (p : ascii -> bool) (w s : string) :
  Str.forallb p w = true -> run_length p (w +:+ s) = String.length w + run_length p s.
Proof.
  induction w as [|c w IH]; simpl; [reflexivity|].
  intros H. apply andb_prop in H as [Hc H]. rewrite Hc, (IH H). reflexivity.
Qed.

(** A greedy repetition without upper bound takes the whole run, when
    the run is long enough. *)
Lemma rep_exec_run (p : ascii -> bool) (s : string) :
  forall (lo : nat) (prev : option ascii) (base : nat),
    Re.rep_exec p lo None prev s (fun _ rest => Some (base - String.length rest))
    = if lo <=? run_length p s
      then Some (base - (String.length s - run_length p s))
      else None.
Proof.
  induction s as [|c s IH]; intros lo prev base.
  - simpl. destruct lo; reflexivity.
  - cbn [Re.rep_exec run_length]. destruct (p c) eqn:Hc; cbn [andb Re.may_repeat Re.dec_hi].
    + rewrite IH.
      destruct (Nat.leb_spec (Nat.pred lo) (run_length p s)) as [Hle|Hgt].
      * destruct (Nat.leb_spec lo (S (run_length p s))) as [_|H]; [|lia].
        cbn [String.length]. rewrite Nat.sub_succ. reflexivity.
      * destruct (Nat.leb_spec lo (S (run_length p s))) as [H|_]; [lia|].
        destruct lo; [lia|reflexivity].
    + destruct lo; [|reflexivity]. rewrite Nat.sub_0_r. reflexivity.
Qed.

Lemma match_len_rep (p : ascii -> bool) (lo : nat) (prev : option ascii) (s : string) :
  Re.match_len (Re.Rep p lo None) prev s
  = if lo <=? run_length p s then Some (run_length p s) else None.
Proof.
  unfold Re.match_len. cbn [Re.exec]. rewrite rep_exec_run.
  destruct (lo <=? run_length p s); [|reflexivity].
  f_equal. pose proof (run_length_le p s). lia.
Qed.

Lemma runs_below_tail (p : ascii -> bool) (n : nat) (c : ascii) (s : string) :
  runs_below p n (String c s) = true -> runs_below p n s = true.
Proof. simpl. intros H. apply andb_prop in H as [_ H]. exact H. Qed.

Lemma runs_below_head (p : ascii -> bool) (n : nat) (c : ascii) (s : string) :
  runs_below p n (String c s) = true -> run_length p (String c s) < n.
Proof. cbn [runs_below]. intros H. apply andb_prop in H as [H _]. apply Nat.ltb_lt. exact H. Qed.

Lemma runs_below_cons (p : ascii -> bool) (n : nat) (c : ascii) (s : string) :
  run_length p (String c s) < n -> runs_below p n s = true ->
  runs_below p n (String c s) = true.
Proof.
  intros Hrun Hs. cbn [runs_below]. rewrite Hs.
  apply Nat.ltb_lt in Hrun. rewrite Hrun. reflexivity.
Qed.

(** Characters of the class, put before a text that does not start with
    one. *)
Lemma runs_below_app_all (p : ascii -> bool) (n : nat) (w s : string) :
  Str.forallb p w = true -> String.length w < n ->
  run_length p s = 0 -> runs_below p n s = true ->
  runs_below p n (w +:+ s) = true.
Proof.
  induction w as [|c w IH]; intros Hw Hlen Hrun Hs; [exact Hs|].
  change (String c w +:+ s) with (String c (w +:+ s)).
  apply runs_below_cons.
  - change (String c (w +:+ s)) with (String c w +:+ s).
    rewrite (run_length_app_all p _ s Hw), Hrun. lia.
  - simpl in Hw, Hlen. apply andb_prop in Hw as [_ Hw]. apply IH; [exact Hw|lia|exact Hrun|exact Hs].
Qed.

(** Characters outside the class, put before a text. *)
Lemma runs_below_app_none (q : ascii -> bool) (n : nat) (w s : string) :
  Str.forallb (fun c => negb (q c)) w = true -> 1 <= n ->
  runs_below q n s = true -> runs_below q n (w +:+ s) = true.
Proof.
  induction w as [|c w IH]; intros Hw Hn Hs; [exact Hs|].
  simpl in Hw. apply andb_prop in Hw as [Hc Hw]. apply negb_true_iff in Hc.
  change (String c w +:+ s) with (String c (w +:+ s)).
  apply runs_below_cons; [simpl; rewrite Hc; lia|]. apply IH; assumption.
Qed.

Section ReplaceRuns.

(** The rule [re.sub(p{lo,}, repl, ...)] for a replacement made of
    characters of the class itself. *)
Variable p : ascii -> bool.
Variables lo bound : nat.
Variable repl : string.
Hypothesis lo_positive : 1 <= lo.
Hypothesis repl_in_class : Str.forallb p repl = true.
Hypothesis repl_not_empty : 1 <= String.length repl.
Hypothesis repl_short : String.length repl < bound.
Hypothesis lo_le_bound : lo <= bound.

(** After the rule every run of the class is shorter than [bound]: a run
    that was long enough is now the replacement, the others stay.  The
    second part is about the middle of a run that is being replaced. *)
Lemma replaced_runs_below (s : string) :
  forall prev : option ascii,
    (runs_below p bound (Re.sub_from (Re.Rep p lo None) repl prev 0 s) = true
     /\ run_length p (Re.sub_from (Re.Rep p lo None) repl prev 0 s)
        <= (if lo <=? run_length p s then String.length repl else run_length p s))
    /\ (runs_below p bound (Re.sub_from (Re.Rep p lo None) repl prev (run_length p s) s) = true
        /\ run_length p (Re.sub_from (Re.Rep p lo None) repl prev (run_length p s) s) = 0).
Proof.
  induction s as [|c s IH]; intros prev.
  - simpl. destruct (lo <=? 0); repeat split; lia.
  - assert (Hzero :
      runs_below p bound (Re.sub_from (Re.Rep p lo None) repl prev 0 (String c s)) = true
      /\ run_length p (Re.sub_from (Re.Rep p lo None) repl prev 0 (String c s))
         <= (if lo <=? run_length p (String c s) then String.length repl
             else run_length p (String c s))).
    { cbn [Re.sub_from]. rewrite match_len_rep.
      destruct (IH (Some c)) as [[Hbelow Hrun] [Hbelow' Hrun']].
      destruct (Nat.leb_spec lo (run_length p (String c s))) as [Hle|Hgt].
      - cbn [run_length] in Hle |- *. destruct (p c) eqn:Hc; [|lia].
        split.
        + apply runs_below_app_all; assumption.
        + rewrite (run_length_app_all p repl _ repl_in_class), Hrun'. lia.
      - cbn [run_length] in Hgt. destruct (p c) eqn:Hc.
        + destruct (Nat.leb_spec lo (run_length p s)) as [Hle|_]; [lia|].
          split; [|cbn [run_length]; rewrite Hc; lia].
          apply runs_below_cons; [|exact Hbelow]. cbn [run_length]. rewrite Hc. lia.
        + split; [|cbn [run_length]; rewrite Hc; lia].
          apply runs_below_cons; [|exact Hbelow]. cbn [run_length]. rewrite Hc. lia. }
    split; [exact Hzero|].
    cbn [run_length]. destruct (p c) eqn:Hc.
    + cbn [Re.sub_from]. exact (proj2 (IH (Some c))).
    + destruct Hzero as [Hbelow Hrun]. split; [exact Hbelow|].
      cbn [run_length] in Hrun. rewrite Hc in Hrun.
      destruct (lo <=? 0) eqn:E; [apply Nat.leb_le in E; lia|lia].
Qed.

End ReplaceRuns.

(** A replacement that is not empty and has no character of a class
    keeps the runs of that class as short as they were, whatever the
    pattern. *)
Lemma sub_from_keeps_runs_below (r : Re.regex) (repl : string) (q : ascii -> bool)
    (n : nat) (s : string) :
  1 <= String.length repl ->
  Str.forallb (fun c => negb (q c)) repl = true ->
  forall (prev : option ascii) (skip : nat),
    runs_below q n s = true ->
    runs_below q n (Re.sub_from r repl prev skip s) = true
    /\ (skip = 0 -> run_length q (Re.sub_from r repl prev skip s) <= run_length q s).
Proof.
  intros Hlen Hrepl. induction s as [|c s IH]; intros prev skip Hs.
  - simpl. split; [reflexivity|lia].
  - pose proof (runs_below_head _ _ _ _ Hs) as Hhead.
    pose proof (runs_below_tail _ _ _ _ Hs) as Htail.
    cbn [Re.sub_from]. destruct skip as [|k].
    + assert (Hkeep : runs_below q n (String c (Re.sub_from r repl (Some c) 0 s)) = true
                      /\ (0 = 0 -> run_length q (String c (Re.sub_from r repl (Some c) 0 s))
                                   <= run_length q (String c s))).
      { destruct (IH (Some c) 0 Htail) as [Hbelow Hrun]. specialize (Hrun eq_refl).
        assert (Hle : run_length q (String c (Re.sub_from r repl (Some c) 0 s))
                      <= run_length q (String c s))
          by (cbn [run_length]; destruct (q c); lia).
        split; [|intros _; exact Hle].
        apply runs_below_cons; [lia|exact Hbelow]. }
      destruct (Re.match_len r prev (String c s)) as [[|m]|]; try exact Hkeep.
      destruct (IH (Some c) m Htail) as [Hbelow _].
      split.
      * apply runs_below_app_none; [exact Hrepl|lia|exact Hbelow].
      * intros _. destruct repl as [|d repl]; [simpl in Hlen; lia|].
        simpl in Hrepl. apply andb_prop in Hrepl as [Hd _]. apply negb_true_iff in Hd.
        simpl. rewrite Hd. lia.
    + split; [|discriminate]. exact (proj1 (IH (Some c) k Htail)).
Qed.

(** Where every run is too short for the rule, the rule changes
    nothing. *)
Lemma sub_from_short_runs (p : ascii -> bool) (lo : nat) (repl : string) (s : string) :
  1 <= lo -> runs_below p lo s = true ->
  forall prev, Re.sub_from (Re.Rep p lo None) repl prev 0 s = s.
Proof.
  intros Hlo. induction s as [|c s IH]; intros Hs prev; [reflexivity|].
  cbn [Re.sub_from]. rewrite match_len_rep.
  pose proof (runs_below_head _ _ _ _ Hs) as Hhead.
  apply Nat.leb_gt in Hhead. rewrite Hhead.
  rewrite (IH (runs_below_tail _ _ _ _ Hs)). reflexivity.
Qed.

(** Single spaces are replaced by themselves. *)
Lemma sub_from_single_spaces (s : string) :
  runs_below Char.is_space 2 s = true ->
  Str.forallb space_or_not_white s = true ->
  forall prev, Re.sub_from (Re.plus Char.is_space) " " prev 0 s = s.
Proof.
  induction s as [|c s IH]; intros Hruns Hs prev; [reflexivity|].
  unfold Re.plus in *. cbn [Re.sub_from]. rewrite match_len_rep.
  pose proof (runs_below_head _ _ _ _ Hruns) as Hhead.
  simpl in Hs. apply andb_prop in Hs as [Hc Hs].
  rewrite (IH (runs_below_tail _ _ _ _ Hruns) Hs).
  cbn [run_length] in Hhead |- *.
  destruct (Char.is_space c) eqn:Hspace.
  - assert (Hrun : run_length Char.is_space s = 0) by lia. rewrite Hrun. simpl.
    unfold space_or_not_white in Hc. rewrite Hspace in Hc. simpl in Hc.
    apply Ascii.eqb_eq in Hc. subst c.
    rewrite (IH (runs_below_tail _ _ _ _ Hruns) Hs). reflexivity.
  - reflexivity.
Qed.

(** *** Stripping *)

Lemma lstrip_runs_below (q : ascii -> bool) (n : nat) (s : string) :
  runs_below q n s = true -> runs_below q n (Str.lstrip s) = true.
Proof.
  induction s as [|c s IH]; intros H; [reflexivity|].
  cbn [Str.lstrip]. destruct (Char.is_space c); [|exact H].
  apply IH. exact (runs_below_tail _ _ _ _ H).
Qed.

Lemma rstrip_runs_below (q : ascii -> bool) (n : nat) (s : string) :
  runs_below q n s = true ->
  runs_below q n (Str.rstrip s) = true
  /\ run_length q (Str.rstrip s) <= run_length q s.
Proof.
  induction s as [|c s IH]; intros H; [split; [reflexivity|simpl; lia]|].
  pose proof (runs_below_head _ _ _ _ H) as Hhead.
  destruct (IH (runs_below_tail _ _ _ _ H)) as [Hbelow Hrun].
  cbn [Str.rstrip]. destruct (Str.rstrip s) as [|d t] eqn:Ht.
  - destruct (Char.is_space c); [split; [reflexivity|simpl; lia]|].
    cbn [run_length] in *. split.
    + apply runs_below_cons; [|reflexivity]. cbn [run_length]. destruct (q c); lia.
    + destruct (q c); lia.
  - assert (Hle : run_length q (String c (String d t)) <= run_length q (String c s))
      by (cbn [run_length] in *; destruct (q c); lia).
    split; [|exact Hle]. apply runs_below_cons; [lia|exact Hbelow].
Qed.

Lemma rstrip_cons (c : ascii) (s : string) :
  Str.rstrip (String c s)
  = match Str.rstrip s with
    | EmptyString => if Char.is_space c then EmptyString else String c EmptyString
    | r => String c r
    end.
Proof. reflexivity. Qed.

Lemma rstrip_idempotent (s : string) : Str.rstrip (Str.rstrip s) = Str.rstrip s.
Proof.
  induction s as [|c s IH]; [reflexivity|].
  rewrite rstrip_cons. destruct (Str.rstrip s) as [|d t] eqn:Ht.
  - destruct (Char.is_space c) eqn:Hc; [reflexivity|]. simpl. rewrite Hc. reflexivity.
  - rewrite rstrip_cons, IH. reflexivity.
Qed.

Lemma lstrip_rstrip_lstrip (s : string) :
  Str.lstrip (Str.rstrip (Str.lstrip s)) = Str.rstrip (Str.lstrip s).
Proof.
  destruct (Str.forallb Char.is_space s) eqn:Hs.
  - rewrite (lstrip_all_space s Hs). reflexivity.
  - destruct (lstrip_some_char s Hs) as (c & s' & -> & Hc).
    rewrite rstrip_cons. destruct (Str.rstrip s'); rewrite ?Hc; cbn [Str.lstrip];
      rewrite Hc; reflexivity.
Qed.

Lemma strip_idempotent (s : string) : Str.strip (Str.strip s) = Str.strip s.
Proof. unfold Str.strip. rewrite lstrip_rstrip_lstrip. apply rstrip_idempotent. Qed.

(** *** The output of [_clean_formatting] *)

Lemma clean_formatting_runs (content : string) :
  runs_below Char.is_space 2 (ContentFilter._clean_formatting content) = true
  /\ runs_below (ContentFilter.one_of "!?") 3 (ContentFilter._clean_formatting content) = true
  /\ runs_below (Char.eqb ".") 4 (ContentFilter._clean_formatting content) = true.
Proof.
  unfold ContentFilter._clean_formatting.
  rewrite (newline_rule_is_idle content).
  unfold Re.sub, Re.plus, Re.at_least, Str.strip.
  set (s1 := Re.sub_from (Re.Rep Char.is_space 1 None) " " None 0 content).
  set (s2 := Re.sub_from (Re.Rep (ContentFilter.one_of "!?") 3 None) "!" None 0 s1).
  set (s3 := Re.sub_from (Re.Rep (Char.eqb ".") 4 None) "..." None 0 s2).
  assert (H1 : runs_below Char.is_space 2 s1 = true).
  { apply (replaced_runs_below Char.is_space 1 2 " "); simpl; (reflexivity || lia). }
  assert (H2 : runs_below (ContentFilter.one_of "!?") 3 s2 = true).
  { apply (replaced_runs_below (ContentFilter.one_of "!?") 3 3 "!"); simpl; (reflexivity || lia). }
  assert (H2' : runs_below Char.is_space 2 s2 = true).
  { apply sub_from_keeps_runs_below; [simpl; lia|reflexivity|exact H1]. }
  assert (H3 : runs_below (Char.eqb ".") 4 s3 = true).
  { apply (replaced_runs_below (Char.eqb ".") 4 4 "..."); simpl; (reflexivity || lia). }
  assert (H3' : runs_below Char.is_space 2 s3 = true).
  { apply sub_from_keeps_runs_below; [simpl; lia|reflexivity|exact H2']. }
  assert (H3'' : runs_below (ContentFilter.one_of "!?") 3 s3 = true).
  { apply sub_from_keeps_runs_below; [simpl; lia|reflexivity|exact H2]. }
  repeat split; apply rstrip_runs_below, lstrip_runs_below; assumption.
Qed.

(** X5: the text that [_clean_formatting] returns has no white space but
    single spaces, none of them at either end, at most two of [!] and [?]
    in a row and at most three full stops in a row. *)
Theorem clean_formatting_output (content : string) :
  Str.forallb space_or_not_white (ContentFilter._clean_formatting content) = true
  /\ runs_below Char.is_space 2 (ContentFilter._clean_formatting content) = true
  /\ Str.strip (ContentFilter._clean_formatting content)
     = ContentFilter._clean_formatting content
  /\ runs_below (ContentFilter.one_of "!?") 3 (ContentFilter._clean_formatting content) = true
  /\ runs_below (Char.eqb ".") 4 (ContentFilter._clean_formatting content) = true.
Proof.
  destruct (clean_formatting_runs content) as (Hspace & Hmarks & Hstops).
  split; [apply clean_formatting_white_space|].
  split; [exact Hspace|]. split; [|split; assumption].
  unfold ContentFilter._clean_formatting. apply strip_idempotent.
Qed.

(** X6: [_clean_formatting] is idempotent: cleaning a cleaned text
    changes nothing. *)
Theorem clean_formatting_idempotent (content : string) :
  ContentFilter._clean_formatting (ContentFilter._clean_formatting content)
  = ContentFilter._clean_formatting content.
Proof.
  destruct (clean_formatting_runs content) as (Hspace & Hmarks & Hstops).
  pose proof (clean_formatting_white_space content) as Hwhite.
  assert (Hstrip : Str.strip (ContentFilter._clean_formatting content)
                   = ContentFilter._clean_formatting content)
    by (unfold ContentFilter._clean_formatting; apply strip_idempotent).
  set (out := ContentFilter._clean_formatting content) in *.
  unfold ContentFilter._clean_formatting at 1.
  rewrite (newline_rule_is_idle out).
  unfold Re.sub, Re.at_least.
  rewrite (sub_from_single_spaces out Hspace Hwhite).
  rewrite (sub_from_short_runs _ 3 "!" out ltac:(lia) Hmarks).
  rewrite (sub_from_short_runs _ 4 "..." out ltac:(lia) Hstops).
  exact Hstrip.
Qed.

(** ** What the rules for sensitive data need, and what they take *)

Lemma existsb_app (p : ascii -> bool) (u v : string) :
  Str.existsb p (u +:+ v) = Str.existsb p u || Str.existsb p v.
Proof.
  induction u as [|c u IH]; [reflexivity|].
  simpl. rewrite IH, orb_assoc. reflexivity.
Qed.

Lemma existsb_false_forallb (p : ascii -> bool) (s : string) :
  Str.existsb p s = false <-> Str.forallb (fun c => negb (p c)) s = true.
Proof.
  induction s as [|c s IH]; simpl; [tauto|].
  rewrite orb_false_iff, andb_true_iff, negb_true_iff, IH. tauto.
Qed.

Lemma existsb_weaken (p q : ascii -> bool) (s : string) :
  (forall c, p c = true -> q c = true) ->
  Str.existsb q s = false -> Str.existsb p s = false.
Proof.
  intros Hpq. induction s as [|c s IH]; simpl; [reflexivity|].
  intros H. apply orb_false_iff in H as [Hc H].
  rewrite (IH H), orb_false_r.
  destruct (p c) eqn:Hp; [|reflexivity]. rewrite (Hpq c Hp) in Hc. discriminate.
Qed.

(** A pattern that needs a character of some class ahead changes
    nothing in a text without such a character. *)
Lemma sub_from_nothing_ahead (r : Re.regex) (repl : string) (p : ascii -> bool)
    (s : string) :
  (forall prev s' n, Re.match_len r prev s' = Some n -> Str.existsb p s' = true) ->
  Str.existsb p s = false ->
  forall prev, Re.sub_from r repl prev 0 s = s.
Proof.
  intros Hneeds. induction s as [|c s IH]; intros Hs prev; [reflexivity|].
  cbn [Re.sub_from].
  destruct (Re.match_len r prev (String c s)) as [n|] eqn:Hlen.
  { rewrite (Hneeds _ _ _ Hlen) in Hs. discriminate. }
  simpl in Hs. apply orb_false_iff in Hs as [_ Hs]. rewrite (IH Hs). reflexivity.
Qed.

Lemma matches_lit (d : string) :
  forall (prev : option ascii) (s : string) (prev' : option ascii) (s' : string),
    matches (Re.lit d) prev s prev' s' -> s = d +:+ s'.
Proof.
  induction d as [|c d IH]; intros prev s prev' s' Hm.
  - simpl in Hm. destruct Hm as [_ ->]. reflexivity.
  - destruct d as [|c' d].
    + simpl in Hm. destruct Hm as (x & -> & Hx & _).
      apply Ascii.eqb_eq in Hx. subst x. reflexivity.
    + change (Re.lit (String c (String c' d)))
        with (Re.Cat (Re.chr c) (Re.lit (String c' d))) in Hm.
      cbn [matches Re.chr] in Hm.
      destruct Hm as (pm & sm & (x & -> & Hx & _) & Hm).
      apply Ascii.eqb_eq in Hx. subst x.
      rewrite (IH _ _ _ _ Hm). reflexivity.
Qed.

(** Every match of the e-mail pattern holds an at sign. *)
Lemma email_needs_at (prev : option ascii) (s : string) (n : nat) :
  Re.match_len ContentFilter.email_pattern prev s = Some n ->
  Str.existsb (Char.eqb "@") s = true.
Proof.
  intros H. destruct (match_len_sound _ _ _ _ H) as (prev' & s' & Hm & _).
  unfold ContentFilter.email_pattern in Hm.
  cbn [Re.cats matches Re.plus Re.chr] in Hm.
  destruct Hm as (p0 & s0 & (_ & _ & ->) & p1 & s1 & (w & -> & _)
                  & p2 & s2 & (c & -> & Hc & _) & _).
  rewrite existsb_app. cbn [Str.existsb]. rewrite Hc. rewrite orb_true_r. reflexivity.
Qed.

(** Every match of the telephone pattern starts with a digit. *)
Lemma phone_needs_digit (prev : option ascii) (s : string) (n : nat) :
  Re.match_len ContentFilter.phone_pattern prev s = Some n ->
  Str.existsb Char.is_digit s = true.
Proof.
  unfold Re.match_len, ContentFilter.phone_pattern.
  cbn [Re.cats Re.exec Re.exactly].
  destruct (Re.at_boundary prev s); [|discriminate].
  destruct s as [|c s]; [discriminate|].
  destruct (Char.is_digit c) eqn:Hc; [cbn [Str.existsb]; rewrite Hc; reflexivity|].
  rewrite rep_exec_head_fails by exact Hc. discriminate.
Qed.

(** Every match of the URL pattern holds a colon. *)
Lemma url_needs_colon (prev : option ascii) (s : string) (n : nat) :
  Re.match_len ContentFilter.url_pattern prev s = Some n ->
  Str.existsb (Char.eqb ":") s = true.
Proof.
  intros H. destruct (match_len_sound _ _ _ _ H) as (prev' & s' & Hm & _).
  unfold ContentFilter.url_pattern in Hm.
  cbn [Re.cats matches] in Hm.
  destruct Hm as (p0 & s0 & Hhttp & p1 & s1 & Hopt & p2 & s2 & Hcolon & _).
  apply matches_lit in Hhttp. apply matches_lit in Hcolon.
  unfold Re.opt in Hopt. cbn [matches] in Hopt. destruct Hopt as (w & Hw & _).
  subst s s0 s1. rewrite !existsb_app.
  change (Str.existsb (Char.eqb ":") "://") with true.
  rewrite !orb_true_r. reflexivity.
Qed.

Lemma remove_sensitive_data_plain (content : string) :
  Str.existsb sensitive_char content = false ->
  ContentFilter._remove_sensitive_data content = content.
Proof.
  intros Hplain. unfold ContentFilter._remove_sensitive_data, Re.sub.
  rewrite (sub_from_nothing_ahead _ _ (Char.eqb "@") content email_needs_at);
    [|apply (existsb_weaken _ sensitive_char); [|exact Hplain];
      intros c Hc; unfold sensitive_char; rewrite Hc; reflexivity].
  rewrite (sub_from_nothing_ahead _ _ Char.is_digit content phone_needs_digit);
    [|apply (existsb_weaken _ sensitive_char); [|exact Hplain];
      intros c Hc; unfold sensitive_char; rewrite Hc, orb_true_r; reflexivity].
  apply (sub_from_nothing_ahead _ _ (Char.eqb ":") content url_needs_colon).
  apply (existsb_weaken _ sensitive_char); [|exact Hplain].
  intros c Hc. unfold sensitive_char. rewrite Hc, !orb_true_r. reflexivity.
Qed.

(** X13: [_remove_sensitive_data] changes nothing in a text that holds
    no at sign, no digit and no colon: every e-mail address has an at
    sign, every telephone number a digit and every URL a colon.  For
    such a text [filter_content] only cleans the formatting and checks
    the topic. *)
Theorem plain_text_is_kept (content : string) :
  Str.existsb sensitive_char content = false ->
  ContentFilter._remove_sensitive_data content = content
  /\ ContentFilter.sanitize content = ContentFilter._clean_formatting content.
Proof.
  intros Hplain. unfold ContentFilter.sanitize.
  rewrite (remove_sensitive_data_plain content Hplain). split; reflexivity.
Qed.

Lemma plain_text_is_kept_witness :
  ContentFilter._remove_sensitive_data "What does the spectral centroid tell me?"
  = "What does the spectral centroid tell me?"
  /\ ContentFilter.sanitize "What does the spectral centroid tell me?"
     = ContentFilter._clean_formatting "What does the spectral centroid tell me?".
Proof.
  apply (plain_text_is_kept "What does the spectral centroid tell me?").
  reflexivity.
Defined.

(** ** Telephone numbers *)

Lemma rep_exec_exactly {A : Type} (p : ascii -> bool) (w : string) :
  forall (prev : option ascii) (rest : string) (k : option ascii -> string -> option A),
    Str.forallb p w = true ->
    Re.rep_exec p (String.length w) (Some (String.length w)) prev (w +:+ rest) k
    = k (last_or prev w) rest.
Proof.
  induction w as [|c w IH]; intros prev rest k Hw.
  - change (EmptyString +:+ rest) with rest. cbn [String.length last_or].
    destruct rest as [|d rest]; cbn [Re.rep_exec Re.may_repeat Nat.eqb]; [reflexivity|].
    rewrite andb_false_r. reflexivity.
  - simpl in Hw. apply andb_prop in Hw as [Hc Hw].
    change (String c w +:+ rest) with (String c (w +:+ rest)).
    cbn [String.length Re.rep_exec Re.may_repeat Re.dec_hi Nat.pred last_or Nat.eqb].
    rewrite Hc. cbn [andb]. rewrite (IH (Some c) rest k Hw).
    destruct (k (last_or (Some c) w) rest); reflexivity.
Qed.

Lemma digit_is_no_separator (c : ascii) :
  Char.is_digit c = true -> ContentFilter.one_of "-." c = false.
Proof. destruct c as [[] [] [] [] [] [] [] []]; (discriminate || reflexivity). Qed.

Lemma digit_is_word (c : ascii) : Char.is_digit c = true -> Char.is_word c = true.
Proof. intros H. unfold Char.is_word. rewrite H. reflexivity. Qed.

Lemma digits_are_words (s : string) :
  Str.forallb Char.is_digit s = true -> Str.forallb Char.is_word s = true.
Proof.
  induction s as [|c s IH]; simpl; [reflexivity|].
  intros H. apply andb_prop in H as [Hc H]. rewrite (digit_is_word c Hc), (IH H). reflexivity.
Qed.

(** The optional separator of the telephone pattern before a digit. *)
Lemma opt_separator {A : Type} (s1 rest : string) (prev : option ascii)
    (k : option ascii -> string -> option A) (x : A) :
  separator s1 ->
  match rest with String d _ => Char.is_digit d = true | EmptyString => False end ->
  k (last_or prev s1) rest = Some x ->
  Re.rep_exec (ContentFilter.one_of "-.") 0 (Some 1) prev (s1 +:+ rest) k = Some x.
Proof.
  intros Hs1 Hrest Hk. destruct rest as [|d rest]; [destruct Hrest|].
  pose proof (digit_is_no_separator d Hrest) as Hd.
  destruct Hs1 as [->|[->| ->]];
    cbn [String.append Re.rep_exec Re.may_repeat Re.dec_hi Nat.pred last_or Nat.eqb] in *.
  - rewrite Hd. cbn [andb]. exact Hk.
  - change (ContentFilter.one_of "-." "-") with true. cbn [andb].
    rewrite Hd. cbn [andb]. rewrite Hk. reflexivity.
  - change (ContentFilter.one_of "-." ".") with true. cbn [andb].
    rewrite Hd. cbn [andb]. rewrite Hk. reflexivity.
Qed.

Lemma digits_start (n : nat) (s rest : string) :
  digits (S n) s ->
  match s +:+ rest with String d _ => Char.is_digit d = true | EmptyString => False end.
Proof.
  intros [Hlen Hs]. destruct s as [|d s]; [discriminate|].
  simpl in Hs. apply andb_prop in Hs as [Hd _]. exact Hd.
Qed.

(** The telephone pattern matches a telephone number that stands as a
    word, all of it. *)
Lemma phone_number_matches (prev : option ascii) (number post : string) :
  phone_number number ->
  Re.is_word_opt prev = false ->
  Re.is_word_opt (Re.next_char post) = false ->
  Re.match_len ContentFilter.phone_pattern prev (number +:+ post)
  = Some (String.length number).
Proof.
  intros (a & s1 & b & s2 & c & -> & Ha & Hs1 & Hb & Hs2 & Hc) Hprev Hpost.
  rewrite !append_assoc.
  unfold Re.match_len, ContentFilter.phone_pattern.
  cbn [Re.cats Re.exec Re.exactly Re.opt].
  assert (Hlen : forall n s, digits n s -> 1 <= n -> 1 <= String.length s)
    by (intros n s [-> _] H; exact H).
  unfold Re.at_boundary at 1.
  rewrite Hprev, (first_word a _ (digits_are_words a (proj2 Ha)) (Hlen 3 a Ha ltac:(lia))).
  cbn [xorb].
  rewrite <- (proj1 Ha) at 1 2. rewrite rep_exec_exactly by exact (proj2 Ha).
  apply opt_separator; [exact Hs1|exact (digits_start 2 b _ Hb)|].
  rewrite <- (proj1 Hb) at 1 2. rewrite rep_exec_exactly by exact (proj2 Hb).
  apply opt_separator; [exact Hs2|exact (digits_start 3 c _ Hc)|].
  rewrite <- (proj1 Hc) at 1 2. rewrite rep_exec_exactly by exact (proj2 Hc).
  unfold Re.at_boundary.
  rewrite (last_or_word c _ (digits_are_words c (proj2 Hc)) (Hlen 4 c Hc ltac:(lia))), Hpost.
  cbn [xorb]. f_equal. rewrite !string_length_app. lia.
Qed.

Lemma sub_from_skip (r : Re.regex) (repl : string) (w : string) :
  forall (prev : option ascii) (rest : string),
    Re.sub_from r repl prev (String.length w) (w +:+ rest)
    = Re.sub_from r repl (last_or prev w) 0 rest.
Proof.
  induction w as [|c w IH]; intros prev rest; [reflexivity|].
  change (String c w +:+ rest) with (String c (w +:+ rest)).
  cbn [String.length Re.sub_from last_or]. apply IH.
Qed.

(** The text before the first match stays. *)
Lemma sub_from_before (r : Re.regex) (repl : string) (q : ascii -> bool) (pre : string) :
  (forall prev c s', q c = true -> Re.match_len r prev (String c s') = None) ->
  Str.forallb q pre = true ->
  forall (prev : option ascii) (rest : string),
    Re.sub_from r repl prev 0 (pre +:+ rest)
    = pre +:+ Re.sub_from r repl (last_or prev pre) 0 rest.
Proof.
  intros Hno. induction pre as [|c pre IH]; intros Hpre prev rest; [reflexivity|].
  simpl in Hpre. apply andb_prop in Hpre as [Hc Hpre].
  change (String c pre +:+ rest) with (String c (pre +:+ rest)).
  cbn [Re.sub_from last_or]. rewrite (Hno prev c _ Hc), (IH Hpre). reflexivity.
Qed.

(** A match that is found is replaced, and the scan goes on after
    it. *)
Lemma sub_from_match (r : Re.regex) (repl : string) (prev : option ascii)
    (w rest : string) :
  1 <= String.length w ->
  Re.match_len r prev (w +:+ rest) = Some (String.length w) ->
  Re.sub_from r repl prev 0 (w +:+ rest)
  = repl +:+ Re.sub_from r repl (last_or prev w) 0 rest.
Proof.
  intros Hlen Hmatch. destruct w as [|c w]; [simpl in Hlen; lia|].
  change (String c w +:+ rest) with (String c (w +:+ rest)) in *.
  cbn [Re.sub_from]. rewrite Hmatch. cbn [String.length last_or].
  rewrite sub_from_skip. reflexivity.
Qed.

Lemma phone_number_chars (number : string) :
  phone_number number ->
  Str.existsb (Char.eqb "@") number = false
  /\ 1 <= String.length number.
Proof.
  intros (a & s1 & b & s2 & c & -> & Ha & Hs1 & Hb & Hs2 & Hc).
  assert (Hdigits : forall s, Str.forallb Char.is_digit s = true ->
                              Str.existsb (Char.eqb "@") s = false).
  { intros s. apply forallb_existsb_false.
    intros x Hx. destruct x as [[] [] [] [] [] [] [] []]; (discriminate || reflexivity). }
  assert (Hsep : forall s, separator s -> Str.existsb (Char.eqb "@") s = false)
    by (intros s [->|[->| ->]]; reflexivity).
  split.
  - rewrite !existsb_app, (Hdigits a (proj2 Ha)), (Hdigits b (proj2 Hb)),
      (Hdigits c (proj2 Hc)), (Hsep s1 Hs1), (Hsep s2 Hs2). reflexivity.
  - rewrite !string_length_app, (proj1 Ha). lia.
Qed.

Lemma phone_starts_with_digit (prev : option ascii) (c : ascii) (s : string) :
  negb (Char.is_digit c) = true ->
  Re.match_len ContentFilter.phone_pattern prev (String c s) = None.
Proof.
  intros Hc. apply negb_true_iff in Hc.
  unfold Re.match_len, ContentFilter.phone_pattern.
  cbn [Re.cats Re.exec Re.exactly].
  destruct (Re.at_boundary prev (String c s)); [|reflexivity].
  apply rep_exec_head_fails. exact Hc.
Qed.

(** X14: a telephone number that stands as a word in a text without any
    other at sign, digit or colon is replaced by [[PHONE_REMOVED]], and
    the text around it stays as it is. *)
Theorem phone_number_is_removed (pre number post : string) :
  phone_number number ->
  Str.existsb sensitive_char pre = false ->
  Str.existsb sensitive_char post = false ->
  Re.is_word_opt (last_or None pre) = false ->
  Re.is_word_opt (Re.next_char post) = false ->
  ContentFilter._remove_sensitive_data (pre +:+ number +:+ post)
  = pre +:+ "[PHONE_REMOVED]" +:+ post.
Proof.
  intros Hnumber Hpre Hpost Hbefore Hafter.
  destruct (phone_number_chars number Hnumber) as [Hat Hlen].
  assert (Hweak : forall p s, (forall c, p c = true -> sensitive_char c = true) ->
                              Str.existsb sensitive_char s = false ->
                              Str.existsb p s = false)
    by (intros p s Hp; apply existsb_weaken; exact Hp).
  assert (Hat_char : forall c, Char.eqb "@" c = true -> sensitive_char c = true)
    by (intros c Hc; unfold sensitive_char; rewrite Hc; reflexivity).
  assert (Hdigit_char : forall c, Char.is_digit c = true -> sensitive_char c = true)
    by (intros c Hc; unfold sensitive_char; rewrite Hc, orb_true_r; reflexivity).
  assert (Hcolon_char : forall c, Char.eqb ":" c = true -> sensitive_char c = true)
    by (intros c Hc; unfold sensitive_char; rewrite Hc, !orb_true_r; reflexivity).
  unfold ContentFilter._remove_sensitive_data, Re.sub.
  (* the e-mail rule *)
  rewrite (sub_from_nothing_ahead _ _ (Char.eqb "@") (pre +:+ number +:+ post)
             email_needs_at);
    [|rewrite !existsb_app, Hat, (Hweak _ pre Hat_char Hpre),
        (Hweak _ post Hat_char Hpost); reflexivity].
  (* the telephone rule *)
  assert (Hpre_digits : Str.forallb (fun c => negb (Char.is_digit c)) pre = true)
    by (apply existsb_false_forallb, (Hweak _ pre Hdigit_char Hpre)).
  assert (Hpost_digits : Str.forallb (fun c => negb (Char.is_digit c)) post = true)
    by (apply existsb_false_forallb, (Hweak _ post Hdigit_char Hpost)).
  rewrite (sub_from_before _ _ _ pre phone_starts_with_digit Hpre_digits).
  rewrite (sub_from_match _ _ _ number post Hlen
             (phone_number_matches _ number post Hnumber Hbefore Hafter)).
  rewrite (sub_from_no_match _ _ _ post phone_starts_with_digit Hpost_digits).
  (* the URL rule *)
  apply (sub_from_nothing_ahead _ _ (Char.eqb ":") _ url_needs_colon).
  rewrite !existsb_app, (Hweak _ pre Hcolon_char Hpre), (Hweak _ post Hcolon_char Hpost).
  reflexivity.
Qed.

Lemma phone_number_is_removed_witness :
  ContentFilter._remove_sensitive_data ("Call me at " +:+ "555-123.4567" +:+ ", please.")
  = "Call me at " +:+ "[PHONE_REMOVED]" +:+ ", please.".
Proof.
  apply (phone_number_is_removed "Call me at " "555-123.4567" ", please.").
  - exists "555", "-", "123", ".", "4567". unfold digits, separator. repeat split; auto.
  - reflexivity.
  - reflexivity.
  - reflexivity.
  - reflexivity.
Defined.

(** ** E-mail addresses *)

(** A greedy repetition gives back characters until the rest of the
    pattern matches: when that fails at every shorter give-back, the
    first success is the result. *)
Lemma rep_exec_all_fail {A : Type} (p : ascii -> bool) (w : string) :
  forall (lo : nat) (prev : option ascii) (rest : string)
         (k : option ascii -> string -> option A),
    Str.forallb p w = true ->
    match rest with String c _ => p c = false | EmptyString => True end ->
    (forall u v, w = u +:+ v -> 1 <= String.length u ->
                 k (last_or prev u) (v +:+ rest) = None) ->
    Re.rep_exec p lo None prev (w +:+ rest) k
    = if Nat.eqb lo 0 then k prev (w +:+ rest) else None.
Proof.
  induction w as [|c w IH]; intros lo prev rest k Hw Hrest Hfail.
  - change (EmptyString +:+ rest) with rest.
    destruct rest as [|d rest]; cbn [Re.rep_exec]; [reflexivity|].
    rewrite Hrest. reflexivity.
  - simpl in Hw. apply andb_prop in Hw as [Hc Hw].
    change (String c w +:+ rest) with (String c (w +:+ rest)).
    cbn [Re.rep_exec Re.may_repeat Re.dec_hi]. rewrite Hc. cbn [andb].
    rewrite (IH (Nat.pred lo) (Some c) rest k Hw Hrest).
    + pose proof (Hfail (String c EmptyString) w eq_refl ltac:(simpl; lia)) as Hc_fail.
      cbn [last_or] in Hc_fail. rewrite Hc_fail.
      destruct (Nat.eqb (Nat.pred lo) 0); reflexivity.
    + intros u v -> Hu. exact (Hfail (String c u) v eq_refl ltac:(simpl; lia)).
Qed.

Lemma rep_exec_backtrack {A : Type} (p : ascii -> bool) (w1 : string) :
  forall (w2 : string) (lo : nat) (prev : option ascii) (rest : string)
         (k : option ascii -> string -> option A) (x : A),
    Str.forallb p w1 = true -> Str.forallb p w2 = true ->
    lo <= String.length w1 ->
    match rest with String c _ => p c = false | EmptyString => True end ->
    (forall u v, w2 = u +:+ v -> 1 <= String.length u ->
                 k (last_or prev (w1 +:+ u)) (v +:+ rest) = None) ->
    k (last_or prev w1) (w2 +:+ rest) = Some x ->
    Re.rep_exec p lo None prev (w1 +:+ w2 +:+ rest) k = Some x.
Proof.
  induction w1 as [|c w1 IH]; intros w2 lo prev rest k x Hw1 Hw2 Hlo Hrest Hfail Hk.
  - change (EmptyString +:+ w2 +:+ rest) with (w2 +:+ rest).
    rewrite (rep_exec_all_fail p w2 lo prev rest k Hw2 Hrest Hfail).
    simpl in Hlo. replace lo with 0 by lia. exact Hk.
  - simpl in Hw1. apply andb_prop in Hw1 as [Hc Hw1].
    change (String c w1 +:+ w2 +:+ rest) with (String c (w1 +:+ w2 +:+ rest)).
    cbn [Re.rep_exec Re.may_repeat Re.dec_hi]. rewrite Hc. cbn [andb].
    rewrite (IH w2 (Nat.pred lo) (Some c) rest k x Hw1 Hw2); [reflexivity| |exact Hrest| |exact Hk].
    + simpl in Hlo. lia.
    + intros u v Hu Hlen. exact (Hfail u v Hu Hlen).
Qed.

Lemma next_char_app (u v : string) :
  1 <= String.length u -> Re.next_char (u +:+ v) = Re.next_char u.
Proof. destruct u; [simpl; lia|reflexivity]. Qed.

Lemma letter_classes (c : ascii) :
  ascii_letter c = true ->
  domain_char c = true /\ tld_char c = true /\ Char.is_word c = true
  /\ Char.eqb "." c = false.
Proof. destruct c as [[] [] [] [] [] [] [] []]; (discriminate || (repeat split)). Qed.

Lemma letters_are (q : ascii -> bool) (s : string) :
  (forall c, ascii_letter c = true -> q c = true) ->
  Str.forallb ascii_letter s = true -> Str.forallb q s = true.
Proof.
  intros Hq. induction s as [|c s IH]; simpl; [reflexivity|].
  intros H. apply andb_prop in H as [Hc H]. rewrite (Hq c Hc), (IH H). reflexivity.
Qed.

Lemma full_stop_is_domain_char (c : ascii) :
  Char.eqb "." c = true -> domain_char c = true.
Proof. intros H. apply Ascii.eqb_eq in H. subst c. reflexivity. Qed.

Lemma at_sign_is_no_local_char (c : ascii) :
  local_char c = true -> Char.eqb "@" c = false.
Proof. destruct c as [[] [] [] [] [] [] [] []]; (discriminate || reflexivity). Qed.

Lemma no_address_char_next (post : string) :
  no_address_char (Re.next_char post) = true ->
  match post with String c _ => domain_char c = false | EmptyString => True end
  /\ match post with String c _ => tld_char c = false | EmptyString => True end
  /\ match post with String c _ => Char.eqb "." c = false | EmptyString => True end
  /\ Re.is_word_opt (Re.next_char post) = false.
Proof.
  destruct post as [|c post]; [repeat split|].
  cbn [Re.next_char no_address_char Re.is_word_opt].
  rewrite negb_true_iff, !orb_false_iff. intros [[[Hl Hd] Ht] Hw].
  repeat split; try assumption.
  destruct (Char.eqb "." c) eqn:E; [|reflexivity].
  rewrite (full_stop_is_domain_char c E) in Hd. discriminate.
Qed.

(** The e-mail pattern matches an address that stands alone, all of
    it. *)
Lemma email_address_matches (prev : option ascii) (address post : string) :
  email_address address ->
  Re.is_word_opt prev = false ->
  no_address_char (Re.next_char post) = true ->
  Re.match_len ContentFilter.email_pattern prev (address +:+ post)
  = Some (String.length address).
Proof.
  intros (local & domain & tld & -> & Hlocal & Hfirst & Hdlen & Hdomain & Htlen & Htld)
    Hprev Hpost.
  destruct (no_address_char_next post Hpost) as (Hpost_d & Hpost_t & Hpost_stop & Hpost_w).
  assert (Hllen : 1 <= String.length local)
    by (destruct local; [discriminate|simpl; lia]).
  rewrite !append_assoc.
  unfold Re.match_len, ContentFilter.email_pattern.
  cbn [Re.cats Re.exec Re.plus Re.chr Re.at_least].
  change (fun c => ContentFilter.ascii_alnum c || ContentFilter.one_of "._%+-" c)
    with local_char.
  change (fun c => ContentFilter.ascii_alnum c || ContentFilter.one_of ".-" c)
    with domain_char.
  change (fun c => Char.is_upper c || ContentFilter.one_of "|" c || Char.is_lower c)
    with tld_char.
  unfold Re.at_boundary at 1.
  rewrite Hprev, (next_char_app local _ Hllen), Hfirst. cbn [xorb].
  apply rep_exec_greedy; [exact Hlocal|exact Hllen|reflexivity|].
  change ("@" +:+ domain +:+ "." +:+ tld +:+ post)
    with (String "@" (domain +:+ ("." +:+ tld) +:+ post)).
  change (Char.eqb "@" "@") with true. cbv iota.
  apply rep_exec_backtrack.
  - exact Hdomain.
  - simpl. apply (letters_are domain_char); [|exact Htld].
    intros c Hc. exact (proj1 (letter_classes c Hc)).
  - exact Hdlen.
  - exact Hpost_d.
  - intros u v Huv Hu.
    destruct u as [|d u]; [simpl in Hu; lia|].
    simpl in Huv. injection Huv as <- Htld_split.
    destruct v as [|c v].
    + change (EmptyString +:+ post) with post.
      destruct post as [|c post]; [reflexivity|]. cbv iota.
      rewrite Hpost_stop. reflexivity.
    + change (String c v +:+ post) with (String c (v +:+ post)).
      assert (Hc : ascii_letter c = true).
      { rewrite Htld_split, forallb_app in Htld. apply andb_prop in Htld as [_ Hv].
        simpl in Hv. apply andb_prop in Hv as [Hc _]. exact Hc. }
      cbv iota. rewrite (proj2 (proj2 (proj2 (letter_classes c Hc)))). reflexivity.
  - change (("." +:+ tld) +:+ post) with (String "." (tld +:+ post)).
    change (Char.eqb "." ".") with true. cbv iota.
    apply rep_exec_greedy.
    + apply (letters_are tld_char); [|exact Htld].
      intros c Hc. exact (proj1 (proj2 (letter_classes c Hc))).
    + exact Htlen.
    + exact Hpost_t.
    + unfold Re.at_boundary.
      assert (Hlast : Re.is_word_opt (last_or (Some "."%char) tld) = true).
      { apply last_or_word; [|lia].
        apply (letters_are Char.is_word); [|exact Htld].
        intros c Hc. exact (proj1 (proj2 (proj2 (letter_classes c Hc)))). }
      rewrite Hlast, Hpost_w. cbn [xorb]. f_equal.
      repeat first [rewrite string_length_app
                   |progress cbn [String.length String.append]].
      lia.
Qed.

Lemma last_or_not_empty (p q : option ascii) (s : string) :
  1 <= String.length s -> last_or p s = last_or q s.
Proof. destruct s; [simpl; lia|reflexivity]. Qed.

(** A text that ends with a character outside the class of the local
    part starts with a run of the class and such a character. *)
Lemma local_run_split (s : string) :
  1 <= String.length s ->
  no_address_char (last_or None s) = true ->
  exists w x s3,
    s = w +:+ String x s3 /\ Str.forallb local_char w = true /\ local_char x = false.
Proof.
  induction s as [|c s IH]; intros Hlen Hlast; [simpl in Hlen; lia|].
  destruct (local_char c) eqn:Hc.
  - destruct s as [|d s].
    + cbn [last_or no_address_char] in Hlast. rewrite Hc in Hlast. discriminate.
    + destruct IH as (w & x & s3 & Hs & Hw & Hx); [simpl; lia|exact Hlast|].
      exists (String c w), x, s3. rewrite Hs. simpl. rewrite Hc, Hw. repeat split. exact Hx.
  - exists EmptyString, c, s. repeat split. exact Hc.
Qed.

(** No match of the e-mail pattern starts in a text without at sign that
    ends with a character outside the class of the local part, whatever
    comes after it. *)
Lemma email_no_match_in (s rest : string) (prev : option ascii) :
  1 <= String.length s ->
  Str.existsb (Char.eqb "@") s = false ->
  no_address_char (last_or None s) = true ->
  Re.match_len ContentFilter.email_pattern prev (s +:+ rest) = None.
Proof.
  intros Hlen Hat Hlast.
  destruct (local_run_split s Hlen Hlast) as (w & x & s3 & -> & Hw & Hx).
  rewrite existsb_app in Hat. apply orb_false_iff in Hat as [Hat_w Hat_x].
  cbn [Str.existsb] in Hat_x. apply orb_false_iff in Hat_x as [Hat_x _].
  rewrite append_assoc.
  unfold Re.match_len, ContentFilter.email_pattern.
  cbn [Re.cats Re.exec Re.plus Re.chr].
  change (fun c => ContentFilter.ascii_alnum c || ContentFilter.one_of "._%+-" c)
    with local_char.
  destruct (Re.at_boundary prev _); [|reflexivity].
  rewrite rep_exec_all_fail; [reflexivity|exact Hw|exact Hx|].
  intros u v -> Hu.
  destruct v as [|c v].
  - change (EmptyString +:+ String x s3 +:+ rest) with (String x (s3 +:+ rest)).
    cbv iota. rewrite Hat_x. reflexivity.
  - change (String c v +:+ String x s3 +:+ rest)
      with (String c (v +:+ String x s3 +:+ rest)).
    cbv iota.
    rewrite forallb_app in Hw. apply andb_prop in Hw as [_ Hv].
    simpl in Hv. apply andb_prop in Hv as [Hc _].
    rewrite (at_sign_is_no_local_char c Hc). reflexivity.
Qed.

(** The text before the first match stays, when no match starts in
    it. *)
Lemma sub_from_before_when (r : Re.regex) (repl : string) (rest : string) (pre : string) :
  (forall p1 c p2 prev, pre = p1 +:+ String c p2 ->
                        Re.match_len r prev (String c p2 +:+ rest) = None) ->
  forall prev : option ascii,
    Re.sub_from r repl prev 0 (pre +:+ rest)
    = pre +:+ Re.sub_from r repl (last_or prev pre) 0 rest.
Proof.
  induction pre as [|c pre IH]; intros Hno prev; [reflexivity|].
  change (String c pre +:+ rest) with (String c (pre +:+ rest)).
  cbn [Re.sub_from last_or].
  pose proof (Hno EmptyString c pre prev eq_refl) as Hhere.
  change (String c pre +:+ rest) with (String c (pre +:+ rest)) in Hhere.
  rewrite Hhere. rewrite IH; [reflexivity|].
  intros p1 d p2 prev' ->. exact (Hno (String c p1) d p2 prev' eq_refl).
Qed.

Lemma email_address_length (address : string) :
  email_address address -> 1 <= String.length address.
Proof.
  intros (local & domain & tld & -> & _ & _ & Hdlen & _).
  rewrite !string_length_app. lia.
Qed.

(** X15: an e-mail address that stands alone in a text without any
    other at sign, digit or colon is replaced by [[EMAIL_REMOVED]], and
    the text around it stays as it is. *)
Theorem email_address_is_removed (pre address post : string) :
  email_address address ->
  Str.existsb sensitive_char pre = false ->
  Str.existsb sensitive_char post = false ->
  no_address_char (last_or None pre) = true ->
  no_address_char (Re.next_char post) = true ->
  ContentFilter._remove_sensitive_data (pre +:+ address +:+ post)
  = pre +:+ "[EMAIL_REMOVED]" +:+ post.
Proof.
  intros Haddress Hpre Hpost Hbefore Hafter.
  assert (Hweak : forall p s, (forall c, p c = true -> sensitive_char c = true) ->
                              Str.existsb sensitive_char s = false ->
                              Str.existsb p s = false)
    by (intros p s Hp; apply existsb_weaken; exact Hp).
  assert (Hat_char : forall c, Char.eqb "@" c = true -> sensitive_char c = true)
    by (intros c Hc; unfold sensitive_char; rewrite Hc; reflexivity).
  assert (Hdigit_char : forall c, Char.is_digit c = true -> sensitive_char c = true)
    by (intros c Hc; unfold sensitive_char; rewrite Hc, orb_true_r; reflexivity).
  assert (Hcolon_char : forall c, Char.eqb ":" c = true -> sensitive_char c = true)
    by (intros c Hc; unfold sensitive_char; rewrite Hc, !orb_true_r; reflexivity).
  assert (Hword : Re.is_word_opt (last_or None pre) = false).
  { destruct (last_or None pre) as [x|]; [|reflexivity].
    cbn [no_address_char] in Hbefore. apply negb_true_iff in Hbefore.
    apply orb_false_iff in Hbefore as [_ Hx]. exact Hx. }
  unfold ContentFilter._remove_sensitive_data, Re.sub.
  (* the e-mail rule *)
  rewrite (sub_from_before_when _ "[EMAIL_REMOVED]" (address +:+ post) pre).
  2: { intros p1 c p2 prev ->. apply email_no_match_in.
       - simpl. lia.
       - rewrite existsb_app in Hpre. apply orb_false_iff in Hpre as [_ Hpre].
         exact (Hweak _ _ Hat_char Hpre).
       - rewrite last_or_app in Hbefore.
         rewrite (last_or_not_empty None (last_or None p1)); [exact Hbefore|simpl; lia]. }
  rewrite (sub_from_match _ _ _ address post (email_address_length address Haddress)
             (email_address_matches _ address post Haddress Hword Hafter)).
  rewrite (sub_from_nothing_ahead _ _ (Char.eqb "@") post email_needs_at
             (Hweak _ post Hat_char Hpost)).
  (* the telephone rule *)
  rewrite (sub_from_nothing_ahead _ _ Char.is_digit _ phone_needs_digit);
    [|rewrite !existsb_app, (Hweak _ pre Hdigit_char Hpre),
        (Hweak _ post Hdigit_char Hpost); reflexivity].
  (* the URL rule *)
  apply (sub_from_nothing_ahead _ _ (Char.eqb ":") _ url_needs_colon).
  rewrite !existsb_app, (Hweak _ pre Hcolon_char Hpre), (Hweak _ post Hcolon_char Hpost).
  reflexivity.
Qed.

Lemma email_address_is_removed_witness :
  ContentFilter._remove_sensitive_data
    ("Write to " +:+ "jane.doe42@mail.example.org" +:+ ", please.")
  = "Write to " +:+ "[EMAIL_REMOVED]" +:+ ", please.".
Proof.
  apply (email_address_is_removed "Write to " "jane.doe42@mail.example.org" ", please.").
  - exists "jane.doe42", "mail.example", "org". repeat split; simpl; lia.
  - reflexivity.
  - reflexivity.
  - reflexivity.
  - reflexivity.
Defined.

(** ** Requests made of fresh messages *)

Lemma message_content (role : string) (content : pyval) :
  message role content !! "content" = Some content.
Proof.
  unfold message. rewrite lookup_insert_ne by discriminate.
  apply lookup_singleton_eq.
Qed.

Lemma message_set_content (role : string) (content content' : pyval) :
  <["content" := content']> (message role content) = message role content'.
Proof.
  unfold message. rewrite insert_insert_ne by discriminate.
  rewrite insert_singleton_eq. reflexivity.
Qed.

(** One turn of the loop of [chat_completion], for a message with a
    string as content and a client with content filter. *)
Lemma validate_messages_step (self : mistral_client) (r : nat) (rest : list nat)
    (h : heap) (role text : string) :
  content_filter self = true ->
  deref h r = message role (PStr text) ->
  validate_messages self (r :: rest) h
  = if ContentFilter.is_safe_content text
    then validate_messages self rest
           (<[r := message role (PStr (ContentFilter.filter_content text))]> h)
    else (h, Some (ValueError "Content failed safety checks")).
Proof.
  intros Hcf Hderef. cbn [validate_messages]. rewrite Hderef, message_content.
  unfold _validate_and_filter_content. rewrite Hcf.
  cbn [is_safe_content_py mbind result_bind].
  destruct (ContentFilter.is_safe_content text); cbn [negb filter_content_py];
    [|reflexivity].
  rewrite message_set_content. reflexivity.
Qed.

(** The loop of [chat_completion] over fresh messages with strings as
    contents, [done] being the messages that stand before them in the
    heap: with a content filter, every content is filtered when all are
    safe, and the first unsafe one raises. *)
Lemma validate_messages_fresh (self : mistral_client) (ms : list (string * string)) :
  content_filter self = true ->
  forall done : list (gmap string pyval),
    (forallb (fun m => ContentFilter.is_safe_content (snd m)) ms = true ->
       validate_messages self (seq (length done) (length ms))
         (done ++ List.map text_message ms)
       = (done ++ List.map (fun m => text_message
                                       (fst m, ContentFilter.filter_content (snd m))) ms,
          None))
    /\ (forallb (fun m => ContentFilter.is_safe_content (snd m)) ms = false ->
          snd (validate_messages self (seq (length done) (length ms))
                 (done ++ List.map text_message ms))
          = Some (ValueError "Content failed safety checks")).
Proof.
  intros Hcf. induction ms as [|[role text] ms IH]; intros done.
  - simpl. rewrite app_nil_r. split; [reflexivity|discriminate].
  - cbn [length seq List.map forallb snd fst].
    rewrite (validate_messages_step self (length done) _ _ role text Hcf);
      [|unfold deref; rewrite list_lookup_middle by reflexivity; reflexivity].
    destruct (ContentFilter.is_safe_content text) eqn:Hsafe; cbn [andb];
      [|split; [discriminate|reflexivity]].
    rewrite insert_app_r_alt by lia. rewrite Nat.sub_diag. cbn [list_insert insert].
    change (done ++ message role (PStr (ContentFilter.filter_content text))
                 :: List.map text_message ms)
      with (done ++ [text_message (role, ContentFilter.filter_content text)]
                 ++ List.map text_message ms).
    rewrite app_assoc.
    replace (S (length done))
      with (length (done ++ [text_message (role, ContentFilter.filter_content text)]))
      by (rewrite length_app; simpl; lia).
    destruct (IH (done ++ [text_message (role, ContentFilter.filter_content text)]))
      as [Hall Hsome].
    split; [|exact Hsome].
    intros H. rewrite (Hall H). rewrite <- app_assoc. reflexivity.
Qed.

(** Without content filter the loop assigns to every content the value
    it has: the heap stays as it is and nothing is raised. *)
Lemma validate_messages_unfiltered (self : mistral_client) (messages : list nat) :
  content_filter self = false ->
  forall h : heap, validate_messages self messages h = (h, None).
Proof.
  intros Hcf. induction messages as [|r rest IH]; intros h; [reflexivity|].
  cbn [validate_messages].
  destruct (deref h r !! "content") as [c|] eqn:Hc; [|apply IH].
  unfold _validate_and_filter_content. rewrite Hcf.
  rewrite (insert_id _ _ _ Hc).
  assert (Hh : <[r := deref h r]> h = h).
  { unfold deref in *. destruct (h !! r) as [m|] eqn:Hr.
    - apply list_insert_id. exact Hr.
    - simpl in Hc. rewrite lookup_empty in Hc. discriminate. }
  rewrite Hh. apply IH.
Qed.

Section Requests.

Variable post : payload -> http_outcome.

(** [chat_completion] on fresh messages with strings as contents, for a
    client with content filter. *)
Lemma chat_completion_fresh (self : mistral_client) (ms : list (string * string))
    (t : option float) (m : option Z) :
  content_filter self = true ->
  let '(_, sent, response) :=
    chat_completion post self (seq 0 (length ms)) t m (List.map text_message ms) in
  let request :=
    _prepare_payload self
      (List.map (fun m => text_message (fst m, ContentFilter.filter_content (snd m))) ms)
      t m in
  if forallb (fun m => ContentFilter.is_safe_content (snd m)) ms
  then sent = [request] /\ response = completion_of self (handle_response self (post request))
  else sent = [] /\ response = Failure "Content failed safety checks".
Proof.
  intros Hcf. rewrite chat_completion_eq.
  destruct (validate_messages_fresh self ms Hcf []) as [Hall Hsome].
  cbn [length app] in Hall, Hsome.
  destruct (forallb _ ms).
  - rewrite (Hall eq_refl). cbv zeta.
    assert (Hmap : forall l : list (gmap string pyval),
               List.map (deref l) (seq 0 (length l)) = l).
    { intros l. apply list_eq. intros i.
      rewrite list_lookup_fmap.
      destruct (decide (i < length l)) as [Hlt|Hge].
      - rewrite lookup_seq_lt by exact Hlt. simpl.
        destruct (lookup_lt_is_Some_2 l i Hlt) as [x Hx].
        unfold deref. rewrite Hx. reflexivity.
      - rewrite lookup_seq_ge by lia. simpl. symmetry.
        apply lookup_ge_None_2. lia. }
    replace (length ms)
      with (length (List.map
                      (fun m => text_message (fst m, ContentFilter.filter_content (snd m)))
                      ms))
      by apply length_map.
    rewrite Hmap. split; reflexivity.
  - specialize (Hsome eq_refl).
    destruct (validate_messages self _ _) as [h' e]. simpl in Hsome. subst e.
    split; reflexivity.
Qed.

End Requests.

Section Asking.

Variable post : payload -> http_outcome.

Lemma ask_question_eq (self : mistral_client) (question : string)
    (context : option string) :
  ask_question post self question context
  = chat_completion post self (seq 0 (length (question_messages question context)))
      None None (List.map text_message (question_messages question context)).
Proof. destruct context as [[|a c]|]; reflexivity. Qed.

Lemma ask_question_fresh (self : mistral_client) (question : string)
    (context : option string) :
  content_filter self = true ->
  let '(_, sent, response) := ask_question post self question context in
  let request :=
    _prepare_payload self
      (List.map (fun m => text_message (fst m, ContentFilter.filter_content (snd m)))
         (question_messages question context))
      None None in
  if forallb (fun m => ContentFilter.is_safe_content (snd m))
       (question_messages question context)
  then sent = [request] /\ response = completion_of self (handle_response self (post request))
  else sent = [] /\ response = Failure "Content failed safety checks".
Proof.
  intros Hcf. rewrite ask_question_eq.
  exact (chat_completion_fresh post self (question_messages question context) None None Hcf).
Qed.

(** X7: what [ask_question] hands to the transport, for a client with
    content filter.  When the question, or a context that is not empty
    behind its prefix [Context: ], is unsafe, nothing is sent and the
    answer is the failure [Content failed safety checks].  Otherwise one
    request is sent: the system message with the filtered context, when
    there is a context, and the user message with the filtered question;
    the answer is what the handling of the response gives.  An empty
    context is no context. *)
Theorem ask_question_requests (self : mistral_client) (question : string) :
  content_filter self = true ->
  (forall context,
     context = None \/ context = Some EmptyString ->
     let '(_, sent, response) := ask_question post self question context in
     let request :=
       _prepare_payload self
         [message "user" (PStr (ContentFilter.filter_content question))] None None in
     if ContentFilter.is_safe_content question
     then sent = [request]
          /\ response = completion_of self (handle_response self (post request))
     else sent = [] /\ response = Failure "Content failed safety checks")
  /\ (forall context,
        context <> EmptyString ->
        let '(_, sent, response) := ask_question post self question (Some context) in
        let request :=
          _prepare_payload self
            [message "system"
               (PStr (ContentFilter.filter_content ("Context: " +:+ context)));
             message "user" (PStr (ContentFilter.filter_content question))] None None in
        if ContentFilter.is_safe_content ("Context: " +:+ context)
           && ContentFilter.is_safe_content question
        then sent = [request]
             /\ response = completion_of self (handle_response self (post request))
        else sent = [] /\ response = Failure "Content failed safety checks").
Proof.
  intros Hcf. split.
  - intros context Hcontext.
    pose proof (ask_question_fresh self question context Hcf) as H.
    destruct (ask_question post self question context) as [[h sent] response].
    destruct Hcontext as [->| ->]; cbn [question_messages forallb List.map fst snd] in H;
      rewrite andb_true_r in H; exact H.
  - intros context Hne.
    pose proof (ask_question_fresh self question (Some context) Hcf) as H.
    destruct (ask_question post self question (Some context)) as [[h sent] response].
    destruct context as [|a c]; [congruence|].
    cbn [question_messages forallb List.map fst snd] in H.
    rewrite andb_true_r in H. exact H.
Qed.

Lemma completion_of_success (self : mistral_client) (outcome : http_outcome) :
  match completion_of self (handle_response self outcome) with
  | Success _ _ _ => true
  | Failure _ => false
  end
  = match outcome with
    | Response status_code _ (JsonChoice content _ _) =>
        (status_code =? 200)%Z
        && negb (content_filter self && bool_decide (content = PBool true))
    | _ => false
    end.
Proof.
  destruct outcome as [e|status_code text body]; cbn [handle_response completion_of].
  - destruct e; reflexivity.
  - destruct (status_code =? 200)%Z; [|destruct body; reflexivity].
    destruct body as [e| |content usage model]; cbn [completion_of andb].
    + destruct e; reflexivity.
    + reflexivity.
    + destruct (content_filter self); [|reflexivity].
      destruct content as [|[]|s]; reflexivity.
Qed.

(** X8: [health_check] always contacts the transport, once: its
    question is safe.  With a content filter the question is off topic
    for the guardrails, so the request carries it with the redirect note
    appended.  The check answers [True] exactly when the transport
    answers 200 with a first choice whose content the filter takes. *)
Theorem health_check_request (self : mistral_client) :
  let '(healthy, sent) := health_check post self in
  let request :=
    _prepare_payload self
      [message "user"
         (PStr (if content_filter self
                then health_question +:+ ContentFilter.redirect_note
                else health_question))] None None in
  sent = [request]
  /\ healthy
     = match post request with
       | Response status_code _ (JsonChoice content _ _) =>
           (status_code =? 200)%Z
           && negb (content_filter self && bool_decide (content = PBool true))
       | _ => false
       end.
Proof.
  unfold health_check. fold health_question.
  destruct (content_filter self) eqn:Hcf.
  - pose proof (ask_question_fresh self health_question None Hcf) as H.
    destruct (ask_question post self health_question None) as [[h sent] response].
    cbn [question_messages forallb List.map fst snd] in H.
    assert (Hsafe : ContentFilter.is_safe_content health_question = true)
      by (vm_compute; reflexivity).
    assert (Hfiltered : ContentFilter.filter_content health_question
                        = health_question +:+ ContentFilter.redirect_note)
      by (vm_compute; reflexivity).
    rewrite Hsafe, Hfiltered in H. cbn [andb] in H. destruct H as [-> ->]. split; [reflexivity|].
    rewrite completion_of_success, Hcf. reflexivity.
  - rewrite ask_question_eq, chat_completion_eq.
    rewrite (validate_messages_unfiltered self _ Hcf).
    cbn [question_messages length seq List.map]. cbv zeta.
    change (deref [text_message ("user", health_question)] 0)
      with (message "user" (PStr health_question)).
    split; [reflexivity|].
    fold (completion_of self
            (handle_response self
               (post (_prepare_payload self [message "user" (PStr health_question)]
                        None None)))).
    rewrite completion_of_success, Hcf. reflexivity.
Qed.

(** X9: [explain_spectrogram], for a client with content filter and
    whatever the audio features and the custom context are: either the
    context is refused and nothing is sent, or one request is sent whose
    last message is the user message with the question of the source on
    one line, without redirect note.  Without features and context that
    message is the whole request. *)
Theorem explain_spectrogram_request (self : mistral_client)
    (audio_features : option (gmap string float)) (custom_context : option string) :
  content_filter self = true ->
  (let '(_, sent, response) :=
     explain_spectrogram post self audio_features custom_context in
   (sent = [] /\ response = Failure "Content failed safety checks")
   \/ (exists request,
         sent = [request]
         /\ last (p_messages request)
            = Some (message "user" (PStr filtered_spectrogram_question))
         /\ length (p_messages request) <= 2
         /\ response = completion_of self (handle_response self (post request))))
  /\ (let '(_, sent, response) := explain_spectrogram post self None None in
      sent = [_prepare_payload self
                [message "user" (PStr filtered_spectrogram_question)] None None]).
Proof.
  intros Hcf.
  assert (Hsafe : ContentFilter.is_safe_content spectrogram_question = true)
    by (vm_compute; reflexivity).
  assert (Hfiltered : ContentFilter.filter_content spectrogram_question
                      = filtered_spectrogram_question)
    by (vm_compute; reflexivity).
  split.
  - unfold explain_spectrogram.
    pose proof (ask_question_fresh self spectrogram_question
                  (spectrogram_context audio_features custom_context) Hcf) as H.
    destruct (ask_question post self spectrogram_question _) as [[h sent] response].
    destruct (spectrogram_context audio_features custom_context) as [[|a c]|];
      cbn [question_messages forallb List.map fst snd] in H;
      rewrite ?Hsafe, ?Hfiltered in H; cbn [andb] in H.
    + destruct H as [-> ->]. right. eexists. repeat split. simpl. lia.
    + rewrite andb_true_r in H.
      destruct (ContentFilter.is_safe_content ("Context: " +:+ String a c)).
      * destruct H as [-> ->]. right. eexists. repeat split. simpl. lia.
      * left. exact H.
    + destruct H as [-> ->]. right. eexists. repeat split. simpl. lia.
  - unfold explain_spectrogram. cbn [spectrogram_context].
    pose proof (ask_question_fresh self spectrogram_question None Hcf) as H.
    destruct (ask_question post self spectrogram_question None) as [[h sent] response].
    cbn [question_messages forallb List.map fst snd] in H.
    rewrite Hsafe, Hfiltered in H. cbn [andb] in H. destruct H as [-> _]. reflexivity.
Qed.

End Asking.

Lemma ask_question_requests_witness :
  let '(_, sent, response) :=
    ask_question (replying "It shows frequency over time.")
      (MistralClient_init default_settings)
      "What   is a spectrogram?" (Some "a recording of a violin") in
  let request :=
    _prepare_payload (MistralClient_init default_settings)
      [message "system"
         (PStr (ContentFilter.filter_content ("Context: " +:+ "a recording of a violin")));
       message "user" (PStr (ContentFilter.filter_content "What   is a spectrogram?"))]
      None None in
  if ContentFilter.is_safe_content ("Context: " +:+ "a recording of a violin")
     && ContentFilter.is_safe_content "What   is a spectrogram?"
  then sent = [request]
       /\ response
          = completion_of (MistralClient_init default_settings)
              (handle_response (MistralClient_init default_settings)
                 (replying "It shows frequency over time." request))
  else sent = [] /\ response = Failure "Content failed safety checks".
Proof.
  exact (proj2 (ask_question_requests (replying "It shows frequency over time.")
                  (MistralClient_init default_settings) "What   is a spectrogram?"
                  eq_refl)
           "a recording of a violin" ltac:(discriminate)).
Defined.

Lemma explain_spectrogram_request_witness :
  let '(_, sent, response) :=
    explain_spectrogram (replying "ok") (MistralClient_init default_settings) None None in
  sent = [_prepare_payload (MistralClient_init default_settings)
            [message "user" (PStr filtered_spectrogram_question)] None None].
Proof.
  exact (proj2 (explain_spectrogram_request (replying "ok")
                  (MistralClient_init default_settings) None None eq_refl)).
Defined.

(** ** The summary of a conversation *)

(** The formatted history of exchanges whose replies are strings. *)
Lemma format_exchanges_strings (history : list exchange) :
  forall i : nat,
    Forall (fun e => exists s, assistant e = PStr s) history ->
    exists formatted, format_exchanges i history = Ok formatted.
Proof.
  induction history as [|e rest IH]; intros i Hall; [eexists; reflexivity|].
  apply Forall_cons in Hall as [[s Hs] Hrest].
  destruct (IH (S i) Hrest) as [formatted Hformatted].
  cbn [format_exchanges]. rewrite Hs, Hformatted. eexists. reflexivity.
Qed.


Lemma concat_cons2 (sep x y : string) (l : list string) :
  String.concat sep (x :: y :: l) = x +:+ sep +:+ String.concat sep (y :: l).
Proof. reflexivity. Qed.

(** The four lines of the first exchange, and what follows them. *)
Lemma concat_first_exchange (line u r : string) (rest : list string) :
  String.concat ContentFilter.nl
    (line :: ("User: " +:+ u) :: ("Assistant: " +:+ r +:+ "...") :: EmptyString :: rest)
  = ((line +:+ ContentFilter.nl) +:+ "User: " +:+ u +:+ ContentFilter.nl +:+ "Assistant: ")
    +:+ r +:+ ("..." +:+ ContentFilter.nl
               +:+ String.concat ContentFilter.nl (EmptyString :: rest)).
Proof. rewrite !concat_cons2. rewrite !append_assoc. reflexivity. Qed.

Lemma concat_later_exchange (l1 l2 l3 line : string) (rest : list string) :
  String.concat ContentFilter.nl (l1 :: l2 :: l3 :: EmptyString :: line :: rest)
  = (l1 +:+ ContentFilter.nl +:+ l2 +:+ ContentFilter.nl +:+ l3 +:+ ContentFilter.nl
     +:+ ContentFilter.nl)
    +:+ String.concat ContentFilter.nl (line :: rest).
Proof. rewrite !concat_cons2. rewrite !append_assoc. reflexivity. Qed.

(** Where an exchange stands in the formatted history: its user text in
    full, and its reply cut to 200 characters between [Assistant: ] and
    three full stops. *)
Lemma format_exchanges_holds (history : list exchange) (e : exchange) :
  forall (i : nat) (formatted : list string),
    In e history -> format_exchanges i history = Ok formatted ->
    exists before after reply,
      slice_to 200 (assistant e) = Ok reply
      /\ String.concat ContentFilter.nl formatted
         = (before +:+ "User: " +:+ user e +:+ ContentFilter.nl +:+ "Assistant: ")
           +:+ reply +:+ ("..." +:+ after).
Proof.
  induction history as [|e0 rest IH]; intros i formatted Hin Hformat; [destruct Hin|].
  cbn [format_exchanges] in Hformat.
  destruct (slice_to 200 (assistant e0)) as [reply0|] eqn:Hreply0; [|discriminate].
  destruct (format_exchanges (S i) rest) as [formatted0|] eqn:Hrest; [|discriminate].
  injection Hformat as <-.
  destruct Hin as [->|Hin].
  - exists (("Exchange " +:+ pretty i +:+ ":") +:+ ContentFilter.nl),
      (ContentFilter.nl +:+ String.concat ContentFilter.nl (EmptyString :: formatted0)),
      reply0.
    split; [exact Hreply0|].
    exact (concat_first_exchange ("Exchange " +:+ pretty i +:+ ":") (user e) reply0
             formatted0).
  - destruct (IH (S i) formatted0 Hin Hrest) as (before & after & reply & Hreply & Htext).
    destruct formatted0 as [|line formatted0].
    { destruct rest as [|e1 rest]; [destruct Hin|].
      cbn [format_exchanges] in Hrest.
      destruct (slice_to 200 (assistant e1)); [|discriminate].
      destruct (format_exchanges (S (S i)) rest); discriminate. }
    exists ((("Exchange " +:+ pretty i +:+ ":") +:+ ContentFilter.nl
             +:+ ("User: " +:+ user e0) +:+ ContentFilter.nl
             +:+ ("Assistant: " +:+ reply0 +:+ "...") +:+ ContentFilter.nl
             +:+ ContentFilter.nl) +:+ before), after, reply.
    split; [exact Hreply|].
    etransitivity;
      [exact (concat_later_exchange ("Exchange " +:+ pretty i +:+ ":")
                ("User: " +:+ user e0) ("Assistant: " +:+ reply0 +:+ "...")
                line formatted0)|].
    rewrite Htext. rewrite !append_assoc. reflexivity.
Qed.

(** A text that is not blank and is longer than 5000 characters, or
    holds an inappropriate term, is unsafe. *)
Lemma unsafe_by_length_or_term (text : string) :
  Str.forallb Char.is_space text = false ->
  5000 < String.length text \/ ContentFilter.inappropriate (Str.lower text) = true ->
  ContentFilter.is_safe_content text = false.
Proof.
  intros Hblank H. unfold ContentFilter.is_safe_content.
  rewrite is_blank_spec, Hblank.
  destruct (ContentFilter.inappropriate (Str.lower text)); [reflexivity|].
  destruct H as [H|H]; [|discriminate].
  apply Nat.ltb_lt in H. rewrite H. reflexivity.
Qed.

(** An inappropriate term of a text is one of every text around it that
    brings no word character next to it. *)
Lemma unsafe_term_inside (before s after : string) :
  Re.is_word_opt (last_or None before) = false ->
  Re.is_word_opt (Re.next_char after) = false ->
  unsafe_term_at_word_boundary s ->
  unsafe_term_at_word_boundary (before +:+ s +:+ after).
Proof.
  intros Hbefore Hafter (pre & u & post & -> & Hu & Hpre & Hpost).
  exists (before +:+ pre), u, (post +:+ after). repeat split.
  - rewrite !append_assoc. reflexivity.
  - exact Hu.
  - rewrite last_or_app. destruct pre as [|c pre]; [exact Hbefore|exact Hpre].
  - destruct post as [|c post]; [exact Hafter|exact Hpost].
Qed.

Section Summary.

Variable post : payload -> http_outcome.


(** The summary of a history whose replies are strings, when the prompt
    is unsafe. *)
Lemma summary_refused (self : chat_service) (e : exchange) (history_text : string) :
  content_filter (mistral self) = true ->
  In e (conversation_history self) ->
  _format_history_for_summary self = Ok history_text ->
  ContentFilter.is_safe_content (summary_prompt history_text) = false ->
  get_conversation_summary post self
  = (Summarized false (PStr "Could not generate summary.")
       (length (conversation_history self)) (PStr "Content failed safety checks"),
     []).
Proof.
  intros Hcf Hin Hformat Hunsafe. unfold get_conversation_summary.
  destruct (conversation_history self) as [|e0 rest] eqn:Hhistory; [destruct Hin|].
  rewrite Hformat.
  pose proof (ask_question_fresh post (mistral self) (summary_prompt history_text) None Hcf)
    as H.
  destruct (ask_question post (mistral self) (summary_prompt history_text) None)
    as [[h sent] response].
  cbn [question_messages forallb snd] in H. rewrite Hunsafe in H. cbn [andb] in H.
  destruct H as [-> ->]. reflexivity.
Qed.


(** X11: one long question makes the summary fail for as long as it
    stays in the history.  The prompt of the summary quotes every
    recorded user text in full; with a content filter, a history whose
    replies are strings and that holds a user text of 4900 characters or
    more gives a prompt of more than 5000 characters, which the safety
    classifier refuses: no request is made. *)
Theorem long_question_blocks_summary (self : chat_service) (e : exchange) :
  content_filter (mistral self) = true ->
  Forall (fun x => exists s, assistant x = PStr s) (conversation_history self) ->
  In e (conversation_history self) ->
  4900 <= String.length (user e) ->
  get_conversation_summary post self
  = (Summarized false (PStr "Could not generate summary.")
       (length (conversation_history self)) (PStr "Content failed safety checks"),
     []).
Proof.
  intros Hcf Hstrings Hin Hlong.
  destruct (format_exchanges_strings _ 1 Hstrings) as [formatted Hformatted].
  destruct (format_exchanges_holds _ e 1 formatted Hin Hformatted)
    as (before & after & reply & _ & Htext).
  apply (summary_refused self e (String.concat ContentFilter.nl formatted) Hcf Hin).
  - unfold _format_history_for_summary. rewrite Hformatted. reflexivity.
  - apply unsafe_by_length_or_term; [reflexivity|]. left.
    unfold summary_prompt. rewrite Htext.
    rewrite !string_length_app. simpl String.length. lia.
Qed.

(** X12: a reply that holds an inappropriate term within its first 200
    characters makes the summary fail for as long as it stays in the
    history: the prompt quotes these characters, between a space and a
    full stop, so the term stands in the prompt as it stands in the
    reply, and the safety classifier refuses the prompt. *)
Theorem unsafe_reply_blocks_summary (self : chat_service) (e : exchange) (reply : string) :
  content_filter (mistral self) = true ->
  Forall (fun x => exists s, assistant x = PStr s) (conversation_history self) ->
  In e (conversation_history self) ->
  assistant e = PStr reply ->
  ContentFilter.inappropriate (Str.lower (Str.take 200 reply)) = true ->
  get_conversation_summary post self
  = (Summarized false (PStr "Could not generate summary.")
       (length (conversation_history self)) (PStr "Content failed safety checks"),
     []).
Proof.
  intros Hcf Hstrings Hin Hreply Hterm.
  destruct (format_exchanges_strings _ 1 Hstrings) as [formatted Hformatted].
  destruct (format_exchanges_holds _ e 1 formatted Hin Hformatted)
    as (before & after & reply' & Hslice & Htext).
  rewrite Hreply in Hslice. cbn [slice_to] in Hslice. injection Hslice as <-.
  apply (summary_refused self e (String.concat ContentFilter.nl formatted) Hcf Hin).
  - unfold _format_history_for_summary. rewrite Hformatted. reflexivity.
  - apply unsafe_by_length_or_term; [reflexivity|]. right.
    apply inappropriate_spec. apply inappropriate_spec in Hterm.
    unfold summary_prompt. rewrite Htext.
    set (head := "Please provide a brief summary of our conversation about audio analysis. "
                 +:+ "Here's our conversation:\n\n"
                 +:+ before +:+ "User: " +:+ user e +:+ ContentFilter.nl).
    set (tail := after +:+ "\n\n"
                 +:+ "Focus on the key topics discussed and main insights shared.").
    replace (Str.lower _)
      with (Str.lower (head +:+ "Assistant: ") +:+ Str.lower (Str.take 200 reply)
            +:+ Str.lower ("..." +:+ tail)).
    + apply unsafe_term_inside; [|reflexivity|exact Hterm].
      rewrite lower_app, last_or_app. reflexivity.
    + rewrite <- !lower_app. f_equal. unfold head, tail.
      rewrite !append_assoc. reflexivity.
Qed.

End Summary.

Lemma long_question_blocks_summary_witness :
  get_conversation_summary (replying "ok")
    (record (ChatService_init default_settings)
       {| user := "Describe " +:+ Str.replicate 4900 "a";
          assistant := PStr "A picture of sound.";
          timestamp := "t1" |})
  = (Summarized false (PStr "Could not generate summary.") 1
       (PStr "Content failed safety checks"),
     []).
Proof.
  apply (long_question_blocks_summary (replying "ok")
           (record (ChatService_init default_settings)
              {| user := "Describe " +:+ Str.replicate 4900 "a";
                 assistant := PStr "A picture of sound.";
                 timestamp := "t1" |})
           {| user := "Describe " +:+ Str.replicate 4900 "a";
              assistant := PStr "A picture of sound.";
              timestamp := "t1" |}).
  - reflexivity.
  - repeat constructor. eexists. reflexivity.
  - left. reflexivity.
  - vm_compute. lia.
Defined.

Lemma unsafe_reply_blocks_summary_witness :
  get_conversation_summary (replying "ok")
    (record (ChatService_init default_settings)
       {| user := "How do I remove hum from a recording?";
          assistant := PStr unsafe_reply;
          timestamp := "t1" |})
  = (Summarized false (PStr "Could not generate summary.") 1
       (PStr "Content failed safety checks"),
     []).
Proof.
  apply (unsafe_reply_blocks_summary (replying "ok")
           (record (ChatService_init default_settings)
              {| user := "How do I remove hum from a recording?";
                 assistant := PStr unsafe_reply;
                 timestamp := "t1" |})
           {| user := "How do I remove hum from a recording?";
              assistant := PStr unsafe_reply;
              timestamp := "t1" |}
           unsafe_reply).
  - reflexivity.
  - repeat constructor. eexists. reflexivity.
  - left. reflexivity.
  - reflexivity.
  - vm_compute. reflexivity.
Defined.
